(** * Email classifier chat: the chat input and the chat session controller

    A shallow embedding of the Angular front end of the email classifier:
    - [ChatInputComponent] (chat-input.component.ts): staging of text and
      file, file validation, [enviar];
    - [EmailClassifierChatComponent] (email-classifier-chat.component.ts):
      the message log, [onEnviarTexto], [onEnviarArquivo], [handleSucesso],
      [handleErro];
    - the data types of classificacao.model.ts and chat-message.component.ts.

    Conventions of the embedding.
    - A JavaScript string is a Rocq [string] holding its UTF-8 bytes.
    - A JavaScript [number] that holds a count, a size or a clock reading
      is an [N] or a [Z]; the classifier's confidence, a fraction, is a
      binary64 [float], as in the source.
    - Signals are fields of a state record; a method is a function from
      state to state. Methods never throw on well-typed arguments, so they
      are total functions.
    - An HTTP call is a request put in flight; its completion is a later
      event that runs the callback the source registered.
    - The templates of the components are not part of the sources at
      hand. The handler of text entry, which is theirs, is modelled from
      the specification and marked as such; nothing is assumed of how
      they bind the two components to each other. *)

From Stdlib Require Import ZArith NArith List Bool Ascii String DecimalString.
From Stdlib Require Import DecimalN Floats.PrimFloat Lia.
From stdpp Require Import base option list.

Local Open Scope Z_scope.

(* ================================================================== *)
(** ** Strings as the source uses them                                  *)
(* ================================================================== *)

Module Js.

(** [s.split(c)] for a one-character separator: the pieces between the
    occurrences of [c]; never the empty array. *)
Fixpoint split (c : ascii) (s : string) : list string :=
  match s with
  | EmptyString => [EmptyString]
  | String a r =>
      if Ascii.eqb a c then EmptyString :: split c r
      else match split c r with
           | h :: t => String a h :: t
           | [] => [String a EmptyString]
           end
  end.

(** [a.pop()] as a value: the last element, [None] (undefined) on the
    empty array. *)
Definition pop (l : list string) : option string := last l.

Definition lower_ascii (a : ascii) : ascii :=
  let n := nat_of_ascii a in
  if ((65 <=? n)%nat && (n <=? 90)%nat)%bool
  then ascii_of_nat (n + 32) else a.

(** [s.toLowerCase()] as far as the code depends on it: the letters A
    to Z are lower-cased, every other byte is left as it is. On a string
    of ASCII characters this is the string of the source. On other
    strings it is not: JavaScript lower-cases the letters of every
    script, the capital sigma by its context. For those the function
    serves one purpose only, the test whether the result is one of the
    names txt, pdf, eml, msg and mbox, and for that it gives the answer
    of the source: the only character outside ASCII that lower-cases
    into ASCII is the Kelvin sign, into k, a letter these names lack, so
    the result in the source is none of them; and neither is it here,
    where the bytes of the character stay. *)
Fixpoint toLowerCase (s : string) : string :=
  match s with
  | EmptyString => EmptyString
  | String a r => String (lower_ascii a) (toLowerCase r)
  end.

(** [a.includes(x)] on an array of strings. *)
Definition includes (l : list string) (x : string) : bool :=
  existsb (String.eqb x) l.

(** The UTF-8 bytes of the code point [cp]. *)
Definition utf8 (cp : N) : string :=
  let b := ascii_of_N in
  if (cp <? 0x80)%N then String (b cp) EmptyString
  else if (cp <? 0x800)%N then
    String (b (0xC0 + cp / 0x40)%N)
      (String (b (0x80 + cp mod 0x40)%N) EmptyString)
  else if (cp <? 0x10000)%N then
    String (b (0xE0 + cp / 0x1000)%N)
      (String (b (0x80 + (cp / 0x40) mod 0x40)%N)
         (String (b (0x80 + cp mod 0x40)%N) EmptyString))
  else
    String (b (0xF0 + cp / 0x40000)%N)
      (String (b (0x80 + (cp / 0x1000) mod 0x40)%N)
         (String (b (0x80 + (cp / 0x40) mod 0x40)%N)
            (String (b (0x80 + cp mod 0x40)%N) EmptyString))).

(** The characters that [trim] removes, the white space and the line
    terminators of ECMAScript: tab, line feed, vertical tab, form feed,
    carriage return, space, no-break space, the other space separators
    of Unicode (U+1680, U+2000 to U+200A, U+202F, U+205F, U+3000), the
    line and paragraph separators (U+2028, U+2029) and the byte order
    mark (U+FEFF). *)
Definition espacos : list N :=
  [0x09; 0x0A; 0x0B; 0x0C; 0x0D; 0x20; 0xA0; 0x1680;
   0x2000; 0x2001; 0x2002; 0x2003; 0x2004; 0x2005; 0x2006; 0x2007;
   0x2008; 0x2009; 0x200A; 0x2028; 0x2029; 0x202F; 0x205F; 0x3000;
   0xFEFF]%N.

Definition espaco (cp : N) : bool := existsb (N.eqb cp) espacos.

(** Their UTF-8 bytes: one to three bytes each. *)
Definition espacos_utf8 : list string := Eval cbv in utf8 <$> espacos.

(** [t] is one white-space character. *)
Definition branco (t : string) : bool := includes espacos_utf8 t.

(** [s.trimStart()]: while the string begins with a white-space
    character, of one, two or three bytes, the character is dropped. *)
Fixpoint trimStart (s : string) : string :=
  match s with
  | EmptyString => EmptyString
  | String a r1 =>
      if branco (String a EmptyString) then trimStart r1
      else
        match r1 with
        | EmptyString => s
        | String b r2 =>
            if branco (String a (String b EmptyString)) then trimStart r2
            else
              match r2 with
              | EmptyString => s
              | String c r3 =>
                  if branco (String a (String b (String c EmptyString)))
                  then trimStart r3 else s
              end
        end
  end.

(** [s.trimEnd()], the string without its trailing white space: a byte
    is dropped when it and what is kept of the bytes after it are one
    white-space character, and kept otherwise. *)
Fixpoint trimEnd (s : string) : string :=
  match s with
  | EmptyString => EmptyString
  | String a r =>
      let t := String a (trimEnd r) in
      if branco t then EmptyString else t
  end.

(** [s.trim()] *)
Definition trim (s : string) : string := trimEnd (trimStart s).

(** The same on characters. [utf8s l] is the string whose characters are
    the code points [l]; [aparar l] is [l] without the white-space
    characters at its start and at its end. [trim_utf8s] below shows
    that [trim] does to the bytes what [aparar] does to the
    characters. *)
Fixpoint utf8s (l : list N) : string :=
  match l with
  | [] => EmptyString
  | cp :: r => (utf8 cp ++ utf8s r)%string
  end.

(** The code points are those of Unicode: below 0x110000. *)
Definition unicode (l : list N) : bool :=
  forallb (fun cp => (cp <? 0x110000)%N) l.

Fixpoint aparar_inicio (l : list N) : list N :=
  match l with
  | cp :: r => if espaco cp then aparar_inicio r else l
  | [] => []
  end.

Fixpoint aparar_fim (l : list N) : list N :=
  match l with
  | [] => []
  | cp :: r =>
      match aparar_fim r with
      | [] => if espaco cp then [] else [cp]
      | r' => cp :: r'
      end
  end.

Definition aparar (l : list N) : list N := aparar_fim (aparar_inicio l).

(** [s.includes(x)] on strings: [x] occurs in [s]. *)
Fixpoint str_includes (x s : string) : bool :=
  String.prefix x s ||
  match s with
  | EmptyString => false
  | String _ r => str_includes x r
  end.

(** A string is falsy exactly when it is empty. *)
Definition truthy (s : string) : bool :=
  match s with EmptyString => false | _ => true end.

(** Decimal rendering of a non-negative integer and of an integer, as a
    template literal renders them. *)
Definition dec (n : N) : string := NilEmpty.string_of_uint (N.to_uint n).
Definition decZ (z : Z) : string := NilEmpty.string_of_int (Z.to_int z).

(** [s] has no occurrence of [c]. *)
Fixpoint lacks (c : ascii) (s : string) : bool :=
  match s with
  | EmptyString => true
  | String a r => negb (Ascii.eqb a c) && lacks c r
  end.

End Js.

(* ================================================================== *)
(** ** classificacao.model.ts and the ChatMessage interface             *)
(* ================================================================== *)

Inductive CategoriaEmail := Produtivo | Improdutivo.
Inductive AIProvider := openai | gemini.

(** An optional field ([x?: T | null]) is an [option]: absent and null
    are both [None]. *)
Record ClassificacaoResultado := {
  categoria : CategoriaEmail;
  confianca : float;
  resposta_sugerida : string;
  assunto : option string;
  remetente : option string;
  destinatario : option string;
  modelo_usado : option string
}.

Record ProviderInfo := { available : bool; model : string }.

Record ProvidersResponse := {
  default : AIProvider;
  providers_openai : ProviderInfo;
  providers_gemini : ProviderInfo
}.

(** What the code reads of a browser [File]. *)
Module Arq.
Record File := { name : string; size : N }.
End Arq.
Abbreviation File := Arq.File.

Record Anexo := { nome : string; tamanho : N }.

Inductive Tipo := user | ai.

(** The [ChatMessage] interface of chat-message.component.ts. *)
Module Msg.
Record ChatMessage := {
  id : string;
  tipo : Tipo;
  conteudo : option string;
  arquivo : option Anexo;
  resultado : option ClassificacaoResultado;
  provider : option AIProvider;
  timestamp : Z;
  carregando : option bool;
  emailOriginal : option string
}.
End Msg.
Abbreviation ChatMessage := Msg.ChatMessage.

(* ================================================================== *)
(** ** ChatInputComponent                                               *)
(* ================================================================== *)

Module ChatInput.

(** The signals of the component. *)
Record State := {
  conteudoEmail : string;
  arquivoSelecionado : option File;
  menuProviderAberto : bool;
  erro : option string
}.

Definition inicial : State :=
  {| conteudoEmail := EmptyString; arquivoSelecionado := None;
     menuProviderAberto := false; erro := None |}.

(** The component's inputs, set by the parent. *)
Record Inputs := {
  in_providers : option ProvidersResponse;
  in_providerSelecionado : AIProvider;
  in_carregando : bool
}.

Definition set_conteudoEmail (v : string) (st : State) : State :=
  {| conteudoEmail := v; arquivoSelecionado := arquivoSelecionado st;
     menuProviderAberto := menuProviderAberto st; erro := erro st |}.

Definition set_arquivoSelecionado (v : option File) (st : State) : State :=
  {| conteudoEmail := conteudoEmail st; arquivoSelecionado := v;
     menuProviderAberto := menuProviderAberto st; erro := erro st |}.

Definition set_menuProviderAberto (v : bool) (st : State) : State :=
  {| conteudoEmail := conteudoEmail st;
     arquivoSelecionado := arquivoSelecionado st;
     menuProviderAberto := v; erro := erro st |}.

Definition set_erro (v : option string) (st : State) : State :=
  {| conteudoEmail := conteudoEmail st;
     arquivoSelecionado := arquivoSelecionado st;
     menuProviderAberto := menuProviderAberto st; erro := v |}.

Definition podeEnviar (i : Inputs) (st : State) : bool :=
  negb (in_carregando i) &&
  ((0 <? String.length (Js.trim (conteudoEmail st)))%nat
   || match arquivoSelecionado st with Some _ => true | None => false end).

Definition formatosSuportados : list string :=
  ["txt"; "pdf"; "eml"; "msg"; "mbox"]%string.

(** [arquivo.name.split('.').pop()?.toLowerCase()] *)
Definition extensao (arquivo : File) : option string :=
  Js.toLowerCase <$> Js.pop (Js.split "." (Arq.name arquivo)).

Definition msg_formato : string :=
  "Formato não suportado. Use arquivos .txt, .pdf, .eml, .msg ou .mbox".
Definition msg_tamanho : string :=
  "Arquivo muito grande. Tamanho máximo: 5MB".

(** [onArquivoSelecionado], given [input.files] as a list (empty when
    the property is null). Only the first file is looked at. The reset of
    the DOM input's value, which ends the method, is no state of the
    component. *)
Definition onArquivoSelecionado (files : list File) (st : State) : State :=
  match files with
  | arquivo :: _ =>
      let ext := extensao arquivo in
      if match ext with
         | None => true
         | Some e => negb (Js.truthy e) || negb (Js.includes formatosSuportados e)
         end
      then set_erro (Some msg_formato) st
      else if (5 * 1024 * 1024 <? Arq.size arquivo)%N
      then set_erro (Some msg_tamanho) st
      else set_erro None
             (set_conteudoEmail EmptyString
                (set_arquivoSelecionado (Some arquivo) st))
  | [] => st
  end.

Definition limparArquivo (st : State) : State :=
  set_arquivoSelecionado None st.

(** Modelled from the spec: the handler of text entry, which is in the
    template of the component (chat-input.component.html, not under src/;
    the class declares the [conteudoEmail] signal and has no method of its
    own for text entry). By the spec, staging text clears a staged file:
    the text is written to [conteudoEmail] and [arquivoSelecionado] is
    reset. *)
Definition digitar (v : string) (st : State) : State :=
  set_arquivoSelecionado None (set_conteudoEmail v st).

Definition toggleMenuProvider (st : State) : State :=
  set_menuProviderAberto (negb (menuProviderAberto st)) st.

Definition fecharMenu (st : State) : State :=
  set_menuProviderAberto false st.

(** What the component emits to its parent. *)
Inductive Emissao :=
| enviarTexto (conteudo : string) (p : AIProvider)
| enviarArquivo (arq : File) (p : AIProvider)
| providerChange (p : AIProvider).

Definition selecionarProvider (p : AIProvider) (st : State)
  : State * option Emissao :=
  (set_menuProviderAberto false st, Some (providerChange p)).

(** [enviar]: the new state and the one event emitted, if any.
    [onKeydown] calls it on Enter without Shift. *)
Definition enviar (i : Inputs) (st : State) : State * option Emissao :=
  if negb (podeEnviar i st) then (st, None)
  else
    let p := in_providerSelecionado i in
    match arquivoSelecionado st with
    | Some arq => (set_arquivoSelecionado None st, Some (enviarArquivo arq p))
    | None =>
        let c := Js.trim (conteudoEmail st) in
        (set_conteudoEmail EmptyString st, Some (enviarTexto c p))
    end.

End ChatInput.

(* ================================================================== *)
(** ** EmailClassifierChatComponent                                     *)
(* ================================================================== *)

(** What [handleErro] reads of the error of a failed HTTP call:
    [error.error?.detail]. The body of the response may be missing, and
    a body may lack the [detail] field; a detail, when there is one, is
    the text the service gives for display. *)
Record ErrorBody := { detail : option string }.
Record HttpErrorResponse := { error : option ErrorBody }.

(** The readings of the clock taken by one submission, in the order the
    source takes them: [Date.now()] in the first [gerarId], [new Date()]
    of the user message, and the same two for the loading message. *)
Record Relogio := {
  now_user : Z;
  date_user : Z;
  now_ai : Z;
  date_ai : Z
}.

(** A classify call in flight: the arguments of the service call and what
    the two callbacks of [subscribe] captured, the id of the loading
    message and the provider. *)
Inductive Corpo :=
| PorTexto (conteudo : string) (p : AIProvider)
| PorArquivo (arq : File) (p : AIProvider).

Record Pedido := {
  corpo : Corpo;
  alvo : string;
  prov : AIProvider
}.

Module Chat.

Record State := {
  mensagens : list ChatMessage;
  carregando : bool;
  providerSelecionado : AIProvider;
  providers : option ProvidersResponse;
  shouldScrollToBottom : bool;
  messageIdCounter : N
}.

Definition inicial : State :=
  {| mensagens := []; carregando := false; providerSelecionado := openai;
     providers := None; shouldScrollToBottom := false;
     messageIdCounter := 0%N |}.

Definition temMensagens (st : State) : bool :=
  (0 <? List.length (mensagens st))%nat.

Definition set_mensagens (v : list ChatMessage) (st : State) : State :=
  {| mensagens := v; carregando := carregando st;
     providerSelecionado := providerSelecionado st;
     providers := providers st;
     shouldScrollToBottom := shouldScrollToBottom st;
     messageIdCounter := messageIdCounter st |}.

Definition set_carregando (v : bool) (st : State) : State :=
  {| mensagens := mensagens st; carregando := v;
     providerSelecionado := providerSelecionado st;
     providers := providers st;
     shouldScrollToBottom := shouldScrollToBottom st;
     messageIdCounter := messageIdCounter st |}.

Definition set_providerSelecionado (v : AIProvider) (st : State) : State :=
  {| mensagens := mensagens st; carregando := carregando st;
     providerSelecionado := v; providers := providers st;
     shouldScrollToBottom := shouldScrollToBottom st;
     messageIdCounter := messageIdCounter st |}.

Definition set_providers (v : option ProvidersResponse) (st : State) : State :=
  {| mensagens := mensagens st; carregando := carregando st;
     providerSelecionado := providerSelecionado st; providers := v;
     shouldScrollToBottom := shouldScrollToBottom st;
     messageIdCounter := messageIdCounter st |}.

Definition set_shouldScrollToBottom (v : bool) (st : State) : State :=
  {| mensagens := mensagens st; carregando := carregando st;
     providerSelecionado := providerSelecionado st;
     providers := providers st; shouldScrollToBottom := v;
     messageIdCounter := messageIdCounter st |}.

Definition set_messageIdCounter (v : N) (st : State) : State :=
  {| mensagens := mensagens st; carregando := carregando st;
     providerSelecionado := providerSelecionado st;
     providers := providers st;
     shouldScrollToBottom := shouldScrollToBottom st;
     messageIdCounter := v |}.

(** [ngAfterViewChecked]: the scroll itself acts on the DOM only. *)
Definition ngAfterViewChecked (st : State) : State :=
  if shouldScrollToBottom st then set_shouldScrollToBottom false st else st.

(** The two callbacks of [carregarProviders]. *)
Definition carregarProviders_next (p : ProvidersResponse) (st : State) : State :=
  set_providerSelecionado (default p) (set_providers (Some p) st).

Definition carregarProviders_error (st : State) : State :=
  set_providerSelecionado openai st.

(** The text of an id: [`msg-${n}-${now}`]. *)
Definition id_texto (n : N) (now : Z) : string :=
  ("msg-" ++ Js.dec n ++ "-" ++ Js.decZ now)%string.

(** [gerarId]: [`msg-${++this.messageIdCounter}-${Date.now()}`]. The
    counter is incremented first, and the id is made of its new value. *)
Definition gerarId (now : Z) (st : State) : string * State :=
  let n := (messageIdCounter st + 1)%N in
  (id_texto n now, set_messageIdCounter n st).

Definition onProviderChange (p : AIProvider) (st : State) : State :=
  set_providerSelecionado p st.

(** [onEnviarTexto]: the new state and the call it issues. *)
Definition onEnviarTexto (conteudo : string) (p : AIProvider)
    (r : Relogio) (st : State) : State * Pedido :=
  let '(id_u, st) := gerarId (now_user r) st in
  let userMessage : ChatMessage :=
    {| Msg.id := id_u; Msg.tipo := user; Msg.conteudo := Some conteudo;
       Msg.arquivo := None; Msg.resultado := None; Msg.provider := None;
       Msg.timestamp := date_user r; Msg.carregando := None;
       Msg.emailOriginal := None |} in
  let '(id_a, st) := gerarId (now_ai r) st in
  let aiLoadingMessage : ChatMessage :=
    {| Msg.id := id_a; Msg.tipo := ai; Msg.conteudo := None;
       Msg.arquivo := None; Msg.resultado := None; Msg.provider := Some p;
       Msg.timestamp := date_ai r; Msg.carregando := Some true;
       Msg.emailOriginal := Some conteudo |} in
  let st := set_mensagens (mensagens st ++ [userMessage; aiLoadingMessage]) st in
  let st := set_carregando true st in
  let st := set_shouldScrollToBottom true st in
  (st, {| corpo := PorTexto conteudo p; alvo := Msg.id aiLoadingMessage;
          prov := p |}).

(** [onEnviarArquivo] *)
Definition onEnviarArquivo (arq : File) (p : AIProvider)
    (r : Relogio) (st : State) : State * Pedido :=
  let '(id_u, st) := gerarId (now_user r) st in
  let userMessage : ChatMessage :=
    {| Msg.id := id_u; Msg.tipo := user; Msg.conteudo := None;
       Msg.arquivo := Some {| nome := Arq.name arq; tamanho := Arq.size arq |};
       Msg.resultado := None; Msg.provider := None;
       Msg.timestamp := date_user r; Msg.carregando := None;
       Msg.emailOriginal := None |} in
  let '(id_a, st) := gerarId (now_ai r) st in
  let aiLoadingMessage : ChatMessage :=
    {| Msg.id := id_a; Msg.tipo := ai; Msg.conteudo := None;
       Msg.arquivo := None; Msg.resultado := None; Msg.provider := Some p;
       Msg.timestamp := date_ai r; Msg.carregando := Some true;
       Msg.emailOriginal := None |} in
  let st := set_mensagens (mensagens st ++ [userMessage; aiLoadingMessage]) st in
  let st := set_carregando true st in
  let st := set_shouldScrollToBottom true st in
  (st, {| corpo := PorArquivo arq p; alvo := Msg.id aiLoadingMessage;
          prov := p |}).

(** [{ ...msg, carregando: false, resultado, provider }] *)
Definition com_resultado (res : ClassificacaoResultado) (p : AIProvider)
    (msg : ChatMessage) : ChatMessage :=
  {| Msg.id := Msg.id msg; Msg.tipo := Msg.tipo msg;
     Msg.conteudo := Msg.conteudo msg; Msg.arquivo := Msg.arquivo msg;
     Msg.resultado := Some res; Msg.provider := Some p;
     Msg.timestamp := Msg.timestamp msg; Msg.carregando := Some false;
     Msg.emailOriginal := Msg.emailOriginal msg |}.

(** [handleSucesso]. The lines written to the console are no state of
    the component. *)
Definition handleSucesso (res : ClassificacaoResultado) (messageId : string)
    (p : AIProvider) (st : State) : State :=
  let st :=
    set_mensagens
      ((fun msg => if String.eqb (Msg.id msg) messageId
                   then com_resultado res p msg else msg)
         <$> mensagens st) st in
  let st := set_carregando false st in
  set_shouldScrollToBottom true st.

Definition erro_padrao : string :=
  "Erro ao classificar email. Tente novamente.".

(** [error.error?.detail || 'Erro ao classificar email. Tente novamente.'] *)
Definition mensagemErro (e : HttpErrorResponse) : string :=
  match error e ≫= detail with
  | Some d => if Js.truthy d then d else erro_padrao
  | None => erro_padrao
  end.

(** The outcome written for a failed call. *)
Definition resultado_erro (e : HttpErrorResponse) : ClassificacaoResultado :=
  {| categoria := Improdutivo; confianca := 0%float;
     resposta_sugerida := ("❌ Erro: " ++ mensagemErro e)%string;
     assunto := None; remetente := None; destinatario := None;
     modelo_usado := None |}.

(** [{ ...msg, carregando: false, resultado: {...} }] *)
Definition com_erro (e : HttpErrorResponse) (msg : ChatMessage) : ChatMessage :=
  {| Msg.id := Msg.id msg; Msg.tipo := Msg.tipo msg;
     Msg.conteudo := Msg.conteudo msg; Msg.arquivo := Msg.arquivo msg;
     Msg.resultado := Some (resultado_erro e);
     Msg.provider := Msg.provider msg;
     Msg.timestamp := Msg.timestamp msg; Msg.carregando := Some false;
     Msg.emailOriginal := Msg.emailOriginal msg |}.

(** [handleErro] *)
Definition handleErro (e : HttpErrorResponse) (messageId : string)
    (st : State) : State :=
  let st :=
    set_mensagens
      ((fun msg => if String.eqb (Msg.id msg) messageId
                   then com_erro e msg else msg)
         <$> mensagens st) st in
  set_carregando false st.

End Chat.

(* ================================================================== *)
(** ** The controller with its calls in flight                          *)
(* ================================================================== *)

(** The controller is driven by calls of its public methods and by the
    completion of the HTTP calls it issued. A call completes once, with a
    result or with an error, and then runs the callback registered by
    [subscribe]; calls complete in any order. The browser's storage is
    part of the environment. *)
Module Sessao.

Record Sys := {
  chat : Chat.State;
  emVoo : list Pedido;
  providersEmVoo : bool;
  localStorage : list (string * string)
}.

(** The component as constructed: the constructor issues the providers
    call. *)
Definition inicial (ls : list (string * string)) : Sys :=
  {| chat := Chat.inicial; emVoo := []; providersEmVoo := true;
     localStorage := ls |}.

Inductive Evento :=
| EnviarTexto (conteudo : string) (p : AIProvider) (r : Relogio)
| EnviarArquivo (arq : File) (p : AIProvider) (r : Relogio)
| Next (messageId : string) (res : ClassificacaoResultado)
| Falha (messageId : string) (e : HttpErrorResponse)
| ProviderChange (p : AIProvider)
| ProvidersNext (p : ProvidersResponse)
| ProvidersError
| AfterViewChecked.

(** The call in flight whose callbacks captured [messageId], taken out of
    the calls in flight. *)
Fixpoint retirar (messageId : string) (l : list Pedido)
  : option (Pedido * list Pedido) :=
  match l with
  | [] => None
  | q :: r =>
      if String.eqb (alvo q) messageId then Some (q, r)
      else match retirar messageId r with
           | Some (x, r') => Some (x, q :: r')
           | None => None
           end
  end.

Definition com_chat (c : Chat.State) (s : Sys) : Sys :=
  {| chat := c; emVoo := emVoo s; providersEmVoo := providersEmVoo s;
     localStorage := localStorage s |}.

Definition emitir (cp : Chat.State * Pedido) (s : Sys) : Sys :=
  {| chat := fst cp; emVoo := emVoo s ++ [snd cp];
     providersEmVoo := providersEmVoo s; localStorage := localStorage s |}.

Definition concluir (c : Chat.State) (resto : list Pedido) (s : Sys) : Sys :=
  {| chat := c; emVoo := resto; providersEmVoo := providersEmVoo s;
     localStorage := localStorage s |}.

(** One event. [None]: the event cannot happen in this state (a completion
    of a call that is not in flight). *)
Definition passo (ev : Evento) (s : Sys) : option Sys :=
  match ev with
  | EnviarTexto c p r => Some (emitir (Chat.onEnviarTexto c p r (chat s)) s)
  | EnviarArquivo a p r => Some (emitir (Chat.onEnviarArquivo a p r (chat s)) s)
  | Next messageId res =>
      '(q, resto) ← retirar messageId (emVoo s);
      Some (concluir (Chat.handleSucesso res (alvo q) (prov q) (chat s)) resto s)
  | Falha messageId e =>
      '(q, resto) ← retirar messageId (emVoo s);
      Some (concluir (Chat.handleErro e (alvo q) (chat s)) resto s)
  | ProviderChange p => Some (com_chat (Chat.onProviderChange p (chat s)) s)
  | ProvidersNext p =>
      if providersEmVoo s
      then Some {| chat := Chat.carregarProviders_next p (chat s);
                   emVoo := emVoo s; providersEmVoo := false;
                   localStorage := localStorage s |}
      else None
  | ProvidersError =>
      if providersEmVoo s
      then Some {| chat := Chat.carregarProviders_error (chat s);
                   emVoo := emVoo s; providersEmVoo := false;
                   localStorage := localStorage s |}
      else None
  | AfterViewChecked => Some (com_chat (Chat.ngAfterViewChecked (chat s)) s)
  end.

Fixpoint executar (evs : list Evento) (s : Sys) : option Sys :=
  match evs with
  | [] => Some s
  | ev :: r => passo ev s ≫= executar r
  end.

(** The log of the session. *)
Definition log (s : Sys) : list ChatMessage := Chat.mensagens (chat s).

(** An entry awaits its outcome. *)
Definition pendente (m : ChatMessage) : bool :=
  match Msg.carregando m with Some true => true | _ => false end.

(** An entry has been resolved: its [carregando] flag was reset. *)
Definition resolvida (m : ChatMessage) : bool :=
  match Msg.carregando m with Some false => true | _ => false end.

End Sessao.

(* ================================================================== *)
(** ** The validator, as the specification words it                     *)
(* ================================================================== *)

Module Spec.

(** The substring after the last occurrence of [c]; the whole string when
    [c] does not occur. *)
Fixpoint after_last (c : ascii) (s : string) : string :=
  match s with
  | EmptyString => EmptyString
  | String a r =>
      if Js.lacks c r
      then (if Ascii.eqb a c then r else String a r)
      else after_last c r
  end.

Definition extension (f : File) : string := after_last "." (Arq.name f).

Definition same_ignoring_case (a b : string) : bool :=
  String.eqb (Js.toLowerCase a) (Js.toLowerCase b).

Definition allowlist : list string := ["txt"; "pdf"; "eml"; "msg"; "mbox"]%string.

Definition max_bytes : N := 5242880.

Inductive Verdict := Accepted | BadExtension | TooLarge.

Definition validate (f : File) : Verdict :=
  if negb (existsb (same_ignoring_case (extension f)) allowlist) then BadExtension
  else if (max_bytes <? Arq.size f)%N then TooLarge
  else Accepted.

End Spec.

(** The state of the chat input after a file was accepted. *)
Definition aceito (arquivo : File) (st : ChatInput.State) : ChatInput.State :=
  {| ChatInput.conteudoEmail := EmptyString;
     ChatInput.arquivoSelecionado := Some arquivo;
     ChatInput.menuProviderAberto := ChatInput.menuProviderAberto st;
     ChatInput.erro := None |}.

(** The state of the chat input after a file was rejected: only the
    message changes. *)
Definition rejeitado (motivo : string) (st : ChatInput.State) : ChatInput.State :=
  ChatInput.set_erro (Some motivo) st.

Definition MiB : N := 1048576.

(** The files of the scenarios. *)
Definition virus_exe : File := {| Arq.name := "virus.exe"; Arq.size := 2048 |}.
Definition grande_txt : File := {| Arq.name := "caixa.txt"; Arq.size := 6 * MiB |}.
Definition quatro_pdf : File := {| Arq.name := "contrato.pdf"; Arq.size := 4 * MiB |}.
Definition cem_eml : File := {| Arq.name := "pedido.eml"; Arq.size := 100 |}.
Definition maiusculo_txt : File := {| Arq.name := "TXT"; Arq.size := 100 |}.
Definition sem_ponto_pdf : File := {| Arq.name := "PDF"; Arq.size := 4 * MiB |}.

(** The operations on the chat input alone, whatever its inputs are. *)
Inductive Operacao :=
| OpDigitar (v : string)
| OpArquivo (files : list File)
| OpLimparArquivo
| OpToggleMenu
| OpFecharMenu
| OpSelecionarProvider (p : AIProvider)
| OpEnviar (i : ChatInput.Inputs).

Definition operar (op : Operacao) (st : ChatInput.State) : ChatInput.State :=
  match op with
  | OpDigitar v => ChatInput.digitar v st
  | OpArquivo fs => ChatInput.onArquivoSelecionado fs st
  | OpLimparArquivo => ChatInput.limparArquivo st
  | OpToggleMenu => ChatInput.toggleMenuProvider st
  | OpFecharMenu => ChatInput.fecharMenu st
  | OpSelecionarProvider p => fst (ChatInput.selecionarProvider p st)
  | OpEnviar i => fst (ChatInput.enviar i st)
  end.

Definition operar_todas (ops : list Operacao) (st : ChatInput.State)
  : ChatInput.State :=
  fold_left (fun s op => operar op s) ops st.

(** Not both a text and a file are staged. *)
Definition exclusivos (st : ChatInput.State) : Prop :=
  ChatInput.conteudoEmail st = EmptyString \/ ChatInput.arquivoSelecionado st = None.

(* ================================================================== *)
(** ** Predicates on sessions                                           *)
(* ================================================================== *)

(** [messageId] is the id of an entry of the log. *)
Definition presente (messageId : string) (l : list ChatMessage) : bool :=
  existsb (fun m => String.eqb (Msg.id m) messageId) l.

(** The event is a submission. *)
Definition submissao (ev : Sessao.Evento) : bool :=
  match ev with
  | Sessao.EnviarTexto _ _ _ | Sessao.EnviarArquivo _ _ _ => true
  | _ => false
  end.

Definition submissoes (evs : list Sessao.Evento) : nat :=
  List.length (List.filter submissao evs).

(** The results delivered by the events. *)
Fixpoint respostas (evs : list Sessao.Evento) : list ClassificacaoResultado :=
  match evs with
  | [] => []
  | Sessao.Next _ res :: r => res :: respostas r
  | _ :: r => respostas r
  end.

(** A confidence within [0,1]. *)
Definition em_intervalo (x : float) : bool :=
  ((0 <=? x) && (x <=? 1))%float.

(** What a submission does, by text or by file: from [st], with the clock
    readings [r] and the provider [p], it gives [st'] and the call [q],
    having appended the user message [u] and the loading message [a]. *)
Definition Submetida (st : Chat.State) (r : Relogio) (p : AIProvider)
    (st' : Chat.State) (q : Pedido) (u a : ChatMessage) : Prop :=
  Chat.mensagens st' = Chat.mensagens st ++ [u; a] /\
  Chat.messageIdCounter st' = (Chat.messageIdCounter st + 1 + 1)%N /\
  Chat.carregando st' = true /\
  Msg.id u = Chat.id_texto (Chat.messageIdCounter st + 1) (now_user r) /\
  Msg.id a = Chat.id_texto (Chat.messageIdCounter st + 1 + 1) (now_ai r) /\
  (Msg.tipo u, Msg.carregando u, Msg.resultado u) = (user, None, None) /\
  (Msg.tipo a, Msg.carregando a, Msg.resultado a, Msg.provider a)
    = (ai, Some true, None, Some p) /\
  alvo q = Msg.id a /\ prov q = p.

(** What the completion of the call [q] does, by success or by error:
    the entries whose id is the target of [q] are rewritten with [f], the
    call leaves the calls in flight, and the controller is not busy. *)
Definition Concluida (s : Sessao.Sys) (q : Pedido) (resto : list Pedido)
    (f : ChatMessage -> ChatMessage) (s' : Sessao.Sys) : Prop :=
  Sessao.log s' =
    (fun msg => if String.eqb (Msg.id msg) (alvo q) then f msg else msg)
      <$> Sessao.log s /\
  Sessao.emVoo s' = resto /\
  Chat.messageIdCounter (Sessao.chat s')
    = Chat.messageIdCounter (Sessao.chat s) /\
  Chat.carregando (Sessao.chat s') = false /\
  ((exists res, f = Chat.com_resultado res (prov q)) \/
   (exists e, f = Chat.com_erro e)).

(** An event that leaves the log, the counter, the calls in flight and
    the busy flag as they are. *)
Definition Inalterada (s s' : Sessao.Sys) : Prop :=
  Sessao.log s' = Sessao.log s /\
  Sessao.emVoo s' = Sessao.emVoo s /\
  Chat.messageIdCounter (Sessao.chat s')
    = Chat.messageIdCounter (Sessao.chat s) /\
  Chat.carregando (Sessao.chat s') = Chat.carregando (Sessao.chat s).

(** The ids of the log are distinct and were made by [gerarId] from
    values of the counter already used; every call in flight targets a
    pending entry of the log; no two calls in flight target the same
    entry. *)
Definition Inv (s : Sessao.Sys) : Prop :=
  NoDup (Msg.id <$> Sessao.log s) /\
  (forall m, m ∈ Sessao.log s ->
     exists k t, Msg.id m = Chat.id_texto k t /\
                 (k <= Chat.messageIdCounter (Sessao.chat s))%N) /\
  (forall q, q ∈ Sessao.emVoo s ->
     exists i m, Sessao.log s !! i = Some m /\ Msg.id m = alvo q /\
                 Sessao.pendente m = true /\ Msg.tipo m = ai) /\
  NoDup (alvo <$> Sessao.emVoo s).

(** Every resolved entry has an outcome, which is an outcome delivered by
    the service and satisfying [Q], or the outcome written for an error. *)
Definition Resolvidas (Q : ClassificacaoResultado -> Prop)
    (l : list ChatMessage) : Prop :=
  forall m, m ∈ l -> Sessao.resolvida m = true ->
    exists r, Msg.resultado m = Some r /\
              (Q r \/ exists e, r = Chat.resultado_erro e).

(** At most one call is in flight, every pending entry is the target of a
    call in flight, and the controller is busy while a call is in flight. *)
Definition Ocupado (s : Sessao.Sys) : Prop :=
  (List.length (Sessao.emVoo s) <= 1)%nat /\
  (forall m, m ∈ Sessao.log s -> Sessao.pendente m = true ->
     exists q, q ∈ Sessao.emVoo s /\ alvo q = Msg.id m) /\
  (Sessao.emVoo s <> [] -> Chat.carregando (Sessao.chat s) = true).

(** Every submission among the events starts while the controller is
    not busy: when [onEnviarTexto] or [onEnviarArquivo] is called, the
    [carregando] signal is false. *)
Fixpoint uma_de_cada_vez (evs : list Sessao.Evento) (s : Sessao.Sys) : bool :=
  match evs with
  | [] => true
  | ev :: r =>
      (negb (submissao ev) || negb (Chat.carregando (Sessao.chat s))) &&
      match Sessao.passo ev s with
      | Some s' => uma_de_cada_vez r s'
      | None => true
      end
  end.

(* ================================================================== *)
(** ** Scenarios                                                        *)
(* ================================================================== *)

Definition relogio1 : Relogio :=
  {| now_user := 1700000000000; date_user := 1700000000000;
     now_ai := 1700000000001; date_ai := 1700000000001 |}.

Definition relogio2 : Relogio :=
  {| now_user := 1700000005000; date_user := 1700000005000;
     now_ai := 1700000005000; date_ai := 1700000005001 |}.

Definition sem_opcionais (c : CategoriaEmail) (x : float) (r : string)
  : ClassificacaoResultado :=
  {| categoria := c; confianca := x; resposta_sugerida := r;
     assunto := None; remetente := None; destinatario := None;
     modelo_usado := None |}.

(** The confidence is the binary64 number nearest to 0.95. *)
Definition resultado_095 : ClassificacaoResultado :=
  sem_opcionais Produtivo 0x1.e666666666666p-1%float "Vamos verificar o pedido.".

Definition resultado_fora : ClassificacaoResultado :=
  sem_opcionais Produtivo 1.5%float "Vamos verificar o pedido.".

Definition rate_limited : HttpErrorResponse :=
  {| error := Some {| detail := Some "rate limited"%string |} |}.

Definition sem_corpo : HttpErrorResponse := {| error := None |}.

Definition id1 : string := "msg-2-1700000000001".
Definition id2 : string := "msg-4-1700000005000".

Definition pedido_123 : string := "Preciso de ajuda com pedido #123".

Definition ev_texto1 : Sessao.Evento :=
  Sessao.EnviarTexto pedido_123 openai relogio1.

Definition ev_texto2 : Sessao.Evento :=
  Sessao.EnviarTexto "Feliz Natal a todos" gemini relogio2.

Definition ev_arquivo2 : Sessao.Evento :=
  Sessao.EnviarArquivo cem_eml gemini relogio2.

(** The call issued by [ev_texto1] in a new session. *)
Definition pedido1 : Pedido :=
  {| corpo := PorTexto pedido_123 openai; alvo := id1; prov := openai |}.

(** The loading message of [ev_texto1] in a new session. *)
Definition carregando1 : ChatMessage :=
  {| Msg.id := id1; Msg.tipo := ai; Msg.conteudo := None;
     Msg.arquivo := None; Msg.resultado := None;
     Msg.provider := Some openai; Msg.timestamp := 1700000000001;
     Msg.carregando := Some true; Msg.emailOriginal := Some pedido_123 |}.

(** The controller after [ev_texto1] in a new session. *)
Definition estado1 : Chat.State :=
  fst (Chat.onEnviarTexto pedido_123 openai relogio1 Chat.inicial).

(** The session after [ev_texto1], its answer, and [ev_arquivo2]. *)
Definition sessao3 : Sessao.Sys :=
  Sessao.emitir
    (Chat.onEnviarArquivo cem_eml gemini relogio2
       (Chat.handleSucesso resultado_095 id1 openai estado1))
    (Sessao.inicial []).

(** The loading message of [ev_arquivo2] in that session. *)
Definition carregando3 : ChatMessage :=
  {| Msg.id := id2; Msg.tipo := ai; Msg.conteudo := None;
     Msg.arquivo := None; Msg.resultado := None;
     Msg.provider := Some gemini; Msg.timestamp := 1700000005001;
     Msg.carregando := Some true; Msg.emailOriginal := None |}.

(* ================================================================== *)
(** ** More of the session: the shape of the log                        *)
(* ================================================================== *)

(** An entry as [onEnviarTexto] and [onEnviarArquivo] make the user
    message: a text or an attachment, and nothing else. *)
Definition entrada_user (m : ChatMessage) : Prop :=
  Msg.tipo m = user /\ Msg.resultado m = None /\ Msg.provider m = None /\
  Msg.carregando m = None /\ Msg.emailOriginal m = None /\
  ((exists c, Msg.conteudo m = Some c /\ Msg.arquivo m = None) \/
   (exists a, Msg.conteudo m = None /\ Msg.arquivo m = Some a)).

(** An entry of the assistant: it has a provider, and it is pending
    without an outcome or resolved with one. *)
Definition entrada_ai (m : ChatMessage) : Prop :=
  Msg.tipo m = ai /\ Msg.conteudo m = None /\ Msg.arquivo m = None /\
  (exists p, Msg.provider m = Some p) /\
  ((Msg.carregando m = Some true /\ Msg.resultado m = None) \/
   (Msg.carregando m = Some false /\ exists r, Msg.resultado m = Some r)).

(** The two entries of one submission made with the provider [p]. *)
Definition Par (p : AIProvider) (u a : ChatMessage) : Prop :=
  entrada_user u /\ entrada_ai a /\ Msg.provider a = Some p /\
  Msg.emailOriginal a = Msg.conteudo u.

(** The counter is the length of the log, the log is a sequence of pairs,
    and the entry at position [i] carries the counter value [i + 1] in
    its id. *)
Definition Forma (s : Sessao.Sys) : Prop :=
  Chat.messageIdCounter (Sessao.chat s) = N.of_nat (List.length (Sessao.log s)) /\
  Nat.even (List.length (Sessao.log s)) = true /\
  (forall i m, Sessao.log s !! i = Some m ->
     (exists t, Msg.id m = Chat.id_texto (N.of_nat (S i)) t) /\
     (if Nat.even i then entrada_user m else entrada_ai m)) /\
  (forall k u a, Sessao.log s !! (2 * k)%nat = Some u ->
     Sessao.log s !! (2 * k + 1)%nat = Some a ->
     Msg.emailOriginal a = Msg.conteudo u).

(** The entry a call in flight targets has the provider of the call. *)
Definition Prov (s : Sessao.Sys) : Prop :=
  forall q m, q ∈ Sessao.emVoo s -> m ∈ Sessao.log s ->
    Msg.id m = alvo q -> Msg.provider m = Some (prov q).

(** The targets of the calls in flight are the ids of the pending
    entries, in the order of the log. *)
Definition EmVooPendentes (s : Sessao.Sys) : Prop :=
  alvo <$> Sessao.emVoo s
  = Msg.id <$> List.filter Sessao.pendente (Sessao.log s).

(** What a later state of the log keeps of an entry: everything but the
    [carregando] flag and the outcome, and these too once the entry is
    resolved. *)
Definition Mantem (m m' : ChatMessage) : Prop :=
  (Msg.id m', Msg.tipo m', Msg.conteudo m', Msg.arquivo m', Msg.provider m',
   Msg.timestamp m', Msg.emailOriginal m')
  = (Msg.id m, Msg.tipo m, Msg.conteudo m, Msg.arquivo m, Msg.provider m,
     Msg.timestamp m, Msg.emailOriginal m) /\
  (Sessao.pendente m = false -> m' = m).

(** The provider selected after the events, from the one selected
    before: the last [onProviderChange] or completion of the providers
    call decides. *)
Definition selecao (evs : list Sessao.Evento) (p0 : AIProvider) : AIProvider :=
  fold_left
    (fun p ev =>
       match ev with
       | Sessao.ProviderChange x => x
       | Sessao.ProvidersNext r => default r
       | Sessao.ProvidersError => openai
       | _ => p
       end) evs p0.

(** The completions of the providers call among the events. *)
Definition conclusoes_providers (evs : list Sessao.Evento) : nat :=
  List.length
    (List.filter
       (fun ev => match ev with
                  | Sessao.ProvidersNext _ | Sessao.ProvidersError => true
                  | _ => false
                  end) evs).

Definition providers_resp : ProvidersResponse :=
  {| default := openai;
     providers_openai := {| available := true; model := "gpt-4o-mini" |};
     providers_gemini := {| available := true; model := "gemini-2.5-flash" |} |}.

(* ================================================================== *)
(** ** White space in UTF-8                                             *)
(* ================================================================== *)

(** The string begins with a white-space character. *)
Definition comeca (s : string) : bool :=
  match s with
  | String a r1 =>
      Js.branco (String a EmptyString) ||
      match r1 with
      | String b r2 =>
          Js.branco (String a (String b EmptyString)) ||
          match r2 with
          | String c _ => Js.branco (String a (String b (String c EmptyString)))
          | EmptyString => false
          end
      | EmptyString => false
      end
  | EmptyString => false
  end.

(** [c] is the first byte of a white-space character. *)
Definition cabeca (c : ascii) : bool :=
  existsb (fun w => match w with
                    | String a _ => Ascii.eqb a c
                    | EmptyString => false
                    end) Js.espacos_utf8.

(** No byte of [t] is the first byte of a white-space character. *)
Fixpoint sem_cabeca (t : string) : bool :=
  match t with
  | EmptyString => true
  | String c r => negb (cabeca c) && sem_cabeca r
  end.

(** What trimming needs of the bytes of the character [cp]: they are a
    white-space character exactly when [cp] is white space; a white-space
    character that begins as they do, or that they begin as, is they;
    and after the first byte come at most three, none of which begins a
    white-space character. *)
Definition confere (cp : N) : bool :=
  let e := Js.utf8 cp in
  Bool.eqb (Js.branco e) (Js.espaco cp) &&
  forallb (fun w => implb (String.prefix w e || String.prefix e w)
                      (String.eqb w e)) Js.espacos_utf8 &&
  match e with
  | String _ t => sem_cabeca t && (String.length t <=? 3)%nat
  | EmptyString => false
  end.

(** [f] holds of the [p] numbers from [c] on. *)
Fixpoint em_todos (p : positive) (c : N) (f : N -> bool) : bool :=
  match p with
  | xH => f c
  | xO q => em_todos q c f && em_todos q (c + Npos q) f
  | xI q => f c && em_todos q (N.succ c) f && em_todos q (N.succ c + Npos q) f
  end.

(* ================================================================== *)
(** ** More of the chat input                                           *)
(* ================================================================== *)

(** [onKeydown], given [event.key] and [event.shiftKey]: Enter without
    Shift sends ([preventDefault] acts on the event only). *)
Definition onKeydown (key : string) (shiftKey : bool)
    (i : ChatInput.Inputs) (st : ChatInput.State)
  : ChatInput.State * option ChatInput.Emissao :=
  if String.eqb key "Enter" && negb shiftKey then ChatInput.enviar i st
  else (st, None).

(** [onDocumentClick], given [isBrowser] and whether the target of the
    click is inside the provider selector ([target.closest] finds it). *)
Definition onDocumentClick (isBrowser dentro : bool) (st : ChatInput.State)
  : ChatInput.State :=
  if negb isBrowser then st
  else if negb dentro && ChatInput.menuProviderAberto st
       then ChatInput.fecharMenu st else st.

(** What can be done to the chat input: a write of the [conteudoEmail]
    signal, and the methods of the class. *)
Inductive Acao :=
| AEscrever (v : string)
| AArquivo (files : list File)
| ALimparArquivo
| AToggleMenu
| AFecharMenu
| ASelecionarProvider (p : AIProvider)
| ADocumentClick (isBrowser dentro : bool)
| AKeydown (key : string) (shiftKey : bool) (i : ChatInput.Inputs)
| AEnviar (i : ChatInput.Inputs).

Definition agir (a : Acao) (st : ChatInput.State)
  : ChatInput.State * option ChatInput.Emissao :=
  match a with
  | AEscrever v => (ChatInput.set_conteudoEmail v st, None)
  | AArquivo fs => (ChatInput.onArquivoSelecionado fs st, None)
  | ALimparArquivo => (ChatInput.limparArquivo st, None)
  | AToggleMenu => (ChatInput.toggleMenuProvider st, None)
  | AFecharMenu => (ChatInput.fecharMenu st, None)
  | ASelecionarProvider p => ChatInput.selecionarProvider p st
  | ADocumentClick b d => (onDocumentClick b d st, None)
  | AKeydown k sh i => onKeydown k sh i st
  | AEnviar i => ChatInput.enviar i st
  end.

(** The state after the actions, and what they emitted, in order. *)
Fixpoint agir_todas (l : list Acao) (st : ChatInput.State)
  : ChatInput.State * list ChatInput.Emissao :=
  match l with
  | [] => (st, [])
  | a :: r =>
      let '(st1, em) := agir a st in
      let '(st2, ems) := agir_todas r st1 in
      (st2, match em with Some e => e :: ems | None => ems end)
  end.

(** The emission is a payload that is fit to be sent: a text that is not
    empty and has no white space at its ends, or a file that passes the
    validation. *)
Definition emissao_valida (e : ChatInput.Emissao) : Prop :=
  match e with
  | ChatInput.enviarTexto c _ =>
      c <> EmptyString /\ Js.trimStart c = c /\ Js.trimEnd c = c
  | ChatInput.enviarArquivo a _ => Spec.validate a = Spec.Accepted
  | ChatInput.providerChange _ => True
  end.

(** The staged file, if any, passes the validation. *)
Definition arquivo_valido (st : ChatInput.State) : Prop :=
  forall a, ChatInput.arquivoSelecionado st = Some a ->
    Spec.validate a = Spec.Accepted.

(** Two bytes are the same ASCII letter in either case, or the same
    byte. *)
Definition mesma_letra (a b : ascii) : bool :=
  let x := nat_of_ascii a in
  let y := nat_of_ascii b in
  (x =? y)%nat
  || ((65 <=? x)%nat && (x <=? 90)%nat && (y =? x + 32)%nat)
  || ((65 <=? y)%nat && (y <=? 90)%nat && (x =? y + 32)%nat).

(** Two names that differ in the case of ASCII letters at most. *)
Fixpoint mesmo_nome (s t : string) : bool :=
  match s, t with
  | EmptyString, EmptyString => true
  | String a s', String b t' => mesma_letra a b && mesmo_nome s' t'
  | _, _ => false
  end.

(* ================================================================== *)
(** ** EmailUploadComponent                                             *)
(* ================================================================== *)

Module Upload.

(** The signals of the component. *)
Record State := {
  conteudoEmail : string;
  arquivoSelecionado : option File;
  carregando : bool;
  resultado : option ClassificacaoResultado;
  erro : option string;
  providerSelecionado : AIProvider;
  providers : option ProvidersResponse
}.

Definition inicial : State :=
  {| conteudoEmail := EmptyString; arquivoSelecionado := None;
     carregando := false; resultado := None; erro := None;
     providerSelecionado := openai; providers := None |}.

Definition set_conteudoEmail (v : string) (st : State) : State :=
  {| conteudoEmail := v; arquivoSelecionado := arquivoSelecionado st;
     carregando := carregando st; resultado := resultado st; erro := erro st;
     providerSelecionado := providerSelecionado st; providers := providers st |}.

Definition set_arquivoSelecionado (v : option File) (st : State) : State :=
  {| conteudoEmail := conteudoEmail st; arquivoSelecionado := v;
     carregando := carregando st; resultado := resultado st; erro := erro st;
     providerSelecionado := providerSelecionado st; providers := providers st |}.

Definition set_carregando (v : bool) (st : State) : State :=
  {| conteudoEmail := conteudoEmail st;
     arquivoSelecionado := arquivoSelecionado st;
     carregando := v; resultado := resultado st; erro := erro st;
     providerSelecionado := providerSelecionado st; providers := providers st |}.

Definition set_resultado (v : option ClassificacaoResultado) (st : State) : State :=
  {| conteudoEmail := conteudoEmail st;
     arquivoSelecionado := arquivoSelecionado st;
     carregando := carregando st; resultado := v; erro := erro st;
     providerSelecionado := providerSelecionado st; providers := providers st |}.

Definition set_erro (v : option string) (st : State) : State :=
  {| conteudoEmail := conteudoEmail st;
     arquivoSelecionado := arquivoSelecionado st;
     carregando := carregando st; resultado := resultado st; erro := v;
     providerSelecionado := providerSelecionado st; providers := providers st |}.

Definition set_providerSelecionado (v : AIProvider) (st : State) : State :=
  {| conteudoEmail := conteudoEmail st;
     arquivoSelecionado := arquivoSelecionado st;
     carregando := carregando st; resultado := resultado st; erro := erro st;
     providerSelecionado := v; providers := providers st |}.

Definition set_providers (v : option ProvidersResponse) (st : State) : State :=
  {| conteudoEmail := conteudoEmail st;
     arquivoSelecionado := arquivoSelecionado st;
     carregando := carregando st; resultado := resultado st; erro := erro st;
     providerSelecionado := providerSelecionado st; providers := v |}.

Definition podeEnviar (st : State) : bool :=
  negb (carregando st) &&
  ((0 <? String.length (Js.trim (conteudoEmail st)))%nat
   || match arquivoSelecionado st with Some _ => true | None => false end).

Definition modoUpload (st : State) : bool :=
  match arquivoSelecionado st with Some _ => true | None => false end.

Definition carregarProviders_next (p : ProvidersResponse) (st : State) : State :=
  set_providerSelecionado (default p) (set_providers (Some p) st).

Definition carregarProviders_error (st : State) : State :=
  set_providerSelecionado openai st.

Definition msg_formato : string :=
  "Formato não suportado. Use arquivos .txt ou .pdf".
Definition msg_tamanho : string :=
  "Arquivo muito grande. Tamanho máximo: 5MB".

(** [arquivo.name.split('.').pop()?.toLowerCase()] *)
Definition extensao (arquivo : File) : option string :=
  Js.toLowerCase <$> Js.pop (Js.split "." (Arq.name arquivo)).

(** [onArquivoSelecionado], given [input.files] as a list. *)
Definition onArquivoSelecionado (files : list File) (st : State) : State :=
  match files with
  | arquivo :: _ =>
      if match extensao arquivo with
         | Some e => negb (String.eqb e "txt") && negb (String.eqb e "pdf")
         | None => true
         end
      then set_erro (Some msg_formato) st
      else if (5 * 1024 * 1024 <? Arq.size arquivo)%N
      then set_erro (Some msg_tamanho) st
      else set_erro None
             (set_conteudoEmail EmptyString
                (set_arquivoSelecionado (Some arquivo) st))
  | [] => st
  end.

Definition limparArquivo (st : State) : State :=
  set_arquivoSelecionado None st.

Definition limparResultado (st : State) : State :=
  set_erro None (set_resultado None st).

Definition onProviderChange (p : AIProvider) (st : State) : State :=
  set_providerSelecionado p st.

(** [enviar]: the new state and the call it issues. The method has no
    guard of its own. *)
Definition enviar (st : State) : State * Corpo :=
  let st1 := set_resultado None (set_erro None (set_carregando true st)) in
  let p := providerSelecionado st1 in
  match arquivoSelecionado st1 with
  | Some arq => (st1, PorArquivo arq p)
  | None => (st1, PorTexto (conteudoEmail st1) p)
  end.

Definition handleSucesso (res : ClassificacaoResultado) (st : State) : State :=
  set_carregando false (set_resultado (Some res) st).

(** [error.error?.detail || 'Erro ao classificar email. Tente novamente.'] *)
Definition mensagem (e : HttpErrorResponse) : string :=
  match error e ≫= detail with
  | Some d => if Js.truthy d then d else "Erro ao classificar email. Tente novamente."%string
  | None => "Erro ao classificar email. Tente novamente."%string
  end.

Definition handleErro (e : HttpErrorResponse) (st : State) : State :=
  set_carregando false (set_erro (Some (mensagem e)) st).

(** The component with its calls in flight. The callbacks of a call
    capture nothing of it, so the calls in flight are told by their
    bodies only, and any of them may complete. *)
Record Sys := { st : State; emVoo : list Corpo; providersEmVoo : bool }.

(** The component as constructed: the constructor issues the providers
    call. *)
Definition sys_inicial : Sys :=
  {| st := inicial; emVoo := []; providersEmVoo := true |}.

Inductive Evento :=
| Escrever (v : string)
| Arquivo (files : list File)
| LimparArquivo
| LimparResultado
| ProviderChange (p : AIProvider)
| ProvidersNext (p : ProvidersResponse)
| ProvidersError
| Enviar
| Next (k : nat) (res : ClassificacaoResultado)
| Falha (k : nat) (e : HttpErrorResponse).

(** One event. [None]: a completion of a call that is not in flight.
    [Escrever] is a write of the [conteudoEmail] signal; [Next] and
    [Falha] complete the call at position [k] of the calls in flight. *)
Definition passo (ev : Evento) (s : Sys) : option Sys :=
  let so c := Some {| st := c; emVoo := emVoo s;
                      providersEmVoo := providersEmVoo s |} in
  match ev with
  | Escrever v => so (set_conteudoEmail v (st s))
  | Arquivo fs => so (onArquivoSelecionado fs (st s))
  | LimparArquivo => so (limparArquivo (st s))
  | LimparResultado => so (limparResultado (st s))
  | ProviderChange p => so (onProviderChange p (st s))
  | ProvidersNext p =>
      if providersEmVoo s
      then Some {| st := carregarProviders_next p (st s); emVoo := emVoo s;
                   providersEmVoo := false |}
      else None
  | ProvidersError =>
      if providersEmVoo s
      then Some {| st := carregarProviders_error (st s); emVoo := emVoo s;
                   providersEmVoo := false |}
      else None
  | Enviar =>
      let '(c, q) := enviar (st s) in
      Some {| st := c; emVoo := emVoo s ++ [q];
              providersEmVoo := providersEmVoo s |}
  | Next k res =>
      match emVoo s !! k with
      | Some _ => Some {| st := handleSucesso res (st s);
                          emVoo := delete k (emVoo s);
                          providersEmVoo := providersEmVoo s |}
      | None => None
      end
  | Falha k e =>
      match emVoo s !! k with
      | Some _ => Some {| st := handleErro e (st s);
                          emVoo := delete k (emVoo s);
                          providersEmVoo := providersEmVoo s |}
      | None => None
      end
  end.

Fixpoint executar (evs : list Evento) (s : Sys) : option Sys :=
  match evs with
  | [] => Some s
  | ev :: r => passo ev s ≫= executar r
  end.

End Upload.

(* ================================================================== *)
(** ** ChatMessageComponent                                             *)
(* ================================================================== *)

Module Mensagem.

Definition nomeFuncionario : string := "Ana Carolina Santos".

Definition nl : string := String (ascii_of_nat 10) EmptyString.

(** What follows the reply in the text of the email: the lines of the
    template literal of [gerarTextoEmail] after its first. *)
Definition assinatura : string :=
  (nl ++ nl ++ "Atenciosamente," ++ nl ++ nl ++ nomeFuncionario ++ nl
   ++ "Equipe de Soluções de IA para Comunicação - Autou")%string.

(** [gerarTextoEmail] *)
Definition gerarTextoEmail (m : ChatMessage) : string :=
  match resposta_sugerida <$> Msg.resultado m with
  | Some resposta =>
      if Js.truthy resposta then (resposta ++ assinatura)%string
      else EmptyString
  | None => EmptyString
  end.

(** What [copiar] asks the clipboard to write: nothing when the text of
    the email is empty. *)
Definition copiar (m : ChatMessage) : option string :=
  let resposta := gerarTextoEmail m in
  if Js.truthy resposta then Some resposta else None.

(** [categoriaClasse]: [resultado?.categoria.toLowerCase() ?? ''] *)
Definition categoriaClasse (m : ChatMessage) : string :=
  match categoria <$> Msg.resultado m with
  | Some Produtivo => "produtivo"
  | Some Improdutivo => "improdutivo"
  | None => EmptyString
  end.

Definition providerLabel (m : ChatMessage) : string :=
  match Msg.provider m with Some gemini => "Gemini" | _ => "OpenAI" end.

End Mensagem.

(* ================================================================== *)
(** ** The token cache of the proxy functions                           *)
(* ================================================================== *)

(** [getIdToken] of the two serverless proxies (classificar and
    providers), which have the same text and a cache each. The function
    is asynchronous: it runs to its first [await] without interruption,
    and from the answer of the authentication to its end without
    interruption; other invocations may run in between. *)
Module Proxy.

(** [s.replace(p, r)] for a string pattern: the first occurrence of [p]
    is replaced. *)
Fixpoint replace (p r s : string) : string :=
  if String.prefix p s
  then (r ++ String.substring (String.length p) (String.length s - String.length p) s)%string
  else match s with
       | EmptyString => EmptyString
       | String a t => String a (replace p r t)
       end.

(** [tokenCache]: the token may be null or undefined. *)
Record TokenCache := { token : option string; expiry : Z }.

Definition inicial : TokenCache := {| token := None; expiry := 0 |}.

(** What [JSON.parse(process.env.GOOGLE_SERVICE_ACCOUNT_KEY || '{}')]
    gives, as far as the function looks: the parse throws, or there is an
    object whose [client_email] may be missing. *)
Inductive Credenciais :=
| JsonInvalido
| Chave (client_email : option string).

(** The answer of the authentication library: one of its promises is
    rejected, or the headers come, with or without [Authorization]. *)
Inductive Auth :=
| AuthRejeitada
| AuthHeaders (authorization : option string).

Inductive Inicio :=
| Acerto (tk : string)
| Lanca
| Pede (now : Z).

(** From the call to the first [await]: the cached token is returned
    when there is one and it expires more than 300000 ms from now;
    otherwise the credentials are read, and the authentication is asked
    unless they lack [client_email]. *)
Definition iniciar (now : Z) (c : Credenciais) (tc : TokenCache) : Inicio :=
  match token tc with
  | Some tk =>
      if Js.truthy tk && (now + 300000 <? expiry tc) then Acerto tk
      else match c with
           | Chave (Some e) => if Js.truthy e then Pede now else Lanca
           | _ => Lanca
           end
  | None =>
      match c with
      | Chave (Some e) => if Js.truthy e then Pede now else Lanca
      | _ => Lanca
      end
  end.

(** From the answer of the authentication to the end: the token is
    [headers.Authorization?.replace('Bearer ', '')], it is cached with
    the expiry [now + 3600000], [now] being the time read at the call,
    and returned. [None] as a result: the function throws. *)
Definition terminar (now : Z) (a : Auth) (tc : TokenCache)
  : option (option string) * TokenCache :=
  match a with
  | AuthRejeitada => (None, tc)
  | AuthHeaders h =>
      let tk := replace "Bearer " EmptyString <$> h in
      (Some tk, {| token := tk; expiry := now + 3600000 |})
  end.

(** The function and the invocations of it that wait for the
    authentication, each with the time it read. *)
Record Sys := { cache : TokenCache; aguardam : list Z }.

Definition sys_inicial : Sys := {| cache := inicial; aguardam := [] |}.

Inductive Evento :=
| Chama (now : Z) (c : Credenciais)
| Responde (k : nat) (a : Auth).

(** One event, with what is returned to the caller, if the invocation
    ends: [Some None] when it throws. *)
Definition passo (ev : Evento) (s : Sys)
  : option (Sys * option (option (option string))) :=
  match ev with
  | Chama now c =>
      match iniciar now c (cache s) with
      | Acerto tk => Some (s, Some (Some (Some tk)))
      | Lanca => Some (s, Some None)
      | Pede n => Some ({| cache := cache s; aguardam := aguardam s ++ [n] |}, None)
      end
  | Responde k a =>
      match aguardam s !! k with
      | Some n =>
          let '(r, tc) := terminar n a (cache s) in
          Some ({| cache := tc; aguardam := delete k (aguardam s) |}, Some r)
      | None => None
      end
  end.

Fixpoint executar (evs : list Evento) (s : Sys) : option Sys :=
  match evs with
  | [] => Some s
  | ev :: r => match passo ev s with
               | Some (s1, _) => executar r s1
               | None => None
               end
  end.

(** The times read by the calls among the events. *)
Fixpoint tempos (evs : list Evento) : list Z :=
  match evs with
  | [] => []
  | Chama now _ :: r => now :: tempos r
  | Responde _ _ :: r => tempos r
  end.

(** The cache is the initial one, or was written by an invocation that
    read one of the times [ts]. *)
Definition Escrita (ts : list Z) (tc : TokenCache) : Prop :=
  tc = inicial \/ exists t, In t ts /\ expiry tc = t + 3600000.

End Proxy.

(* ================================================================== *)
(** ** EmailPreviewModalComponent                                       *)
(* ================================================================== *)

(** The six patterns of [assuntoEmail], in the order of the source; each
    is [^KEY:\s*(.+)$] with the flags [i] and [m]. *)
Inductive Padrao := PAssunto | PSubject | PRef | PRE | PFW | PEnc.

Definition padroes : list Padrao := [PAssunto; PSubject; PRef; PRE; PFW; PEnc].

Section Modal.

(** [original.match(padrao)], as far as the method looks: [None] when
    there is no match, the first group otherwise. The matching itself is
    the regular-expression engine's; what is defined below is defined for
    any behaviour of it. *)
Variable casar : Padrao -> string -> option string.

(** The loop over the patterns: the first pattern that matches with a
    group that is not empty decides. *)
Fixpoint primeiro_assunto (ps : list Padrao) (original : string)
  : option string :=
  match ps with
  | [] => None
  | p :: r =>
      match casar p original with
      | Some g => if Js.truthy g then Some ("Re: " ++ Js.trim g)%string
                  else primeiro_assunto r original
      | None => primeiro_assunto r original
      end
  end.

(** [gerarAssuntoPadrao] *)
Definition gerarAssuntoPadrao (res : ClassificacaoResultado) : string :=
  match categoria res with
  | Produtivo => "Re: Solicitação Recebida - Em Atendimento"
  | Improdutivo => "Re: Mensagem Recebida - Agradecemos o Contato"
  end.

(** [assuntoEmail], from the inputs [resultado] and [emailOriginal]. *)
Definition assuntoEmail (res : ClassificacaoResultado)
    (emailOriginal : option string) : string :=
  let padrao := gerarAssuntoPadrao res in
  let do_original :=
    match emailOriginal with
    | Some original =>
        if Js.truthy original
        then match primeiro_assunto padroes original with
             | Some s => s
             | None => padrao
             end
        else padrao
    | None => padrao
    end in
  match assunto res with
  | Some a => if Js.truthy a then ("Re: " ++ a)%string else do_original
  | None => do_original
  end.

End Modal.

Definition resultado_assunto : ClassificacaoResultado :=
  {| categoria := Produtivo; confianca := 1%float;
     resposta_sugerida := "Vamos verificar o pedido.";
     assunto := Some "Pedido #123"%string;
     remetente := None; destinatario := None; modelo_usado := None |}.

(** [remetenteOriginal] and [destinatarioOriginal]: [x || null]. *)
Definition ou_null (x : option string) : option string :=
  match x with
  | Some s => if Js.truthy s then Some s else None
  | None => None
  end.

Definition remetenteOriginal (res : ClassificacaoResultado) : option string :=
  ou_null (remetente res).

Definition destinatarioOriginal (res : ClassificacaoResultado) : option string :=
  ou_null (destinatario res).

(** [gerarEmailTexto] of the modal: the reply alone. *)
Definition gerarEmailTexto (res : ClassificacaoResultado) : string :=
  resposta_sugerida res.

(* ================================================================== *)
(** ** What reaches the log                                             *)
(* ================================================================== *)

(** The text of an entry, if it has one, is not empty and has no white
    space at its ends; its attachment, if it has one, is that of a file
    that passes the validation. *)
Definition entrada_boa (m : ChatMessage) : Prop :=
  (forall c, Msg.conteudo m = Some c ->
     c <> EmptyString /\ Js.trimStart c = c /\ Js.trimEnd c = c) /\
  (forall a, Msg.arquivo m = Some a ->
     exists f, Spec.validate f = Spec.Accepted /\
               nome a = Arq.name f /\ tamanho a = Arq.size f).

(** The payload of a submission is one that the chat input emits: there
    are actions on a new chat input among whose emissions it is. *)
Definition do_input (ev : Sessao.Evento) : Prop :=
  match ev with
  | Sessao.EnviarTexto c p _ =>
      exists l, In (ChatInput.enviarTexto c p)
                  (snd (agir_todas l ChatInput.inicial))
  | Sessao.EnviarArquivo a p _ =>
      exists l, In (ChatInput.enviarArquivo a p)
                  (snd (agir_todas l ChatInput.inicial))
  | _ => True
  end.

(** The chat input's inputs while the controller is idle. *)
Definition inputs_livre : ChatInput.Inputs :=
  {| ChatInput.in_providers := None; ChatInput.in_providerSelecionado := openai;
     ChatInput.in_carregando := false |}.
(* ================================================================== *)
(** ** Facts about strings                                              *)
(* ================================================================== *)

Section JsFacts.

Variable c : ascii.

Lemma split_not_nil (s : string) : Js.split c s <> [].
Proof.
  destruct s as [|a r]; simpl; [discriminate|].
  destruct (Ascii.eqb a c); [discriminate|].
  destruct (Js.split c r); discriminate.
Qed.

Lemma split_lacks (s : string) : Js.lacks c s = true -> Js.split c s = [s].
Proof.
  induction s as [|a r IH]; simpl; [reflexivity|].
  destruct (Ascii.eqb a c); simpl; [discriminate|].
  intros H. rewrite (IH H). reflexivity.
Qed.

Lemma split_single (s h : string) : Js.split c s = [h] -> Js.lacks c s = true.
Proof.
  revert h. induction s as [|a r IH]; simpl; intros h; [reflexivity|].
  destruct (Ascii.eqb a c); simpl.
  - intros H. injection H as _ H. destruct (split_not_nil _ H).
  - destruct (Js.split c r) as [|h' t] eqn:E; [intros _; destruct (split_not_nil _ E)|].
    intros H. injection H as _ ->. eapply IH. reflexivity.
Qed.

Lemma after_last_lacks (s : string) :
  Js.lacks c s = true -> Spec.after_last c s = s.
Proof.
  destruct s as [|a r]; simpl; [reflexivity|].
  destruct (Ascii.eqb a c); simpl; [discriminate|].
  intros ->. reflexivity.
Qed.

Lemma last_cons_not_nil {A} (x : A) (l : list A) : l <> [] -> last (x :: l) = last l.
Proof. destruct l; [congruence | reflexivity]. Qed.

(** [split] then [pop] is the substring after the last separator. *)
Lemma pop_split (s : string) :
  Js.pop (Js.split c s) = Some (Spec.after_last c s).
Proof.
  unfold Js.pop. induction s as [|a r IH]; [reflexivity|].
  simpl. destruct (Ascii.eqb a c) eqn:Ea.
  - rewrite last_cons_not_nil by apply split_not_nil. rewrite IH.
    destruct (Js.lacks c r) eqn:El; [|reflexivity].
    rewrite after_last_lacks by assumption. reflexivity.
  - destruct (Js.lacks c r) eqn:El.
    + rewrite (split_lacks _ El). reflexivity.
    + destruct (Js.split c r) as [|h t] eqn:E; [destruct (split_not_nil _ E)|].
      destruct t as [|h2 t].
      * rewrite (split_single _ _ E) in El. discriminate.
      * exact IH.
Qed.

Lemma lacks_app (a b : string) :
  Js.lacks c (a ++ b) = Js.lacks c a && Js.lacks c b.
Proof.
  induction a as [|x a IH]; simpl; [reflexivity|].
  rewrite IH. apply andb_assoc.
Qed.

(** After a separator, what follows it to the end and has no separator is
    the substring after the last one. *)
Lemma after_last_app (pre e : string) :
  Js.lacks c e = true -> Spec.after_last c (pre ++ String c e) = e.
Proof.
  intros He. induction pre as [|a r IH]; simpl.
  - rewrite He, Ascii.eqb_refl. reflexivity.
  - rewrite lacks_app. simpl. rewrite Ascii.eqb_refl. simpl.
    rewrite andb_false_r. exact IH.
Qed.

End JsFacts.

Lemma prefix_app (x r : string) : String.prefix x (x ++ r) = true.
Proof.
  induction x as [|a x IH]; simpl; [destruct r; reflexivity|].
  destruct (ascii_dec a a); [exact IH | congruence].
Qed.

Lemma str_includes_prefix (x s : string) :
  String.prefix x s = true -> Js.str_includes x s = true.
Proof. destruct s; simpl; intros ->; reflexivity. Qed.

Lemma str_includes_app (x p r : string) :
  Js.str_includes x (p ++ x ++ r) = true.
Proof.
  induction p as [|a p IH].
  - apply (str_includes_prefix x (x ++ r)), prefix_app.
  - change (String.prefix x (String a (p ++ x ++ r))
            || Js.str_includes x (p ++ x ++ r) = true).
    rewrite IH. apply orb_true_r.
Qed.

Lemma str_includes_suffix (x p : string) : Js.str_includes x (p ++ x) = true.
Proof.
  pose proof (str_includes_app x p EmptyString) as H.
  replace (x ++ EmptyString)%string with x in H; [exact H|].
  clear. induction x; simpl; congruence.
Qed.

(* ================================================================== *)
(** ** The chat input: validation and staging                           *)
(* ================================================================== *)

(** The test of the source on the extension is the membership test of
    the specification. *)
Lemma extensao_test (e : string) :
  negb (Js.truthy e) || negb (Js.includes ChatInput.formatosSuportados e)
  = negb (existsb (fun f => String.eqb e (Js.toLowerCase f)) Spec.allowlist).
Proof.
  transitivity (negb (Js.includes ChatInput.formatosSuportados e)).
  - destruct e; reflexivity.
  - reflexivity.
Qed.

Lemma onArquivoSelecionado_validate (arquivo : File) (rest : list File)
    (st : ChatInput.State) :
  ChatInput.onArquivoSelecionado (arquivo :: rest) st =
    match Spec.validate arquivo with
    | Spec.Accepted => aceito arquivo st
    | Spec.BadExtension => rejeitado ChatInput.msg_formato st
    | Spec.TooLarge => rejeitado ChatInput.msg_tamanho st
    end.
Proof.
  unfold ChatInput.onArquivoSelecionado, ChatInput.extensao, Spec.validate,
    Spec.extension, Spec.same_ignoring_case.
  rewrite pop_split. cbn [fmap option_fmap option_map].
  rewrite extensao_test.
  destruct (negb _); [reflexivity|].
  change (5 * 1024 * 1024)%N with Spec.max_bytes.
  destruct (Spec.max_bytes <? Arq.size arquivo)%N; reflexivity.
Qed.

(** C5: the file validation of [onArquivoSelecionado] is the validator of
    the specification: a file is rejected when the substring after the
    last '.' of its name, compared without regard to case, is not one of
    txt, pdf, eml, msg, mbox; it is rejected when its size exceeds
    5242880 bytes; it is accepted otherwise (it becomes the staged file).
    "virus.exe" and a 6 MiB .txt are rejected; a 4 MiB .pdf and a
    100-byte .eml are accepted. *)
Theorem C5_file_validation :
  (forall (arquivo : File) (rest : list File) (st : ChatInput.State),
     ChatInput.onArquivoSelecionado (arquivo :: rest) st =
       match Spec.validate arquivo with
       | Spec.Accepted => aceito arquivo st
       | Spec.BadExtension => rejeitado ChatInput.msg_formato st
       | Spec.TooLarge => rejeitado ChatInput.msg_tamanho st
       end) /\
  (forall (pre e : string) (n : N),
     Js.lacks "." e = true ->
     Spec.extension {| Arq.name := pre ++ String "." e; Arq.size := n |} = e) /\
  (forall f : File,
     Spec.validate f = Spec.Accepted <->
     (exists x, In x Spec.allowlist /\
                Js.toLowerCase (Spec.extension f) = Js.toLowerCase x) /\
     (Arq.size f <= 5242880)%N) /\
  Spec.validate virus_exe = Spec.BadExtension /\
  Spec.validate grande_txt = Spec.TooLarge /\
  Spec.validate quatro_pdf = Spec.Accepted /\
  Spec.validate cem_eml = Spec.Accepted /\
  ChatInput.onArquivoSelecionado [virus_exe] ChatInput.inicial
    = rejeitado ChatInput.msg_formato ChatInput.inicial /\
  ChatInput.onArquivoSelecionado [grande_txt] ChatInput.inicial
    = rejeitado ChatInput.msg_tamanho ChatInput.inicial /\
  ChatInput.onArquivoSelecionado [quatro_pdf] ChatInput.inicial
    = aceito quatro_pdf ChatInput.inicial /\
  ChatInput.onArquivoSelecionado [cem_eml] ChatInput.inicial
    = aceito cem_eml ChatInput.inicial.
Proof.
  split; [exact onArquivoSelecionado_validate|].
  split; [intros pre e n He; apply after_last_app, He|].
  split.
  { intros f. unfold Spec.validate.
    destruct (existsb _ _) eqn:Ex; simpl.
    - apply existsb_exists in Ex as (x & Hx & Hs).
      apply String.eqb_eq in Hs.
      destruct (Spec.max_bytes <? Arq.size f)%N eqn:Es.
      + split; [discriminate|]. intros [_ Hle].
        apply N.ltb_lt in Es. unfold Spec.max_bytes in Es. lia.
      + split; [|reflexivity]. intros _. split; [exists x; split; assumption|].
        apply N.ltb_ge in Es. exact Es.
    - split; [discriminate|]. intros [(x & Hx & Hs) _].
      assert (existsb (Spec.same_ignoring_case (Spec.extension f))
                Spec.allowlist = true) as E; [|congruence].
      apply existsb_exists. exists x. split; [exact Hx|].
      apply String.eqb_eq, Hs. }
  repeat split; vm_compute; reflexivity.
Qed.

Lemma C5_file_validation_witness :
  Spec.extension {| Arq.name := "relatorio.final" ++ String "." "pdf";
                    Arq.size := 10 |} = "pdf"%string.
Proof.
  apply (proj1 (proj2 C5_file_validation)). reflexivity.
Defined.

Lemma extensao_sem_ponto (arquivo : File) :
  Js.lacks "." (Arq.name arquivo) = true ->
  ChatInput.extensao arquivo = Some (Js.toLowerCase (Arq.name arquivo)).
Proof.
  intros H. unfold ChatInput.extensao, Js.pop.
  rewrite (split_lacks _ _ H). reflexivity.
Qed.

(** C9 (as the code has it): for a file whose name has no '.', the whole
    name is the extension, compared without regard to case: the file is
    accepted, subject to the size limit, when its name in lower case is
    one of txt, pdf, eml, msg, mbox, and rejected for its format
    otherwise. *)
Theorem C9_dotless_name (arquivo : File) (rest : list File)
    (st : ChatInput.State) :
  Js.lacks "." (Arq.name arquivo) = true ->
  ChatInput.extensao arquivo = Some (Js.toLowerCase (Arq.name arquivo)) /\
  ChatInput.onArquivoSelecionado (arquivo :: rest) st =
    if Js.includes ChatInput.formatosSuportados (Js.toLowerCase (Arq.name arquivo))
    then if (5242880 <? Arq.size arquivo)%N
         then rejeitado ChatInput.msg_tamanho st
         else aceito arquivo st
    else rejeitado ChatInput.msg_formato st.
Proof.
  intros H. split; [apply extensao_sem_ponto, H|].
  unfold ChatInput.onArquivoSelecionado.
  rewrite (extensao_sem_ponto _ H).
  destruct (Js.includes _ _) eqn:Ei.
  - destruct (Js.toLowerCase (Arq.name arquivo)); [discriminate Ei|].
    simpl negb. simpl orb. cbv iota.
    change (5 * 1024 * 1024)%N with 5242880%N.
    destruct (5242880 <? Arq.size arquivo)%N; reflexivity.
  - rewrite orb_true_r. reflexivity.
Qed.

Lemma C9_dotless_name_witness :
  ChatInput.extensao sem_ponto_pdf = Some "pdf"%string /\
  ChatInput.onArquivoSelecionado [sem_ponto_pdf] ChatInput.inicial
    = aceito sem_ponto_pdf ChatInput.inicial.
Proof.
  exact (C9_dotless_name sem_ponto_pdf [] ChatInput.inicial eq_refl).
Defined.

(** C9 as the specification states it fails: the file named "TXT" has no '.', its name is none
    of txt, pdf, eml, msg, mbox, and it is accepted, not rejected. *)
Lemma C9_counterexample :
  Js.lacks "." (Arq.name maiusculo_txt) = true /\
  ~ In (Arq.name maiusculo_txt) ChatInput.formatosSuportados /\
  ChatInput.onArquivoSelecionado [maiusculo_txt] ChatInput.inicial
    = aceito maiusculo_txt ChatInput.inicial /\
  ChatInput.onArquivoSelecionado [maiusculo_txt] ChatInput.inicial
    <> rejeitado ChatInput.msg_formato ChatInput.inicial.
Proof.
  split; [reflexivity|]. split.
  - simpl. intros [H|[H|[H|[H|[H|[]]]]]]; discriminate H.
  - split; [reflexivity | discriminate].
Qed.

(* ------------------------------------------------------------------ *)
(** *** Staging                                                        *)
(* ------------------------------------------------------------------ *)

Lemma onArquivoSelecionado_exclusivos (fs : list File) (st : ChatInput.State) :
  exclusivos st -> exclusivos (ChatInput.onArquivoSelecionado fs st).
Proof.
  intros H. destruct fs as [|arquivo rest]; [exact H|].
  rewrite onArquivoSelecionado_validate.
  destruct (Spec.validate arquivo); [left; reflexivity | exact H | exact H].
Qed.

Lemma enviar_exclusivos (i : ChatInput.Inputs) (st : ChatInput.State) :
  exclusivos st -> exclusivos (fst (ChatInput.enviar i st)).
Proof.
  intros H. unfold ChatInput.enviar.
  destruct (negb _); [exact H|].
  destruct (ChatInput.arquivoSelecionado st); [right | left]; reflexivity.
Qed.

Lemma operar_exclusivos (op : Operacao) (st : ChatInput.State) :
  exclusivos st -> exclusivos (operar op st).
Proof.
  destruct op; simpl; intros H.
  - right. reflexivity.
  - apply onArquivoSelecionado_exclusivos, H.
  - right. reflexivity.
  - exact H.
  - exact H.
  - exact H.
  - apply enviar_exclusivos, H.
Qed.

Lemma operar_todas_exclusivos (ops : list Operacao) (st : ChatInput.State) :
  exclusivos st -> exclusivos (operar_todas ops st).
Proof.
  revert st. induction ops as [|op ops IH]; intros st H; [exact H|].
  apply IH, operar_exclusivos, H.
Qed.

(** What [enviar] emits: nothing, the staged file, or the trimmed text
    when no file is staged. *)
Lemma enviar_emite (i : ChatInput.Inputs) (st : ChatInput.State) :
  snd (ChatInput.enviar i st) = None \/
  (exists a, ChatInput.arquivoSelecionado st = Some a /\
     snd (ChatInput.enviar i st)
       = Some (ChatInput.enviarArquivo a (ChatInput.in_providerSelecionado i))) \/
  (ChatInput.arquivoSelecionado st = None /\
   snd (ChatInput.enviar i st)
     = Some (ChatInput.enviarTexto (Js.trim (ChatInput.conteudoEmail st))
               (ChatInput.in_providerSelecionado i))).
Proof.
  unfold ChatInput.enviar. destruct (negb _); [left; reflexivity|]. right.
  destruct (ChatInput.arquivoSelecionado st) as [a|].
  - left. exists a. split; reflexivity.
  - right. split; reflexivity.
Qed.

(** C8: in the chat input a staged text and a staged file exclude each
    other. Accepting a file clears the staged text; staging text clears
    the staged file (the text-entry handler is modelled from the
    specification); so after any sequence of operations not both are
    staged, and [enviar] emits one payload, the staged file or else the
    trimmed text: when it emits the file, no text is staged. *)
Theorem C8_text_and_file_exclusive :
  (forall (arquivo : File) (rest : list File) (st : ChatInput.State),
     Spec.validate arquivo = Spec.Accepted ->
     let st' := ChatInput.onArquivoSelecionado (arquivo :: rest) st in
     ChatInput.arquivoSelecionado st' = Some arquivo /\
     ChatInput.conteudoEmail st' = EmptyString) /\
  (forall (v : string) (st : ChatInput.State),
     ChatInput.conteudoEmail (ChatInput.digitar v st) = v /\
     ChatInput.arquivoSelecionado (ChatInput.digitar v st) = None) /\
  (forall ops : list Operacao,
     exclusivos (operar_todas ops ChatInput.inicial)) /\
  (forall (ops : list Operacao) (i : ChatInput.Inputs),
     let st := operar_todas ops ChatInput.inicial in
     let p := ChatInput.in_providerSelecionado i in
     snd (ChatInput.enviar i st) = None \/
     (exists a, ChatInput.arquivoSelecionado st = Some a /\
        ChatInput.conteudoEmail st = EmptyString /\
        snd (ChatInput.enviar i st) = Some (ChatInput.enviarArquivo a p)) \/
     (ChatInput.arquivoSelecionado st = None /\
      snd (ChatInput.enviar i st)
        = Some (ChatInput.enviarTexto (Js.trim (ChatInput.conteudoEmail st)) p))).
Proof.
  split; [|split; [|split]].
  - intros arquivo rest st Hv st'. subst st'.
    rewrite onArquivoSelecionado_validate, Hv. split; reflexivity.
  - intros v st. split; reflexivity.
  - intros ops. apply operar_todas_exclusivos. left. reflexivity.
  - intros ops i st p.
    assert (exclusivos st) as Hx
      by (apply operar_todas_exclusivos; left; reflexivity).
    destruct (enviar_emite i st) as [H|[(a & Ha & H)|[Ha H]]].
    + left. exact H.
    + right. left. exists a. split; [exact Ha|]. split; [|exact H].
      destruct Hx as [Hx|Hx]; [exact Hx | congruence].
    + right. right. split; assumption.
Qed.

Lemma C8_text_and_file_exclusive_witness :
  ChatInput.arquivoSelecionado
    (ChatInput.onArquivoSelecionado [cem_eml]
       (ChatInput.digitar "Preciso de ajuda" ChatInput.inicial)) = Some cem_eml /\
  ChatInput.conteudoEmail
    (ChatInput.onArquivoSelecionado [cem_eml]
       (ChatInput.digitar "Preciso de ajuda" ChatInput.inicial)) = EmptyString.
Proof.
  apply (proj1 C8_text_and_file_exclusive cem_eml []
           (ChatInput.digitar "Preciso de ajuda" ChatInput.inicial)).
  vm_compute. reflexivity.
Defined.

(* ================================================================== *)
(** ** The ids made by [gerarId]                                        *)
(* ================================================================== *)

Lemma string_of_uint_lacks_hyphen (d : Decimal.uint) :
  Js.lacks "-" (NilEmpty.string_of_uint d) = true.
Proof. induction d; simpl; auto. Qed.

Lemma dec_lacks_hyphen (n : N) : Js.lacks "-" (Js.dec n) = true.
Proof. apply string_of_uint_lacks_hyphen. Qed.

Lemma dec_inj (n m : N) : Js.dec n = Js.dec m -> n = m.
Proof.
  unfold Js.dec. intros H.
  apply DecimalN.Unsigned.to_uint_inj.
  pose proof (NilEmpty.usu (N.to_uint n)) as Hn.
  pose proof (NilEmpty.usu (N.to_uint m)) as Hm.
  rewrite H in Hn. congruence.
Qed.

(** Two strings without '-' that are followed by a '-' in equal strings
    are equal. *)
Lemma hyphen_delimits (a b x y : string) :
  Js.lacks "-" a = true -> Js.lacks "-" b = true ->
  (a ++ String "-" x)%string = (b ++ String "-" y)%string -> a = b.
Proof.
  revert b. induction a as [|c a IH]; intros [|d b]; simpl; intros Ha Hb E.
  - reflexivity.
  - injection E as E _. subst d. discriminate Hb.
  - injection E as E _. subst c. discriminate Ha.
  - injection E as -> E. f_equal.
    apply andb_prop in Ha as [_ Ha]. apply andb_prop in Hb as [_ Hb].
    exact (IH b Ha Hb E).
Qed.

(** The counter can be read back from the id. *)
Lemma id_texto_inj (n n' : N) (t t' : Z) :
  Chat.id_texto n t = Chat.id_texto n' t' -> n = n'.
Proof.
  unfold Chat.id_texto. intros E.
  apply dec_inj.
  apply (hyphen_delimits _ _ (Js.decZ t) (Js.decZ t'));
    try apply dec_lacks_hyphen.
  simpl in E. injection E as E. exact E.
Qed.

(* ================================================================== *)
(** ** The two handlers, as functions on the log                        *)
(* ================================================================== *)

Section Handlers.

(** Both handlers rewrite the entries whose id is [messageId] with some
    [f] and leave the others as they are. *)
Variable f : ChatMessage -> ChatMessage.
Variable messageId : string.

Let g := fun msg : ChatMessage =>
  if String.eqb (Msg.id msg) messageId then f msg else msg.

Lemma map_ausente (l : list ChatMessage) :
  presente messageId l = false -> g <$> l = l.
Proof.
  induction l as [|m l IH]; [reflexivity|].
  intros H. apply orb_false_elim in H as [Hm Hl].
  rewrite fmap_cons. unfold g at 1. rewrite Hm. f_equal. apply IH, Hl.
Qed.

Hypothesis f_id : forall m, Msg.id (f m) = Msg.id m.

Lemma map_ids (l : list ChatMessage) : Msg.id <$> (g <$> l) = Msg.id <$> l.
Proof.
  induction l as [|m l IH]; [reflexivity|].
  rewrite !fmap_cons, IH. f_equal.
  unfold g. destruct (String.eqb _ _); [apply f_id | reflexivity].
Qed.

Lemma map_lookup_eq (l : list ChatMessage) (i : nat) (m : ChatMessage) :
  l !! i = Some m -> Msg.id m = messageId -> (g <$> l) !! i = Some (f m).
Proof.
  intros Hi Hm. rewrite list_lookup_fmap, Hi. simpl. unfold g.
  rewrite Hm, String.eqb_refl. reflexivity.
Qed.

Lemma map_lookup_ne (l : list ChatMessage) (i : nat) (m : ChatMessage) :
  l !! i = Some m -> Msg.id m <> messageId -> (g <$> l) !! i = Some m.
Proof.
  intros Hi Hm. rewrite list_lookup_fmap, Hi. simpl. unfold g.
  apply String.eqb_neq in Hm. rewrite Hm. reflexivity.
Qed.

(** With distinct ids, the rewriting is an update in place of one entry. *)
Lemma map_insert (l : list ChatMessage) (i : nat) (m : ChatMessage) :
  NoDup (Msg.id <$> l) -> l !! i = Some m -> Msg.id m = messageId ->
  g <$> l = <[i := f m]> l.
Proof.
  intros Hnd Hi Hm. apply list_eq. intros j.
  destruct (decide (i = j)) as [<-|Hij].
  - rewrite list_lookup_insert_eq by (eapply lookup_lt_Some; exact Hi).
    apply map_lookup_eq; assumption.
  - rewrite list_lookup_insert_ne by exact Hij.
    destruct (l !! j) as [x|] eqn:Hj.
    + apply map_lookup_ne; [exact Hj|]. intros Hx. apply Hij.
      apply (NoDup_lookup (Msg.id <$> l) i j messageId Hnd).
      * rewrite list_lookup_fmap, Hi. simpl. congruence.
      * rewrite list_lookup_fmap, Hj. simpl. congruence.
    + rewrite list_lookup_fmap, Hj. reflexivity.
Qed.

End Handlers.

Lemma handleSucesso_mensagens res messageId p st :
  Chat.mensagens (Chat.handleSucesso res messageId p st)
  = (fun msg => if String.eqb (Msg.id msg) messageId
                then Chat.com_resultado res p msg else msg)
      <$> Chat.mensagens st.
Proof. reflexivity. Qed.

Lemma handleErro_mensagens e messageId st :
  Chat.mensagens (Chat.handleErro e messageId st)
  = (fun msg => if String.eqb (Msg.id msg) messageId
                then Chat.com_erro e msg else msg)
      <$> Chat.mensagens st.
Proof. reflexivity. Qed.

Lemma set_mensagens_mesmas (st : Chat.State) :
  Chat.set_mensagens (Chat.mensagens st) st = st.
Proof. destruct st. reflexivity. Qed.

(** C2: a resolution, success or error, whose id is the id of no entry of
    the log leaves the log as it is: no entry is changed, appended or
    brought back. The handlers are total functions: nothing is thrown.
    What such a resolution still does is reset the busy flag (and, on
    success, ask for a scroll). *)
Theorem C2_stale_id_noop (messageId : string) (st : Chat.State) :
  presente messageId (Chat.mensagens st) = false ->
  (forall (res : ClassificacaoResultado) (p : AIProvider),
     Chat.mensagens (Chat.handleSucesso res messageId p st) = Chat.mensagens st /\
     Chat.handleSucesso res messageId p st
     = Chat.set_shouldScrollToBottom true (Chat.set_carregando false st)) /\
  (forall e : HttpErrorResponse,
     Chat.mensagens (Chat.handleErro e messageId st) = Chat.mensagens st /\
     Chat.handleErro e messageId st = Chat.set_carregando false st).
Proof.
  intros H. split; intros.
  - split; [rewrite handleSucesso_mensagens; apply map_ausente, H|].
    unfold Chat.handleSucesso. rewrite map_ausente by exact H.
    rewrite set_mensagens_mesmas. reflexivity.
  - split; [rewrite handleErro_mensagens; apply map_ausente, H|].
    unfold Chat.handleErro. rewrite map_ausente by exact H.
    rewrite set_mensagens_mesmas. reflexivity.
Qed.

Lemma C2_stale_id_noop_witness :
  (forall (res : ClassificacaoResultado) (p : AIProvider),
     Chat.mensagens (Chat.handleSucesso res id2 p estado1)
     = Chat.mensagens estado1) /\
  (forall e : HttpErrorResponse,
     Chat.mensagens (Chat.handleErro e id2 estado1) = Chat.mensagens estado1).
Proof.
  destruct (C2_stale_id_noop id2 estado1 eq_refl) as [H1 H2].
  split; intros; [apply H1 | apply H2].
Defined.

Lemma prefix_empty (s : string) : String.prefix EmptyString s = true.
Proof. destruct s; reflexivity. Qed.

Lemma resposta_erro_eq (e : HttpErrorResponse) :
  resposta_sugerida (Chat.resultado_erro e)
  = ("❌ Erro: " ++ Chat.mensagemErro e)%string.
Proof. reflexivity. Qed.

Lemma resposta_erro_inclui (e : HttpErrorResponse) (d : string) :
  error e ≫= detail = Some d ->
  Js.str_includes d (resposta_sugerida (Chat.resultado_erro e)) = true.
Proof.
  intros H. rewrite resposta_erro_eq. unfold Chat.mensagemErro. rewrite H.
  destruct d as [|a d].
  - apply str_includes_prefix, prefix_empty.
  - apply (str_includes_suffix (String a d) "❌ Erro: ").
Qed.

(** C3: for a failed classify call, [handleErro] rewrites the pending
    entry where it stands: the entry keeps its place and its other fields,
    its [carregando] flag becomes false and its outcome is the synthetic
    one, with confidence 0 and a reply made of the error prefix followed
    by the detail of the error when there is one (by the fallback text
    otherwise); the entries with another id are untouched. The handler is
    a total function of the error: nothing is thrown. *)
Theorem C3_error_outcome (e : HttpErrorResponse) (messageId : string)
    (st : Chat.State) (i : nat) (m : ChatMessage) :
  Chat.mensagens st !! i = Some m ->
  Msg.id m = messageId ->
  let st' := Chat.handleErro e messageId st in
  let r := Chat.resultado_erro e in
  Chat.mensagens st' !! i = Some (Chat.com_erro e m) /\
  List.length (Chat.mensagens st') = List.length (Chat.mensagens st) /\
  (forall j x, Chat.mensagens st !! j = Some x -> Msg.id x <> messageId ->
     Chat.mensagens st' !! j = Some x) /\
  Msg.carregando (Chat.com_erro e m) = Some false /\
  Msg.resultado (Chat.com_erro e m) = Some r /\
  (Msg.id (Chat.com_erro e m), Msg.tipo (Chat.com_erro e m),
   Msg.provider (Chat.com_erro e m), Msg.timestamp (Chat.com_erro e m),
   Msg.emailOriginal (Chat.com_erro e m))
  = (Msg.id m, Msg.tipo m, Msg.provider m, Msg.timestamp m,
     Msg.emailOriginal m) /\
  confianca r = 0%float /\
  String.prefix "❌ Erro: " (resposta_sugerida r) = true /\
  (forall d, error e ≫= detail = Some d ->
     Js.str_includes d (resposta_sugerida r) = true) /\
  (forall d, error e ≫= detail = Some d -> Js.truthy d = true ->
     resposta_sugerida r = ("❌ Erro: " ++ d)%string) /\
  (error e ≫= detail = None ->
     resposta_sugerida r = ("❌ Erro: " ++ Chat.erro_padrao)%string).
Proof.
  intros Hi Hm st' r. subst st' r.
  rewrite handleErro_mensagens.
  split; [apply (map_lookup_eq (Chat.com_erro e)); assumption|].
  split; [apply length_fmap|].
  split; [intros j x Hj Hx; apply map_lookup_ne; assumption|].
  repeat (split; [reflexivity|]).
  split; [apply (prefix_app "❌ Erro: ")|].
  split; [intros d; apply resposta_erro_inclui|].
  rewrite resposta_erro_eq. unfold Chat.mensagemErro. split.
  - intros d Hd Ht. rewrite Hd, Ht. reflexivity.
  - intros Hd. rewrite Hd. reflexivity.
Qed.

(** C10: the outcome written for a failed call has the category
    Improdutivo whatever the error, the entry and the provider are, the
    same category as a delivered outcome classified Improdutivo. *)
Theorem C10_error_category (e : HttpErrorResponse) :
  categoria (Chat.resultado_erro e) = Improdutivo /\
  (forall m : ChatMessage,
     categoria <$> Msg.resultado (Chat.com_erro e m) = Some Improdutivo) /\
  (forall (messageId : string) (st : Chat.State) (i : nat) (m : ChatMessage),
     Chat.mensagens (Chat.handleErro e messageId st) !! i = Some m ->
     Msg.id m = messageId ->
     categoria <$> Msg.resultado m = Some Improdutivo) /\
  (forall (m : ChatMessage) (p : AIProvider) (x : float) (reply : string),
     categoria <$> Msg.resultado (Chat.com_erro e m)
     = categoria <$> Msg.resultado
         (Chat.com_resultado (sem_opcionais Improdutivo x reply) p m)).
Proof.
  split; [reflexivity|]. split; [reflexivity|]. split; [|reflexivity].
  intros messageId st i m Hin Hm.
  rewrite handleErro_mensagens in Hin.
  apply list_elem_of_lookup_2, list_elem_of_fmap in Hin as (x & -> & _).
  destruct (String.eqb (Msg.id x) messageId) eqn:E; [reflexivity|].
  apply String.eqb_neq in E. contradiction.
Qed.

(* ================================================================== *)
(** ** Submissions                                                      *)
(* ================================================================== *)

Lemma onEnviarTexto_submetida (c : string) (p : AIProvider) (r : Relogio)
    (st : Chat.State) :
  exists u a,
    Submetida st r p (fst (Chat.onEnviarTexto c p r st))
      (snd (Chat.onEnviarTexto c p r st)) u a /\
    Msg.conteudo u = Some c /\ Msg.arquivo u = None /\
    Msg.emailOriginal a = Some c /\
    corpo (snd (Chat.onEnviarTexto c p r st)) = PorTexto c p.
Proof.
  eexists. eexists. unfold Submetida, Chat.onEnviarTexto. simpl.
  repeat split; reflexivity.
Qed.

Lemma onEnviarArquivo_submetida (arq : File) (p : AIProvider) (r : Relogio)
    (st : Chat.State) :
  exists u a,
    Submetida st r p (fst (Chat.onEnviarArquivo arq p r st))
      (snd (Chat.onEnviarArquivo arq p r st)) u a /\
    Msg.conteudo u = None /\
    Msg.arquivo u = Some {| nome := Arq.name arq; tamanho := Arq.size arq |} /\
    Msg.emailOriginal a = None /\
    corpo (snd (Chat.onEnviarArquivo arq p r st)) = PorArquivo arq p.
Proof.
  eexists. eexists. unfold Submetida, Chat.onEnviarArquivo. simpl.
  repeat split; reflexivity.
Qed.

(** Every event that is a submission has the form of a submission. *)
Lemma passo_submissao (ev : Sessao.Evento) (s : Sessao.Sys) :
  submissao ev = true ->
  exists r p st' q u a,
    Sessao.passo ev s = Some (Sessao.emitir (st', q) s) /\
    Submetida (Sessao.chat s) r p st' q u a.
Proof.
  destruct ev as [c p r|arq p r| | | | | |]; try discriminate; intros _.
  - destruct (onEnviarTexto_submetida c p r (Sessao.chat s)) as (u & a & H & _).
    exists r, p, (fst (Chat.onEnviarTexto c p r (Sessao.chat s))),
      (snd (Chat.onEnviarTexto c p r (Sessao.chat s))), u, a.
    split; [|exact H]. unfold Sessao.passo. rewrite <- surjective_pairing. reflexivity.
  - destruct (onEnviarArquivo_submetida arq p r (Sessao.chat s)) as (u & a & H & _).
    exists r, p, (fst (Chat.onEnviarArquivo arq p r (Sessao.chat s))),
      (snd (Chat.onEnviarArquivo arq p r (Sessao.chat s))), u, a.
    split; [|exact H]. unfold Sessao.passo. rewrite <- surjective_pairing. reflexivity.
Qed.

(** What taking a call out of the calls in flight gives. *)
Lemma retirar_Some (messageId : string) (l : list Pedido) (q : Pedido)
    (resto : list Pedido) :
  Sessao.retirar messageId l = Some (q, resto) ->
  exists l1 l2, l = l1 ++ q :: l2 /\ resto = l1 ++ l2 /\ alvo q = messageId.
Proof.
  revert q resto. induction l as [|x l IH]; intros q resto; [discriminate|].
  simpl. destruct (String.eqb (alvo x) messageId) eqn:E.
  - intros [= <- <-]. exists [], l. apply String.eqb_eq in E. auto.
  - destruct (Sessao.retirar messageId l) as [[y r']|]; [|discriminate].
    intros [= <- <-]. destruct (IH y r' eq_refl) as (l1 & l2 & -> & -> & Hy).
    exists (x :: l1), l2. auto.
Qed.

Lemma retirar_elem (l : list Pedido) (q : Pedido) :
  NoDup (alvo <$> l) -> q ∈ l ->
  exists resto, Sessao.retirar (alvo q) l = Some (q, resto).
Proof.
  induction l as [|x l IH]; intros Hnd Hq; [apply elem_of_nil in Hq as []|].
  rewrite fmap_cons in Hnd. apply NoDup_cons in Hnd as [Hx Hnd].
  simpl. destruct (String.eqb (alvo x) (alvo q)) eqn:E.
  - apply String.eqb_eq in E. apply elem_of_cons in Hq as [->|Hq]; [eauto|].
    destruct Hx. rewrite E. apply list_elem_of_fmap_2, Hq.
  - apply elem_of_cons in Hq as [->|Hq].
    + rewrite String.eqb_refl in E. discriminate.
    + destruct (IH Hnd Hq) as (resto & ->). eauto.
Qed.

(* ================================================================== *)
(** ** The steps of a session                                           *)
(* ================================================================== *)

(** A step is a submission, the completion of a call in flight, or leaves
    the log alone. *)
Lemma passo_casos (ev : Sessao.Evento) (s s' : Sessao.Sys) :
  Sessao.passo ev s = Some s' ->
  (submissao ev = true /\
   exists r p st' q u a,
     s' = Sessao.emitir (st', q) s /\ Submetida (Sessao.chat s) r p st' q u a) \/
  (submissao ev = false /\
   exists q resto f,
     Sessao.retirar (alvo q) (Sessao.emVoo s) = Some (q, resto) /\
     Concluida s q resto f s' /\
     ((exists res, ev = Sessao.Next (alvo q) res /\
                   f = Chat.com_resultado res (prov q)) \/
      (exists e, ev = Sessao.Falha (alvo q) e /\ f = Chat.com_erro e))) \/
  (submissao ev = false /\ respostas [ev] = [] /\ Inalterada s s').
Proof.
  intros H.
  destruct (submissao ev) eqn:Es.
  { left. split; [reflexivity|].
    destruct (passo_submissao ev s Es) as (r & p & st' & q & u & a & Hp & Hs).
    exists r, p, st', q, u, a. split; [congruence | exact Hs]. }
  right.
  destruct ev as [| |messageId res|messageId e|p|p| |]; try discriminate;
    simpl in H.
  - left. split; [reflexivity|].
    destruct (Sessao.retirar messageId (Sessao.emVoo s)) as [[q resto]|] eqn:Er;
      [|discriminate].
    simpl in H. injection H as <-.
    destruct (retirar_Some _ _ _ _ Er) as (_ & _ & _ & _ & <-).
    exists q, resto, (Chat.com_resultado res (prov q)).
    split; [exact Er|]. split.
    + repeat split; eauto.
    + left. eauto.
  - left. split; [reflexivity|].
    destruct (Sessao.retirar messageId (Sessao.emVoo s)) as [[q resto]|] eqn:Er;
      [|discriminate].
    simpl in H. injection H as <-.
    destruct (retirar_Some _ _ _ _ Er) as (_ & _ & _ & _ & <-).
    exists q, resto, (Chat.com_erro e).
    split; [exact Er|]. split.
    + repeat split; eauto.
    + right. eauto.
  - right. injection H as <-. repeat split.
  - right. destruct (Sessao.providersEmVoo s); [|discriminate].
    injection H as <-. repeat split.
  - right. destruct (Sessao.providersEmVoo s); [|discriminate].
    injection H as <-. repeat split.
  - right. injection H as <-. repeat split.
    + unfold Sessao.log, Chat.ngAfterViewChecked. simpl.
      destruct (Chat.shouldScrollToBottom _); reflexivity.
    + unfold Chat.ngAfterViewChecked. simpl.
      destruct (Chat.shouldScrollToBottom _); reflexivity.
    + unfold Chat.ngAfterViewChecked. simpl.
      destruct (Chat.shouldScrollToBottom _); reflexivity.
Qed.

Lemma concluida_f (s : Sessao.Sys) q resto f s' :
  Concluida s q resto f s' ->
  (forall m, Msg.id (f m) = Msg.id m) /\
  (forall m, Sessao.pendente (f m) = false) /\
  (forall m, Sessao.resolvida (f m) = true).
Proof.
  intros (_ & _ & _ & _ & [(res & ->)|(e & ->)]); repeat split.
Qed.

(* ------------------------------------------------------------------ *)
(** *** Distinct ids, and calls in flight that target pending entries  *)
(* ------------------------------------------------------------------ *)

Lemma Inv_inicial (ls : list (string * string)) : Inv (Sessao.inicial ls).
Proof.
  repeat split; simpl.
  - apply NoDup_nil_2.
  - intros m Hm. apply elem_of_nil in Hm as [].
  - intros q Hq. apply elem_of_nil in Hq as [].
  - apply NoDup_nil_2.
Qed.

Lemma Inv_submetida (s : Sessao.Sys) r p st' q u a :
  Inv s -> Submetida (Sessao.chat s) r p st' q u a ->
  Inv (Sessao.emitir (st', q) s).
Proof.
  intros (Hnd & Hk & Hq & Ha) (Hl & Hc & _ & Hu & Hia & _ & Hfa & Hqa & _).
  set (n := Chat.messageIdCounter (Sessao.chat s)) in *.
  assert (forall m, m ∈ Sessao.log s -> Msg.id m <> Msg.id u) as Hfu.
  { intros m Hm E. destruct (Hk m Hm) as (k & t & Hid & Hle).
    rewrite Hid, Hu in E. apply id_texto_inj in E. fold n in Hle. lia. }
  assert (forall m, m ∈ Sessao.log s -> Msg.id m <> Msg.id a) as Hfa'.
  { intros m Hm E. destruct (Hk m Hm) as (k & t & Hid & Hle).
    rewrite Hid, Hia in E. apply id_texto_inj in E. fold n in Hle. lia. }
  unfold Inv, Sessao.log, Sessao.emitir. simpl. rewrite Hl, Hc.
  split; [|split; [|split]].
  - rewrite fmap_app. apply NoDup_app. split; [exact Hnd|]. split.
    + intros x Hx Hx'. apply list_elem_of_fmap in Hx as (m & -> & Hm).
      simpl in Hx'. apply elem_of_cons in Hx' as [E|Hx'].
      * exact (Hfu m Hm E).
      * apply list_elem_of_singleton in Hx'. exact (Hfa' m Hm Hx').
    + simpl. apply NoDup_cons. split; [|apply NoDup_singleton].
      intros E. apply list_elem_of_singleton in E.
      rewrite Hu, Hia in E. apply id_texto_inj in E. lia.
  - intros m Hm. apply elem_of_app in Hm as [Hm|Hm].
    + destruct (Hk m Hm) as (k & t & Hid & Hle).
      exists k, t. split; [exact Hid|]. fold n in Hle. lia.
    + apply elem_of_cons in Hm as [->|Hm].
      * eexists _, _. split; [exact Hu|]. lia.
      * apply list_elem_of_singleton in Hm as ->.
        eexists _, _. split; [exact Hia|]. lia.
  - intros q' Hq'. apply elem_of_app in Hq' as [Hq'|Hq'].
    + destruct (Hq q' Hq') as (i & m & Hi & Hm).
      exists i, m. split; [|exact Hm]. apply lookup_app_l_Some, Hi.
    + apply list_elem_of_singleton in Hq' as ->.
      assert (a ∈ Chat.mensagens (Sessao.chat s) ++ [u; a]) as Hin.
      { apply elem_of_app. right. apply elem_of_cons. right.
        apply list_elem_of_singleton. reflexivity. }
      apply list_elem_of_lookup_1 in Hin as (i & Hi).
      exists i, a. split; [exact Hi|]. split; [symmetry; exact Hqa|].
      injection Hfa as Ht Hca _ _. unfold Sessao.pendente. rewrite Hca. auto.
  - rewrite fmap_app. apply NoDup_app. split; [exact Ha|]. split.
    + intros x Hx Hx'. apply list_elem_of_fmap in Hx as (q' & -> & Hq').
      apply list_elem_of_singleton in Hx'. simpl in Hx'.
      destruct (Hq q' Hq') as (i & m & Hi & Hm & _).
      apply (Hfa' m); [eapply list_elem_of_lookup_2, Hi|]. congruence.
    + apply NoDup_singleton.
Qed.

Lemma Inv_concluida (s s' : Sessao.Sys) q resto f :
  Inv s -> Sessao.retirar (alvo q) (Sessao.emVoo s) = Some (q, resto) ->
  Concluida s q resto f s' -> Inv s'.
Proof.
  intros (Hnd & Hk & Hq & Ha) Hr Hc.
  destruct (concluida_f _ _ _ _ _ Hc) as (Hid & _ & _).
  destruct Hc as (Hl & He & Hn & _ & _).
  destruct (retirar_Some _ _ _ _ Hr) as (l1 & l2 & Hl12 & -> & _).
  rewrite Hl12, fmap_app, fmap_cons in Ha.
  apply NoDup_app in Ha as (Ha1 & Ha12 & Ha2).
  apply NoDup_cons in Ha2 as (Hq2 & Ha2).
  unfold Inv. rewrite Hl, He, Hn.
  split; [|split; [|split]].
  - rewrite map_ids by exact Hid. exact Hnd.
  - intros m Hm. apply list_elem_of_fmap in Hm as (x & -> & Hx).
    destruct (Hk x Hx) as (k & t & Hidx & Hle). exists k, t.
    split; [|exact Hle].
    destruct (String.eqb _ _); [rewrite Hid|]; exact Hidx.
  - intros q' Hq'.
    assert (q' ∈ Sessao.emVoo s) as Hin.
    { rewrite Hl12. apply elem_of_app. apply elem_of_app in Hq' as [H|H];
        [left; exact H | right; apply elem_of_cons; right; exact H]. }
    destruct (Hq q' Hin) as (i & m & Hi & Hm & Hrest).
    exists i, m. split; [|split; [exact Hm | exact Hrest]].
    apply map_lookup_ne; [exact Hi|]. rewrite Hm. intros E.
    apply elem_of_app in Hq' as [H|H].
    + apply (Ha12 (alvo q')); [apply list_elem_of_fmap_2, H|].
      rewrite E. apply elem_of_cons. left. reflexivity.
    + apply Hq2. rewrite <- E. apply list_elem_of_fmap_2, H.
  - rewrite fmap_app. apply NoDup_app. split; [exact Ha1|].
    split; [|exact Ha2].
    intros x Hx Hx'. apply (Ha12 x Hx). apply elem_of_cons. right. exact Hx'.
Qed.

Lemma Inv_inalterada (s s' : Sessao.Sys) : Inv s -> Inalterada s s' -> Inv s'.
Proof.
  intros H (Hl & He & Hn & _). unfold Inv. rewrite Hl, He, Hn. exact H.
Qed.

Lemma passo_Inv (ev : Sessao.Evento) (s s' : Sessao.Sys) :
  Inv s -> Sessao.passo ev s = Some s' -> Inv s'.
Proof.
  intros HI H.
  destruct (passo_casos _ _ _ H)
    as [(_ & r & p & st' & q & u & a & -> & Hs)
       |[(_ & q & resto & f & Hr & Hc & _)|(_ & _ & Hu)]].
  - eapply Inv_submetida; eassumption.
  - eapply Inv_concluida; eassumption.
  - eapply Inv_inalterada; eassumption.
Qed.

Lemma executar_Inv (evs : list Sessao.Evento) (s s' : Sessao.Sys) :
  Inv s -> Sessao.executar evs s = Some s' -> Inv s'.
Proof.
  revert s. induction evs as [|ev evs IH]; intros s HI H; simpl in H.
  - injection H as <-. exact HI.
  - destruct (Sessao.passo ev s) as [s1|] eqn:E; [|discriminate].
    simpl in H. eapply IH; [|exact H]. eapply passo_Inv; eassumption.
Qed.

(** In a session, the completion of a call in flight rewrites one entry
    of the log, the pending entry the call targets, and no other. *)
Lemma resolucao_unica (s : Sessao.Sys) (q : Pedido) :
  Inv s -> q ∈ Sessao.emVoo s ->
  exists i m,
    Sessao.log s !! i = Some m /\ Msg.id m = alvo q /\
    Sessao.pendente m = true /\
    (forall res, exists s',
       Sessao.passo (Sessao.Next (alvo q) res) s = Some s' /\
       Sessao.log s' = <[i := Chat.com_resultado res (prov q) m]> (Sessao.log s)) /\
    (forall e, exists s',
       Sessao.passo (Sessao.Falha (alvo q) e) s = Some s' /\
       Sessao.log s' = <[i := Chat.com_erro e m]> (Sessao.log s)).
Proof.
  intros (Hnd & Hk & Hq & Ha) Hin.
  destruct (Hq q Hin) as (i & m & Hi & Hm & Hp & _).
  destruct (retirar_elem _ _ Ha Hin) as (resto & Hr).
  exists i, m. split; [exact Hi|]. split; [exact Hm|]. split; [exact Hp|].
  split.
  - intros res. eexists. split; [simpl; rewrite Hr; reflexivity|].
    unfold Sessao.log. simpl.
    apply (map_insert (Chat.com_resultado res (prov q))); auto.
  - intros e. eexists. split; [simpl; rewrite Hr; reflexivity|].
    unfold Sessao.log. simpl.
    apply (map_insert (Chat.com_erro e)); auto.
Qed.

(* ------------------------------------------------------------------ *)
(** *** The growth of the log                                          *)
(* ------------------------------------------------------------------ *)

Lemma passo_length (ev : Sessao.Evento) (s s' : Sessao.Sys) :
  Sessao.passo ev s = Some s' ->
  List.length (Sessao.log s')
  = (List.length (Sessao.log s) + 2 * submissoes [ev])%nat.
Proof.
  intros H.
  destruct (passo_casos _ _ _ H)
    as [(Es & r & p & st' & q & u & a & -> & Hs)
       |[(Es & q & resto & f & Hr & Hc & _)|(Es & _ & Hu)]];
    unfold submissoes; simpl; rewrite Es; simpl.
  - destruct Hs as (Hl & _). unfold Sessao.log. simpl. rewrite Hl.
    rewrite length_app. reflexivity.
  - destruct Hc as (Hl & _). rewrite Hl, length_fmap. lia.
  - destruct Hu as (Hl & _). rewrite Hl. lia.
Qed.

Lemma submissoes_cons (ev : Sessao.Evento) (evs : list Sessao.Evento) :
  submissoes (ev :: evs) = (submissoes [ev] + submissoes evs)%nat.
Proof. unfold submissoes. simpl. destruct (submissao ev); reflexivity. Qed.

Lemma executar_length (evs : list Sessao.Evento) (s s' : Sessao.Sys) :
  Sessao.executar evs s = Some s' ->
  List.length (Sessao.log s')
  = (List.length (Sessao.log s) + 2 * submissoes evs)%nat.
Proof.
  revert s. induction evs as [|ev evs IH]; intros s H; simpl in H.
  - injection H as <-. unfold submissoes. simpl. lia.
  - destruct (Sessao.passo ev s) as [s1|] eqn:E; [|discriminate].
    simpl in H. rewrite (IH _ H), (passo_length _ _ _ E), (submissoes_cons ev evs). lia.
Qed.

(** A sequence of submissions always runs, and appends to the log. *)
Lemma executar_submissoes (evs : list Sessao.Evento) (s : Sessao.Sys) :
  forallb submissao evs = true ->
  exists s' novas,
    Sessao.executar evs s = Some s' /\
    Sessao.log s' = Sessao.log s ++ novas /\
    List.length novas = (2 * List.length evs)%nat.
Proof.
  revert s. induction evs as [|ev evs IH]; intros s H.
  - exists s, []. rewrite app_nil_r. auto.
  - simpl in H. apply andb_prop in H as [Hev Hevs].
    destruct (passo_submissao ev s Hev) as (r & p & st' & q & u & a & Hp & Hs).
    destruct (IH (Sessao.emitir (st', q) s) Hevs) as (s' & novas & He & Hl & Hn).
    exists s', ([u; a] ++ novas). simpl. rewrite Hp. simpl.
    split; [exact He|]. split.
    + rewrite Hl. unfold Sessao.log at 1. simpl.
      destruct Hs as (-> & _). rewrite <- app_assoc. reflexivity.
    + simpl. rewrite Hn. lia.
Qed.

(** C1: a submission, by text or by file, appends two entries to the log
    and changes no entry that is in it: first the user message (with the
    text and no attachment for a text, with the attachment {name, size}
    and no text for a file), then the loading message of the assistant
    with [carregando] true, which the call issued targets. A sequence of
    submissions grows the log by two entries each, and in any session the
    log has grown by two entries per submission. In a session, the
    completion of a call in flight, by success or by error, rewrites the
    one pending entry its submission created and leaves the rest of the
    log as it is. *)
Theorem C1_submission_appends_two :
  (forall (c : string) (p : AIProvider) (r : Relogio) (st : Chat.State),
     exists u a,
       Chat.mensagens (fst (Chat.onEnviarTexto c p r st))
         = Chat.mensagens st ++ [u; a] /\
       (Msg.tipo u, Msg.conteudo u, Msg.arquivo u) = (user, Some c, None) /\
       (Msg.tipo a, Msg.carregando a, Msg.resultado a) = (ai, Some true, None) /\
       alvo (snd (Chat.onEnviarTexto c p r st)) = Msg.id a) /\
  (forall (arq : File) (p : AIProvider) (r : Relogio) (st : Chat.State),
     exists u a,
       Chat.mensagens (fst (Chat.onEnviarArquivo arq p r st))
         = Chat.mensagens st ++ [u; a] /\
       (Msg.tipo u, Msg.conteudo u, Msg.arquivo u)
         = (user, None,
            Some {| nome := Arq.name arq; tamanho := Arq.size arq |}) /\
       (Msg.tipo a, Msg.carregando a, Msg.resultado a) = (ai, Some true, None) /\
       alvo (snd (Chat.onEnviarArquivo arq p r st)) = Msg.id a) /\
  (forall (evs : list Sessao.Evento) (s : Sessao.Sys),
     forallb submissao evs = true ->
     exists s' novas,
       Sessao.executar evs s = Some s' /\
       Sessao.log s' = Sessao.log s ++ novas /\
       List.length novas = (2 * List.length evs)%nat) /\
  (forall (evs : list Sessao.Evento) (s s' : Sessao.Sys),
     Sessao.executar evs s = Some s' ->
     List.length (Sessao.log s')
     = (List.length (Sessao.log s) + 2 * submissoes evs)%nat) /\
  (forall (ls : list (string * string)) (evs : list Sessao.Evento)
          (s : Sessao.Sys) (j : nat) (q : Pedido),
     Sessao.executar evs (Sessao.inicial ls) = Some s ->
     Sessao.emVoo s !! j = Some q ->
     exists i m,
       Sessao.log s !! i = Some m /\ Msg.id m = alvo q /\
       Sessao.pendente m = true /\
       (forall res, exists s',
          Sessao.passo (Sessao.Next (alvo q) res) s = Some s' /\
          Sessao.log s'
            = <[i := Chat.com_resultado res (prov q) m]> (Sessao.log s)) /\
       (forall e, exists s',
          Sessao.passo (Sessao.Falha (alvo q) e) s = Some s' /\
          Sessao.log s' = <[i := Chat.com_erro e m]> (Sessao.log s))).
Proof.
  split; [|split; [|split; [|split]]].
  - intros c p r st.
    destruct (onEnviarTexto_submetida c p r st)
      as (u & a & (Hl & _ & _ & _ & _ & Hu & Ha & Hq & _) & Hc & Hf & _).
    exists u, a. injection Hu as Hu1 _ _. injection Ha as Ha1 Ha2 Ha3 _.
    rewrite Hl, Hu1, Hc, Hf, Ha1, Ha2, Ha3, Hq. auto.
  - intros arq p r st.
    destruct (onEnviarArquivo_submetida arq p r st)
      as (u & a & (Hl & _ & _ & _ & _ & Hu & Ha & Hq & _) & Hc & Hf & _).
    exists u, a. injection Hu as Hu1 _ _. injection Ha as Ha1 Ha2 Ha3 _.
    rewrite Hl, Hu1, Hc, Hf, Ha1, Ha2, Ha3, Hq. auto.
  - exact executar_submissoes.
  - exact executar_length.
  - intros ls evs s j q He Hj.
    apply resolucao_unica.
    + eapply executar_Inv; [apply Inv_inicial | exact He].
    + eapply list_elem_of_lookup_2, Hj.
Qed.

Lemma C1_submission_appends_two_witness :
  exists i m,
    Sessao.log (Sessao.emitir
                  (Chat.onEnviarTexto pedido_123 openai relogio1 Chat.inicial)
                  (Sessao.inicial [])) !! i = Some m /\
    Msg.id m = id1 /\ Sessao.pendente m = true.
Proof.
  destruct (proj2 (proj2 (proj2 (proj2 C1_submission_appends_two))) []
              [ev_texto1]
              (Sessao.emitir
                 (Chat.onEnviarTexto pedido_123 openai relogio1 Chat.inicial)
                 (Sessao.inicial []))
              0%nat pedido1 eq_refl eq_refl)
    as (i & m & Hi & Hm & Hp & _).
  exists i, m. split; [exact Hi|]. split; [exact Hm | exact Hp].
Defined.

(* ------------------------------------------------------------------ *)
(** *** The outcomes of the resolved entries                           *)
(* ------------------------------------------------------------------ *)

Section Outcomes.

Variable Q : ClassificacaoResultado -> Prop.

Lemma Resolvidas_passo (ev : Sessao.Evento) (s s' : Sessao.Sys) :
  Resolvidas Q (Sessao.log s) -> Forall Q (respostas [ev]) ->
  Sessao.passo ev s = Some s' -> Resolvidas Q (Sessao.log s').
Proof.
  intros HR HQ H.
  destruct (passo_casos _ _ _ H)
    as [(_ & r & p & st' & q & u & a & -> & Hs)
       |[(_ & q & resto & f & Hr & Hc & Hf)|(_ & _ & Hu)]].
  - destruct Hs as (Hl & _ & _ & _ & _ & Hu & Ha & _).
    injection Hu as _ Hu _. injection Ha as _ Ha _ _.
    unfold Sessao.log. simpl. rewrite Hl. intros m Hm Hres.
    apply elem_of_app in Hm as [Hm|Hm]; [exact (HR m Hm Hres)|].
    unfold Sessao.resolvida in Hres.
    apply elem_of_cons in Hm as [->|Hm].
    + rewrite Hu in Hres. discriminate.
    + apply list_elem_of_singleton in Hm as ->. rewrite Ha in Hres. discriminate.
  - destruct Hc as (Hl & _). rewrite Hl. intros m Hm Hres.
    apply list_elem_of_fmap in Hm as (x & -> & Hx).
    destruct (String.eqb (Msg.id x) (alvo q)); [|exact (HR x Hx Hres)].
    destruct Hf as [(res & -> & ->)|(e & -> & ->)].
    + exists res. split; [reflexivity|]. left.
      simpl in HQ. apply Forall_cons in HQ as [HQ _]. exact HQ.
    + exists (Chat.resultado_erro e). split; [reflexivity|]. right. eauto.
  - destruct Hu as (Hl & _). rewrite Hl. exact HR.
Qed.

Lemma respostas_cons (ev : Sessao.Evento) (evs : list Sessao.Evento) :
  respostas (ev :: evs) = respostas [ev] ++ respostas evs.
Proof. destruct ev; reflexivity. Qed.

Lemma Resolvidas_executar (evs : list Sessao.Evento) (s s' : Sessao.Sys) :
  Resolvidas Q (Sessao.log s) -> Forall Q (respostas evs) ->
  Sessao.executar evs s = Some s' -> Resolvidas Q (Sessao.log s').
Proof.
  revert s. induction evs as [|ev evs IH]; intros s HR HQ H; simpl in H.
  - injection H as <-. exact HR.
  - destruct (Sessao.passo ev s) as [s1|] eqn:E; [|discriminate].
    simpl in H. rewrite respostas_cons in HQ. apply Forall_app in HQ as [H1 H2].
    eapply IH; [|exact H2|exact H]. eapply Resolvidas_passo; eassumption.
Qed.

End Outcomes.

Lemma Resolvidas_inicial Q (ls : list (string * string)) :
  Resolvidas Q (Sessao.log (Sessao.inicial ls)).
Proof. intros m Hm. apply elem_of_nil in Hm as []. Qed.

(** C4 (as the code has it): in a session every resolved entry has an
    outcome, never a null one: the outcome written for an error, whose
    confidence is 0, or an outcome delivered by the service, stored as
    delivered. The confidence of a delivered outcome is not checked: the
    outcomes of the resolved entries have a confidence within [0,1] when
    those delivered have. *)
Theorem C4_resolved_outcomes (ls : list (string * string))
    (evs : list Sessao.Evento) (s : Sessao.Sys) (i : nat) (m : ChatMessage) :
  Sessao.executar evs (Sessao.inicial ls) = Some s ->
  Sessao.log s !! i = Some m ->
  Sessao.resolvida m = true ->
  exists r,
    Msg.resultado m = Some r /\
    (In r (respostas evs) \/
     exists e, r = Chat.resultado_erro e /\ confianca r = 0%float) /\
    (forallb (fun x => em_intervalo (confianca x)) (respostas evs) = true ->
     em_intervalo (confianca r) = true).
Proof.
  intros He Hi Hres.
  assert (Resolvidas (fun r => In r (respostas evs)) (Sessao.log s)) as HR.
  { eapply Resolvidas_executar; [apply Resolvidas_inicial| |exact He].
    apply Forall_forall. intros x Hx. apply list_elem_of_In, Hx. }
  destruct (HR m (list_elem_of_lookup_2 _ _ _ Hi) Hres) as (r & Hr & Hor).
  exists r. split; [exact Hr|]. split.
  - destruct Hor as [Hin|(e & ->)]; [left; exact Hin|].
    right. exists e. split; reflexivity.
  - intros Hall. destruct Hor as [Hin|(e & ->)]; [|reflexivity].
    rewrite forallb_forall in Hall. exact (Hall r Hin).
Qed.

Lemma C4_resolved_outcomes_witness :
  exists r,
    Msg.resultado (Chat.com_resultado resultado_095 openai carregando1) = Some r /\
    (In r [resultado_095] \/
     exists e, r = Chat.resultado_erro e /\ confianca r = 0%float) /\
    (forallb (fun x => em_intervalo (confianca x)) [resultado_095] = true ->
     em_intervalo (confianca r) = true).
Proof.
  exact (C4_resolved_outcomes [] [ev_texto1; Sessao.Next id1 resultado_095]
           (Sessao.concluir
              (Chat.handleSucesso resultado_095 id1 openai estado1) []
              (Sessao.emitir
                 (Chat.onEnviarTexto pedido_123 openai relogio1 Chat.inicial)
                 (Sessao.inicial [])))
           1%nat (Chat.com_resultado resultado_095 openai carregando1)
           eq_refl eq_refl eq_refl).
Defined.

(** C4 as the specification states it fails: the service delivers an outcome with confidence
    1.5, and the resolved entry holds it. *)
Lemma C4_counterexample :
  exists s m r,
    Sessao.executar [ev_texto1; Sessao.Next id1 resultado_fora]
      (Sessao.inicial []) = Some s /\
    Sessao.log s !! 1%nat = Some m /\
    Sessao.resolvida m = true /\
    Msg.resultado m = Some r /\
    confianca r = 1.5%float /\
    em_intervalo (confianca r) = false.
Proof.
  eexists. eexists. eexists.
  split; [vm_compute; reflexivity|].
  split; [reflexivity|]. repeat split.
Qed.

(* ------------------------------------------------------------------ *)
(** *** The busy flag                                                  *)
(* ------------------------------------------------------------------ *)

Lemma Ocupado_inicial (ls : list (string * string)) : Ocupado (Sessao.inicial ls).
Proof.
  split; [simpl; lia|]. split.
  - intros m Hm. apply elem_of_nil in Hm as [].
  - intros H. destruct H. reflexivity.
Qed.

(** A step keeps [Ocupado] when submissions start only while the
    controller is not busy. *)
Lemma passo_Ocupado (ev : Sessao.Evento) (s s' : Sessao.Sys) :
  Ocupado s ->
  (submissao ev = true -> Chat.carregando (Sessao.chat s) = false) ->
  Sessao.passo ev s = Some s' -> Ocupado s'.
Proof.
  intros (Hlen & Hpend & Hbusy) Hgate H.
  destruct (passo_casos _ _ _ H)
    as [(Es & r & p & st' & q & u & a & -> & Hs)
       |[(_ & q & resto & f & Hr & Hc & _)|(_ & _ & Hu)]].
  - assert (Sessao.emVoo s = []) as Hnil.
    { destruct (Sessao.emVoo s) eqn:E; [reflexivity|].
      rewrite Hbusy in Hgate by discriminate. specialize (Hgate Es). discriminate. }
    destruct Hs as (Hl & _ & Hc & _ & _ & Hu & Ha & Hq & _).
    injection Hu as _ Hu _.
    unfold Ocupado, Sessao.log, Sessao.emitir. simpl. rewrite Hnil, Hl.
    split; [simpl; lia|]. split; [|intros _; exact Hc].
    intros m Hm Hp. exists q. split; [apply list_elem_of_singleton; reflexivity|].
    apply elem_of_app in Hm as [Hm|Hm].
    + destruct (Hpend m Hm Hp) as (q' & Hq' & _). rewrite Hnil in Hq'.
      apply elem_of_nil in Hq' as [].
    + apply elem_of_cons in Hm as [->|Hm].
      * unfold Sessao.pendente in Hp. rewrite Hu in Hp. discriminate.
      * apply list_elem_of_singleton in Hm as ->. exact Hq.
  - destruct (concluida_f _ _ _ _ _ Hc) as (_ & Hfp & _).
    destruct Hc as (Hl & He & _ & _ & _).
    destruct (retirar_Some _ _ _ _ Hr) as (l1 & l2 & Hl12 & -> & _).
    assert (l1 = [] /\ l2 = []) as [-> ->].
    { rewrite Hl12, length_app in Hlen. simpl in Hlen.
      destruct l1, l2; simpl in Hlen; try lia. auto. }
    unfold Ocupado. rewrite Hl, He. simpl.
    split; [lia|]. split; [|intros []; reflexivity].
    intros m Hm Hp. exfalso.
    apply list_elem_of_fmap in Hm as (x & -> & Hx).
    destruct (String.eqb (Msg.id x) (alvo q)) eqn:E.
    + rewrite Hfp in Hp. discriminate.
    + destruct (Hpend x Hx Hp) as (q' & Hq' & Hid).
      rewrite Hl12 in Hq'. apply list_elem_of_singleton in Hq' as ->.
      rewrite Hid, String.eqb_refl in E. discriminate.
  - destruct Hu as (Hl & He & _ & Hc). unfold Ocupado.
    rewrite Hl, He, Hc. auto.
Qed.

Lemma executar_Ocupado (evs : list Sessao.Evento) (s s' : Sessao.Sys) :
  Ocupado s -> uma_de_cada_vez evs s = true ->
  Sessao.executar evs s = Some s' -> Ocupado s'.
Proof.
  revert s. induction evs as [|ev evs IH]; intros s HO Hg H; simpl in H.
  - injection H as <-. exact HO.
  - cbn [uma_de_cada_vez] in Hg. apply andb_prop in Hg as [Hg1 Hg2].
    destruct (Sessao.passo ev s) as [s1|] eqn:E; [|discriminate].
    simpl in H. apply (IH s1); [|exact Hg2|exact H].
    apply (passo_Ocupado ev s s1 HO); [|exact E].
    intros Es. rewrite Es in Hg1. simpl in Hg1.
    destruct (Chat.carregando (Sessao.chat s)); [discriminate | reflexivity].
Qed.

(** C7 (as the code has it): the busy flag is set by every submission and
    reset by every completion, of whichever call. In a session where
    every submission starts while the flag is false, the flag is true
    whenever an entry of the log is pending, and one call is then in
    flight. The controller does not see to that condition; the chat
    input does its part, emitting no submission while its [carregando]
    input is true. *)
Theorem C7_busy_while_pending :
  (forall c p r st, Chat.carregando (fst (Chat.onEnviarTexto c p r st)) = true) /\
  (forall a p r st, Chat.carregando (fst (Chat.onEnviarArquivo a p r st)) = true) /\
  (forall res messageId p st,
     Chat.carregando (Chat.handleSucesso res messageId p st) = false) /\
  (forall e messageId st,
     Chat.carregando (Chat.handleErro e messageId st) = false) /\
  (forall (ls : list (string * string)) (evs : list Sessao.Evento)
          (s : Sessao.Sys) (i : nat) (m : ChatMessage),
     Sessao.executar evs (Sessao.inicial ls) = Some s ->
     uma_de_cada_vez evs (Sessao.inicial ls) = true ->
     Sessao.log s !! i = Some m ->
     Sessao.pendente m = true ->
     Chat.carregando (Sessao.chat s) = true /\
     List.length (Sessao.emVoo s) = 1%nat) /\
  (forall (i : ChatInput.Inputs) (st : ChatInput.State),
     ChatInput.in_carregando i = true ->
     ChatInput.enviar i st = (st, None)).
Proof.
  repeat (split; [reflexivity|]). split.
  - intros ls evs s i m He Hg Hi Hp.
    destruct (executar_Ocupado evs (Sessao.inicial ls) s (Ocupado_inicial ls) Hg He)
      as (Hlen & Hpend & Hbusy).
    destruct (Hpend m (list_elem_of_lookup_2 _ _ _ Hi) Hp) as (q & Hq & _).
    destruct (Sessao.emVoo s) as [|x l] eqn:E.
    + apply elem_of_nil in Hq as [].
    + split; [apply Hbusy; discriminate|]. simpl in *. lia.
  - intros i st Hc. unfold ChatInput.enviar, ChatInput.podeEnviar.
    rewrite Hc. reflexivity.
Qed.

Lemma C7_busy_while_pending_witness :
  Chat.carregando (Sessao.chat sessao3) = true /\
  List.length (Sessao.emVoo sessao3) = 1%nat.
Proof.
  apply (proj1 (proj2 (proj2 (proj2 (proj2 C7_busy_while_pending)))) []
           [ev_texto1; Sessao.Next id1 resultado_095; ev_arquivo2]
           sessao3 3%nat carregando3).
  - vm_compute. reflexivity.
  - vm_compute. reflexivity.
  - reflexivity.
  - reflexivity.
Defined.

(** C7 as the specification states it fails at the controller: a second submission starts
    while the first is outstanding, the first call completes, and the
    flag is false while the entry of the second is pending and its call
    is in flight. *)
Lemma C7_counterexample :
  exists s m,
    Sessao.executar [ev_texto1; ev_texto2; Sessao.Next id1 resultado_095]
      (Sessao.inicial []) = Some s /\
    Sessao.log s !! 3%nat = Some m /\
    Msg.id m = id2 /\
    Sessao.pendente m = true /\
    alvo <$> Sessao.emVoo s = [id2] /\
    Chat.carregando (Sessao.chat s) = false.
Proof.
  eexists. eexists. split; [vm_compute; reflexivity|].
  split; [reflexivity|]. repeat split.
Qed.

(* ------------------------------------------------------------------ *)
(** *** The browser's storage                                          *)
(* ------------------------------------------------------------------ *)

Lemma passo_localStorage (ev : Sessao.Evento) (s : Sessao.Sys) :
  match Sessao.passo ev s with
  | Some s' => Sessao.localStorage s' = Sessao.localStorage s
  | None => True
  end.
Proof.
  destruct ev; simpl; try reflexivity;
    try (destruct (Sessao.retirar _ _) as [[q resto]|]; simpl; auto);
    destruct (Sessao.providersEmVoo s); simpl; auto.
Qed.

Lemma executar_localStorage (evs : list Sessao.Evento) (s : Sessao.Sys) :
  match Sessao.executar evs s with
  | Some s' => Sessao.localStorage s' = Sessao.localStorage s
  | None => True
  end.
Proof.
  revert s. induction evs as [|ev evs IH]; intros s; simpl; [reflexivity|].
  pose proof (passo_localStorage ev s) as H1.
  destruct (Sessao.passo ev s) as [s1|]; simpl; [|exact I].
  specialize (IH s1). destruct (Sessao.executar evs s1); [congruence | exact I].
Qed.

(** C6, what the code does: the controller keeps the log in memory only.
    The log of a new session is empty whatever the storage holds, and no
    event writes the storage: after a submission, and after its
    resolution, the storage is what it was. *)
Theorem C6_storage_never_written :
  (forall ls : list (string * string),
     Sessao.log (Sessao.inicial ls) = []) /\
  (forall (evs : list Sessao.Evento) (s : Sessao.Sys),
     match Sessao.executar evs s with
     | Some s' => Sessao.localStorage s' = Sessao.localStorage s
     | None => True
     end) /\
  (exists s1 s2,
     Sessao.passo ev_texto1 (Sessao.inicial []) = Some s1 /\
     List.length (Sessao.log s1) = 2%nat /\
     Sessao.localStorage s1 = [] /\
     Sessao.passo (Sessao.Next id1 resultado_095) s1 = Some s2 /\
     (Sessao.resolvida <$> Sessao.log s2 !! 1%nat) = Some true /\
     Sessao.localStorage s2 = []).
Proof.
  split; [reflexivity|]. split; [exact executar_localStorage|].
  eexists. eexists. split; [reflexivity|].
  split; [reflexivity|]. split; [reflexivity|].
  split; [vm_compute; reflexivity|]. split; reflexivity.
Qed.

Lemma C3_error_outcome_witness :
  Chat.mensagens (Chat.handleErro rate_limited id1 estado1) !! 1%nat
    = Some (Chat.com_erro rate_limited carregando1) /\
  confianca (Chat.resultado_erro rate_limited) = 0%float /\
  Js.str_includes "rate limited"
    (resposta_sugerida (Chat.resultado_erro rate_limited)) = true /\
  resposta_sugerida (Chat.resultado_erro rate_limited)
    = "❌ Erro: rate limited"%string.
Proof.
  destruct (C3_error_outcome rate_limited id1 estado1 1%nat carregando1
              eq_refl eq_refl)
    as (H1 & _ & _ & _ & _ & _ & H2 & _ & H3 & H4 & _).
  split; [exact H1|]. split; [exact H2|].
  split; [apply H3; reflexivity | apply H4; reflexivity].
Defined.

Lemma C10_error_category_witness :
  categoria <$> Msg.resultado (Chat.com_erro sem_corpo carregando1)
  = Some Improdutivo.
Proof.
  apply (proj1 (proj2 (proj2 (C10_error_category sem_corpo))) id1 estado1 1%nat).
  - reflexivity.
  - reflexivity.
Defined.

(* ================================================================== *)
(** ** More on sessions                                                 *)
(* ================================================================== *)

Lemma onEnviarTexto_par (c : string) (p : AIProvider) (r : Relogio)
    (st : Chat.State) :
  exists u a,
    Submetida st r p (fst (Chat.onEnviarTexto c p r st))
      (snd (Chat.onEnviarTexto c p r st)) u a /\ Par p u a.
Proof.
  eexists. eexists. unfold Submetida, Par, entrada_user, entrada_ai,
    Chat.onEnviarTexto. simpl.
  repeat split; try reflexivity; eauto.
Qed.

Lemma onEnviarArquivo_par (arq : File) (p : AIProvider) (r : Relogio)
    (st : Chat.State) :
  exists u a,
    Submetida st r p (fst (Chat.onEnviarArquivo arq p r st))
      (snd (Chat.onEnviarArquivo arq p r st)) u a /\ Par p u a.
Proof.
  eexists. eexists. unfold Submetida, Par, entrada_user, entrada_ai,
    Chat.onEnviarArquivo. simpl.
  repeat split; try reflexivity; eauto.
Qed.

(** The cases of a step, with the two entries of a submission told. *)
Lemma passo_casos_par (ev : Sessao.Evento) (s s' : Sessao.Sys) :
  Sessao.passo ev s = Some s' ->
  (exists r p st' q u a,
     s' = Sessao.emitir (st', q) s /\
     Submetida (Sessao.chat s) r p st' q u a /\ Par p u a) \/
  (exists q resto f,
     Sessao.retirar (alvo q) (Sessao.emVoo s) = Some (q, resto) /\
     Concluida s q resto f s') \/
  Inalterada s s'.
Proof.
  intros H.
  destruct (submissao ev) eqn:Es.
  - left. destruct ev as [c p r|arq p r| | | | | |]; try discriminate;
      unfold Sessao.passo in H; injection H as <-.
    + destruct (onEnviarTexto_par c p r (Sessao.chat s)) as (u & a & Hs & Hp).
      exists r, p, (fst (Chat.onEnviarTexto c p r (Sessao.chat s))),
        (snd (Chat.onEnviarTexto c p r (Sessao.chat s))), u, a.
      rewrite <- surjective_pairing. auto.
    + destruct (onEnviarArquivo_par arq p r (Sessao.chat s)) as (u & a & Hs & Hp).
      exists r, p, (fst (Chat.onEnviarArquivo arq p r (Sessao.chat s))),
        (snd (Chat.onEnviarArquivo arq p r (Sessao.chat s))), u, a.
      rewrite <- surjective_pairing. auto.
  - right.
    destruct (passo_casos _ _ _ H)
      as [(Es' & _)|[(_ & q & resto & f & Hr & Hc & _)|(_ & _ & Hu)]].
    + congruence.
    + left. exists q, resto, f. auto.
    + right. exact Hu.
Qed.

(** The ids a submission makes are the ids of no entry of the log. *)
Lemma submetida_fresca (s : Sessao.Sys) r p st' q u a :
  Inv s -> Submetida (Sessao.chat s) r p st' q u a ->
  forall m, m ∈ Sessao.log s -> Msg.id m <> Msg.id u /\ Msg.id m <> Msg.id a.
Proof.
  intros (_ & Hk & _) (_ & _ & _ & Hu & Ha & _) m Hm.
  destruct (Hk m Hm) as (k & t & Hid & Hle).
  split; intros E; rewrite Hid in E; [rewrite Hu in E | rewrite Ha in E];
    apply id_texto_inj in E; lia.
Qed.

(** What the rewriting of a completion does to an entry. *)
Lemma concluida_campos (s : Sessao.Sys) q resto f s' :
  Concluida s q resto f s' ->
  forall m,
    (Msg.id (f m), Msg.tipo (f m), Msg.conteudo (f m), Msg.arquivo (f m),
     Msg.timestamp (f m), Msg.emailOriginal (f m))
    = (Msg.id m, Msg.tipo m, Msg.conteudo m, Msg.arquivo m,
       Msg.timestamp m, Msg.emailOriginal m) /\
    Msg.carregando (f m) = Some false /\
    (exists r, Msg.resultado (f m) = Some r) /\
    (Msg.provider (f m) = Some (prov q) \/ Msg.provider (f m) = Msg.provider m).
Proof.
  intros (_ & _ & _ & _ & [(res & ->)|(e & ->)]) m; simpl; eauto 10.
Qed.

(** In a session, the entry a completion rewrites is the pending entry
    the call targets. *)
Lemma alvo_unico (s : Sessao.Sys) (q : Pedido) (i : nat) (x : ChatMessage) :
  Inv s -> q ∈ Sessao.emVoo s -> Sessao.log s !! i = Some x ->
  Msg.id x = alvo q ->
  Sessao.pendente x = true /\ Msg.tipo x = ai.
Proof.
  intros (Hnd & _ & Hq & _) Hin Hi Hx.
  destruct (Hq q Hin) as (j & m & Hj & Hm & Hp & Ht).
  assert (i = j) as ->.
  { apply (NoDup_lookup (Msg.id <$> Sessao.log s) i j (alvo q) Hnd);
      rewrite list_lookup_fmap; [rewrite Hi | rewrite Hj]; simpl; congruence. }
  assert (x = m) as -> by congruence. auto.
Qed.

Lemma retirar_in (messageId : string) (l : list Pedido) q resto :
  Sessao.retirar messageId l = Some (q, resto) ->
  q ∈ l /\ (forall x, x ∈ resto -> x ∈ l).
Proof.
  intros H. destruct (retirar_Some _ _ _ _ H) as (l1 & l2 & -> & -> & _).
  split.
  - apply elem_of_app. right. apply elem_of_cons. left. reflexivity.
  - intros x Hx. apply elem_of_app. apply elem_of_app in Hx as [Hx|Hx];
      [left | right; apply elem_of_cons; right]; exact Hx.
Qed.

Lemma even_S (n : nat) : Nat.even (S n) = negb (Nat.even n).
Proof. rewrite Nat.even_succ, <- Nat.negb_even. reflexivity. Qed.

Lemma Forma_inicial (ls : list (string * string)) : Forma (Sessao.inicial ls).
Proof.
  repeat split; intros; simpl in *; try discriminate;
    match goal with H : [] !! _ = Some _ |- _ => rewrite lookup_nil in H; discriminate end.
Qed.

Lemma Forma_submetida (s : Sessao.Sys) r p st' q u a :
  Forma s -> Submetida (Sessao.chat s) r p st' q u a -> Par p u a ->
  Forma (Sessao.emitir (st', q) s).
Proof.
  intros (Hc & He & Hf & Hpar) (Hl & Hc' & _ & Hu & Ha & _) (Pu & Pa & _ & Pe).
  unfold Forma, Sessao.log, Sessao.emitir in *. simpl. rewrite Hl, Hc'.
  set (l := Chat.mensagens (Sessao.chat s)) in *.
  assert (forall i m, (l ++ [u; a]) !! i = Some m ->
            l !! i = Some m \/ (i = List.length l /\ m = u) \/
            (i = S (List.length l) /\ m = a)) as Hcases.
  { intros i m Hi. apply lookup_app_Some in Hi as [Hi|[Hge Hi]]; [auto|].
    right. destruct (i - List.length l)%nat as [|[|n]] eqn:E; simpl in Hi;
      [left | right | discriminate]; injection Hi as <-; split; auto; lia. }
  split; [rewrite length_app; simpl; lia|].
  split; [rewrite length_app; simpl; rewrite Nat.add_comm; simpl; exact He|].
  split.
  - intros i m Hi. destruct (Hcases i m Hi) as [Ho|[[-> ->]|[-> ->]]].
    + exact (Hf i m Ho).
    + rewrite He. split; [|exact Pu]. eexists. rewrite Hu. f_equal. lia.
    + rewrite even_S, He. split; [|exact Pa]. eexists. rewrite Ha. f_equal. lia.
  - intros k u' a' Hu' Ha'.
    destruct (Hcases _ _ Hu') as [Ho|[[Ek ->]|[Ek ->]]].
    + destruct (Hcases _ _ Ha') as [Ho'|[[Ek' ->]|[Ek' ->]]].
      * exact (Hpar k u' a' Ho Ho').
      * apply Nat.even_spec in He as [h He]. lia.
      * apply lookup_lt_Some in Ho. lia.
    + destruct (Hcases _ _ Ha') as [Ho'|[[Ek' ->]|[Ek' ->]]].
      * apply lookup_lt_Some in Ho'. lia.
      * lia.
      * exact Pe.
    + apply Nat.even_spec in He as [h He]. lia.
Qed.

Lemma Forma_concluida (s s' : Sessao.Sys) q resto f :
  Inv s -> Forma s ->
  Sessao.retirar (alvo q) (Sessao.emVoo s) = Some (q, resto) ->
  Concluida s q resto f s' -> Forma s'.
Proof.
  intros HI (Hc & He & Hf & Hpar) Hr HC.
  pose proof (concluida_campos _ _ _ _ _ HC) as Hcampos.
  destruct (retirar_in _ _ _ _ Hr) as [Hq _].
  destruct HC as (Hl & _ & Hn & _ & _).
  unfold Forma. rewrite Hl, Hn, length_fmap.
  split; [exact Hc|]. split; [exact He|]. split.
  - intros i m Hi. apply list_lookup_fmap_Some in Hi as (x & -> & Hx).
    destruct (Hf i x Hx) as ((t & Ht) & Hshape).
    destruct (String.eqb (Msg.id x) (alvo q)) eqn:E; [|eauto].
    apply String.eqb_eq in E.
    destruct (alvo_unico s q i x HI Hq Hx E) as [_ Hai].
    destruct (Hcampos x) as (Hsame & Hcar & Hres & Hprov).
    injection Hsame as Hid Htipo Hcont Harq _ _.
    split; [exists t; congruence|].
    destruct (Nat.even i).
    + destruct Hshape as (Hu & _). congruence.
    + destruct Hshape as (_ & H2 & H3 & (p & H4) & _).
      unfold entrada_ai. rewrite Htipo, Hcont, Harq.
      repeat split; try assumption.
      * destruct Hprov as [->| ->]; eauto.
      * right. auto.
  - intros k u a Hu Ha.
    apply list_lookup_fmap_Some in Hu as (xu & -> & Hxu).
    apply list_lookup_fmap_Some in Ha as (xa & -> & Hxa).
    transitivity (Msg.emailOriginal xa); [|transitivity (Msg.conteudo xu)].
    + destruct (String.eqb (Msg.id xa) (alvo q)); [|reflexivity].
      destruct (Hcampos xa) as (E & _). injection E as _ _ _ _ _ E. exact E.
    + exact (Hpar k xu xa Hxu Hxa).
    + destruct (String.eqb (Msg.id xu) (alvo q)); [|reflexivity].
      destruct (Hcampos xu) as (E & _). injection E as _ _ E _ _ _.
      symmetry. exact E.
Qed.

Lemma Forma_inalterada (s s' : Sessao.Sys) :
  Forma s -> Inalterada s s' -> Forma s'.
Proof.
  intros H (Hl & _ & Hn & _). unfold Forma. rewrite Hl, Hn. exact H.
Qed.

(** The two invariants on ids and on shape, through a run. *)
Lemma executar_Inv_Forma (evs : list Sessao.Evento) (s s' : Sessao.Sys) :
  Inv s -> Forma s -> Sessao.executar evs s = Some s' -> Inv s' /\ Forma s'.
Proof.
  revert s. induction evs as [|ev evs IH]; intros s HI HF H; simpl in H.
  - injection H as <-. auto.
  - destruct (Sessao.passo ev s) as [s1|] eqn:E; [|discriminate].
    simpl in H. apply (IH s1); [eapply passo_Inv; eassumption| |exact H].
    destruct (passo_casos_par _ _ _ E)
      as [(r & p & st' & q & u & a & -> & Hs & Hp)
         |[(q & resto & f & Hr & Hc)|Hu]].
    + eapply Forma_submetida; eassumption.
    + eapply Forma_concluida; eassumption.
    + eapply Forma_inalterada; eassumption.
Qed.

(** X1: in every session the ids of the log are pairwise distinct, the
    id counter is the number of entries of the log, and the entry at
    position [i] has an id made of the counter value [i + 1]. *)
Theorem X1_ids_distinct_and_numbered (ls : list (string * string))
    (evs : list Sessao.Evento) (s : Sessao.Sys) :
  Sessao.executar evs (Sessao.inicial ls) = Some s ->
  NoDup (Msg.id <$> Sessao.log s) /\
  Chat.messageIdCounter (Sessao.chat s) = N.of_nat (List.length (Sessao.log s)) /\
  (forall i m, Sessao.log s !! i = Some m ->
     exists t, Msg.id m = Chat.id_texto (N.of_nat (S i)) t) /\
  (forall i j m m', Sessao.log s !! i = Some m -> Sessao.log s !! j = Some m' ->
     Msg.id m = Msg.id m' -> i = j).
Proof.
  intros H.
  destruct (executar_Inv_Forma evs _ _ (Inv_inicial ls) (Forma_inicial ls) H)
    as ((Hnd & _) & (Hc & _ & Hf & _)).
  split; [exact Hnd|]. split; [exact Hc|]. split.
  - intros i m Hi. exact (proj1 (Hf i m Hi)).
  - intros i j m m' Hi Hj E.
    apply (NoDup_lookup (Msg.id <$> Sessao.log s) i j (Msg.id m) Hnd);
      rewrite list_lookup_fmap; [rewrite Hi | rewrite Hj, E]; reflexivity.
Qed.

Lemma X1_ids_distinct_and_numbered_witness :
  NoDup (Msg.id <$> Chat.mensagens estado1) /\
  Chat.messageIdCounter estado1 = 2%N.
Proof.
  destruct (X1_ids_distinct_and_numbered [] [ev_texto1]
              (Sessao.emitir
                 (Chat.onEnviarTexto pedido_123 openai relogio1 Chat.inicial)
                 (Sessao.inicial [])) eq_refl) as (H1 & H2 & _).
  split; [exact H1 | exact H2].
Defined.

(** X2: in every session the log is a sequence of pairs, a user message
    followed by the entry of the assistant that answers it: the log has
    two entries per submission; the entries at the even positions are
    user messages with a text or an attachment and no outcome; those at
    the odd positions are entries of the assistant with a provider,
    pending without an outcome or resolved with one, and carry the text
    of the user message before them as [emailOriginal]. *)
Theorem X2_log_is_pairs (ls : list (string * string))
    (evs : list Sessao.Evento) (s : Sessao.Sys) :
  Sessao.executar evs (Sessao.inicial ls) = Some s ->
  List.length (Sessao.log s) = (2 * submissoes evs)%nat /\
  Chat.temMensagens (Sessao.chat s) = (0 <? submissoes evs)%nat /\
  (forall i m, Sessao.log s !! i = Some m ->
     if Nat.even i then entrada_user m else entrada_ai m) /\
  (forall k u a, Sessao.log s !! (2 * k)%nat = Some u ->
     Sessao.log s !! (2 * k + 1)%nat = Some a ->
     Msg.emailOriginal a = Msg.conteudo u).
Proof.
  intros H.
  destruct (executar_Inv_Forma evs _ _ (Inv_inicial ls) (Forma_inicial ls) H)
    as (_ & (_ & _ & Hf & Hpar)).
  pose proof (executar_length _ _ _ H) as Hlen. simpl in Hlen.
  split; [exact Hlen|]. split.
  - unfold Chat.temMensagens. fold (Sessao.log s). rewrite Hlen.
    destruct (submissoes evs); reflexivity.
  - split; [|exact Hpar]. intros i m Hi. exact (proj2 (Hf i m Hi)).
Qed.

Lemma X2_log_is_pairs_witness :
  List.length (Chat.mensagens estado1) = 2%nat /\
  Chat.temMensagens estado1 = true.
Proof.
  destruct (X2_log_is_pairs [] [ev_texto1]
              (Sessao.emitir
                 (Chat.onEnviarTexto pedido_123 openai relogio1 Chat.inicial)
                 (Sessao.inicial [])) eq_refl) as (H1 & H2 & _).
  split; [exact H1 | exact H2].
Defined.

(* ------------------------------------------------------------------ *)
(** *** Pending entries and calls in flight                            *)
(* ------------------------------------------------------------------ *)

Section Filtro.

Variable f : ChatMessage -> ChatMessage.
Variable x : string.
Hypothesis f_pend : forall m, Sessao.pendente (f m) = false.

Let g := fun msg : ChatMessage =>
  if String.eqb (Msg.id msg) x then f msg else msg.

Lemma filtro_sem_alvo (L : list ChatMessage) :
  x ∉ Msg.id <$> List.filter Sessao.pendente L ->
  Msg.id <$> List.filter Sessao.pendente (g <$> L)
  = Msg.id <$> List.filter Sessao.pendente L.
Proof.
  induction L as [|m L IH]; [reflexivity|].
  assert (g m = if String.eqb (Msg.id m) x then f m else m) as Hg
    by reflexivity.
  rewrite fmap_cons. cbn [List.filter]. rewrite Hg.
  destruct (String.eqb (Msg.id m) x) eqn:E.
  - rewrite f_pend. apply String.eqb_eq in E.
    destruct (Sessao.pendente m).
    + intros H. destruct H. rewrite fmap_cons, E. apply elem_of_cons. auto.
    + exact IH.
  - destruct (Sessao.pendente m); [|exact IH].
    rewrite !fmap_cons. intros H. f_equal. apply IH.
    intros Hx. apply H. apply elem_of_cons. auto.
Qed.

Lemma filtro_concluido (L : list ChatMessage) (A1 A2 : list string) :
  Msg.id <$> List.filter Sessao.pendente L = A1 ++ x :: A2 ->
  x ∉ A1 -> x ∉ A2 ->
  Msg.id <$> List.filter Sessao.pendente (g <$> L) = A1 ++ A2.
Proof.
  revert A1. induction L as [|m L IH]; intros A1 HL H1 H2.
  - destruct A1; discriminate HL.
  - assert (g m = if String.eqb (Msg.id m) x then f m else m) as Hg
      by reflexivity.
    rewrite fmap_cons. cbn [List.filter] in *. rewrite Hg.
    destruct (String.eqb (Msg.id m) x) eqn:E.
    + rewrite f_pend. apply String.eqb_eq in E.
      destruct (Sessao.pendente m); [|exact (IH A1 HL H1 H2)].
      rewrite fmap_cons in HL. destruct A1 as [|a1 A1].
      * simpl in *. injection HL as _ HL. rewrite filtro_sem_alvo; rewrite HL; auto.
      * simpl in HL. injection HL as HL _. destruct H1.
        apply elem_of_cons. left. congruence.
    + destruct (Sessao.pendente m); [|exact (IH A1 HL H1 H2)].
      rewrite fmap_cons in *. destruct A1 as [|a1 A1].
      * simpl in HL. injection HL as HL _.
        rewrite HL, String.eqb_refl in E. discriminate.
      * simpl in HL. injection HL as -> HL. simpl. f_equal.
        apply IH; [exact HL| |exact H2].
        intros Hx. apply H1. apply elem_of_cons. auto.
Qed.

End Filtro.

Lemma EmVooPendentes_passo (ev : Sessao.Evento) (s s' : Sessao.Sys) :
  Inv s -> EmVooPendentes s -> Sessao.passo ev s = Some s' ->
  EmVooPendentes s'.
Proof.
  intros HI HE H. unfold EmVooPendentes in *.
  destruct (passo_casos _ _ _ H)
    as [(_ & r & p & st' & q & u & a & -> & Hs)
       |[(_ & q & resto & f & Hr & Hc & _)|(_ & _ & Hu)]].
  - destruct Hs as (Hl & _ & _ & _ & _ & Hu & Ha & Hq & _).
    injection Hu as _ Hu _. injection Ha as _ Ha _ _.
    unfold Sessao.log, Sessao.emitir in *. simpl. rewrite Hl.
    rewrite fmap_app, List.filter_app, fmap_app, HE. f_equal.
    simpl. unfold Sessao.pendente. rewrite Hu, Ha. simpl. congruence.
  - destruct (concluida_f _ _ _ _ _ Hc) as (Hid & Hp & _).
    destruct Hc as (Hl & He & _).
    destruct (retirar_Some _ _ _ _ Hr) as (l1 & l2 & Hl12 & -> & _).
    destruct HI as (_ & _ & _ & Ha).
    rewrite Hl12, fmap_app, fmap_cons in Ha, HE.
    apply NoDup_app in Ha as (_ & Ha12 & Ha2).
    apply NoDup_cons in Ha2 as (Hq2 & _).
    rewrite Hl, He, fmap_app. symmetry.
    apply (filtro_concluido f (alvo q) Hp); [symmetry; exact HE| |exact Hq2].
    intros Hx. apply (Ha12 _ Hx). apply elem_of_cons. auto.
  - destruct Hu as (Hl & He & _). rewrite Hl, He. exact HE.
Qed.

(** While the controller is busy a call is in flight. *)
Lemma ocupado_em_voo_passo (ev : Sessao.Evento) (s s' : Sessao.Sys) :
  (Chat.carregando (Sessao.chat s) = true -> Sessao.emVoo s <> []) ->
  Sessao.passo ev s = Some s' ->
  Chat.carregando (Sessao.chat s') = true -> Sessao.emVoo s' <> [].
Proof.
  intros HB H.
  destruct (passo_casos _ _ _ H)
    as [(_ & r & p & st' & q & u & a & -> & Hs)
       |[(_ & q & resto & f & Hr & Hc & _)|(_ & _ & Hu)]].
  - intros _. simpl. destruct (Sessao.emVoo s); discriminate.
  - destruct Hc as (_ & _ & _ & -> & _). discriminate.
  - destruct Hu as (_ & -> & _ & ->). exact HB.
Qed.

Lemma executar_pendentes (evs : list Sessao.Evento) (s s' : Sessao.Sys) :
  Inv s -> EmVooPendentes s ->
  (Chat.carregando (Sessao.chat s) = true -> Sessao.emVoo s <> []) ->
  Sessao.executar evs s = Some s' ->
  EmVooPendentes s' /\
  (Chat.carregando (Sessao.chat s') = true -> Sessao.emVoo s' <> []).
Proof.
  revert s. induction evs as [|ev evs IH]; intros s HI HE HB H; simpl in H.
  - injection H as <-. auto.
  - destruct (Sessao.passo ev s) as [s1|] eqn:E; [|discriminate].
    simpl in H. apply (IH s1); [| | |exact H].
    + eapply passo_Inv; eassumption.
    + eapply EmVooPendentes_passo; eassumption.
    + eapply ocupado_em_voo_passo; eassumption.
Qed.

(** X3: in every session, whatever the order of submissions and
    completions, the calls in flight are the pending entries: their
    targets are the ids of the pending entries of the log, in the order
    of the log, so there are as many of the ones as of the others, and no
    pending entry is without a call that will resolve it. While the busy
    flag is true some entry is pending. *)
Theorem X3_pending_are_in_flight (ls : list (string * string))
    (evs : list Sessao.Evento) (s : Sessao.Sys) :
  Sessao.executar evs (Sessao.inicial ls) = Some s ->
  alvo <$> Sessao.emVoo s
    = Msg.id <$> List.filter Sessao.pendente (Sessao.log s) /\
  List.length (Sessao.emVoo s)
    = List.length (List.filter Sessao.pendente (Sessao.log s)) /\
  (Chat.carregando (Sessao.chat s) = true ->
   exists m, In m (Sessao.log s) /\ Sessao.pendente m = true).
Proof.
  intros H.
  destruct (executar_pendentes evs (Sessao.inicial ls) s) as [HE HB];
    [apply Inv_inicial | reflexivity | discriminate | exact H |].
  split; [exact HE|].
  assert (List.length (Sessao.emVoo s)
          = List.length (List.filter Sessao.pendente (Sessao.log s))) as Hlen.
  { rewrite <- (length_fmap alvo), HE, length_fmap. reflexivity. }
  split; [exact Hlen|].
  intros Hc. specialize (HB Hc).
  destruct (List.filter Sessao.pendente (Sessao.log s)) as [|m l] eqn:Ef.
  - destruct (Sessao.emVoo s); [congruence | discriminate].
  - exists m. apply List.filter_In. rewrite Ef. left. reflexivity.
Qed.

Lemma X3_pending_are_in_flight_witness :
  alvo <$> [pedido1] = Msg.id <$> List.filter Sessao.pendente (Chat.mensagens estado1).
Proof.
  destruct (X3_pending_are_in_flight [] [ev_texto1]
              (Sessao.emitir
                 (Chat.onEnviarTexto pedido_123 openai relogio1 Chat.inicial)
                 (Sessao.inicial [])) eq_refl) as (H1 & _).
  exact H1.
Defined.

(* ------------------------------------------------------------------ *)
(** *** What the log keeps                                             *)
(* ------------------------------------------------------------------ *)

Lemma resto_alvo (s : Sessao.Sys) q resto :
  Inv s -> Sessao.retirar (alvo q) (Sessao.emVoo s) = Some (q, resto) ->
  forall q', q' ∈ resto -> alvo q' <> alvo q.
Proof.
  intros (_ & _ & _ & Ha) Hr q' Hq' E.
  destruct (retirar_Some _ _ _ _ Hr) as (l1 & l2 & Hl12 & -> & _).
  rewrite Hl12, fmap_app, fmap_cons in Ha.
  apply NoDup_app in Ha as (_ & Ha12 & Ha2).
  apply NoDup_cons in Ha2 as (Hq2 & _).
  apply elem_of_app in Hq' as [H|H].
  - apply (Ha12 (alvo q')); [apply list_elem_of_fmap_2, H|].
    rewrite E. apply elem_of_cons. auto.
  - apply Hq2. rewrite <- E. apply list_elem_of_fmap_2, H.
Qed.

Lemma Prov_passo (ev : Sessao.Evento) (s s' : Sessao.Sys) :
  Inv s -> Prov s -> Sessao.passo ev s = Some s' -> Prov s'.
Proof.
  intros HI HP H. unfold Prov in *.
  destruct (passo_casos _ _ _ H)
    as [(_ & r & p & st' & q & u & a & -> & Hs)
       |[(_ & q & resto & f & Hr & Hc & _)|(_ & _ & Hu)]].
  - pose proof (submetida_fresca _ _ _ _ _ _ _ HI Hs) as Hfr.
    destruct HI as (_ & _ & Hq & _).
    destruct Hs as (Hl & _ & _ & Hu & Ha & _ & Hfa & Hqa & Hqp).
    injection Hfa as _ _ _ Hpa.
    unfold Sessao.log, Sessao.emitir in *. simpl. rewrite Hl.
    intros q' m Hq' Hm E.
    apply elem_of_app in Hq' as [Hq'|Hq'].
    + apply elem_of_app in Hm as [Hm|Hm]; [exact (HP q' m Hq' Hm E)|].
      exfalso. destruct (Hq q' Hq') as (i & m0 & Hi & Hm0 & _).
      destruct (Hfr m0 (list_elem_of_lookup_2 _ _ _ Hi)) as [F1 F2].
      apply elem_of_cons in Hm as [->|Hm]; [congruence|].
      apply list_elem_of_singleton in Hm as ->. congruence.
    + apply list_elem_of_singleton in Hq' as ->.
      apply elem_of_app in Hm as [Hm|Hm].
      * exfalso. destruct (Hfr m Hm) as [_ F2]. congruence.
      * apply elem_of_cons in Hm as [->|Hm].
        -- exfalso. rewrite Hqa, Hu, Ha in E. apply id_texto_inj in E. lia.
        -- apply list_elem_of_singleton in Hm as ->. congruence.
  - pose proof (resto_alvo _ _ _ HI Hr) as Hne.
    destruct (concluida_f _ _ _ _ _ Hc) as (Hid & _ & _).
    destruct (retirar_in _ _ _ _ Hr) as [_ Hsub].
    destruct Hc as (Hl & He & _). rewrite Hl, He.
    intros q' m Hq' Hm E.
    apply list_elem_of_fmap in Hm as (x & -> & Hx).
    destruct (String.eqb (Msg.id x) (alvo q)) eqn:Ex.
    + exfalso. apply String.eqb_eq in Ex. rewrite Hid in E.
      apply (Hne q' Hq'). congruence.
    + exact (HP q' x (Hsub q' Hq') Hx E).
  - destruct Hu as (Hl & He & _). rewrite Hl, He. exact HP.
Qed.

Lemma Mantem_refl (m : ChatMessage) : Mantem m m.
Proof. split; auto. Qed.

Lemma Mantem_trans (m1 m2 m3 : ChatMessage) :
  Mantem m1 m2 -> Mantem m2 m3 -> Mantem m1 m3.
Proof.
  intros [E1 F1] [E2 F2]. split; [congruence|].
  intros H. specialize (F1 H). subst m2. exact (F2 H).
Qed.

Lemma Mantem_passo (ev : Sessao.Evento) (s s' : Sessao.Sys) :
  Inv s -> Prov s -> Sessao.passo ev s = Some s' ->
  forall i m, Sessao.log s !! i = Some m ->
    exists m', Sessao.log s' !! i = Some m' /\ Mantem m m'.
Proof.
  intros HI HP H i m Hi.
  destruct (passo_casos _ _ _ H)
    as [(_ & r & p & st' & q & u & a & -> & Hs)
       |[(_ & q & resto & f & Hr & Hc & _)|(_ & _ & Hu)]].
  - destruct Hs as (Hl & _). exists m. split; [|apply Mantem_refl].
    unfold Sessao.log, Sessao.emitir in *. simpl. rewrite Hl.
    apply lookup_app_l_Some, Hi.
  - pose proof (concluida_campos _ _ _ _ _ Hc m) as (Hsame & _ & _ & Hprov).
    destruct (retirar_in _ _ _ _ Hr) as [Hq _].
    destruct Hc as (Hl & _). rewrite Hl, list_lookup_fmap, Hi. simpl.
    eexists. split; [reflexivity|].
    destruct (String.eqb (Msg.id m) (alvo q)) eqn:E; [|apply Mantem_refl].
    apply String.eqb_eq in E.
    destruct (alvo_unico s q i m HI Hq Hi E) as [Hpend _].
    split; [|congruence].
    assert (Msg.provider (f m) = Msg.provider m) as Hp'.
    { destruct Hprov as [Hp'|Hp']; [|exact Hp'].
      rewrite Hp'. symmetry.
      apply (HP q m Hq (list_elem_of_lookup_2 _ _ _ Hi) E). }
    injection Hsame as -> -> -> -> -> ->. rewrite Hp'. reflexivity.
  - destruct Hu as (Hl & _). rewrite Hl. exists m.
    split; [exact Hi | apply Mantem_refl].
Qed.

Lemma executar_Mantem (evs : list Sessao.Evento) (s s' : Sessao.Sys) :
  Inv s -> Prov s -> Sessao.executar evs s = Some s' ->
  forall i m, Sessao.log s !! i = Some m ->
    exists m', Sessao.log s' !! i = Some m' /\ Mantem m m'.
Proof.
  revert s. induction evs as [|ev evs IH]; intros s HI HP H i m Hi; simpl in H.
  - injection H as <-. exists m. split; [exact Hi | apply Mantem_refl].
  - destruct (Sessao.passo ev s) as [s1|] eqn:E; [|discriminate].
    simpl in H.
    destruct (Mantem_passo _ _ _ HI HP E i m Hi) as (m1 & Hi1 & M1).
    destruct (IH s1 (passo_Inv _ _ _ HI E) (Prov_passo _ _ _ HI HP E) H i m1 Hi1)
      as (m' & Hi' & M2).
    exists m'. split; [exact Hi' | eapply Mantem_trans; eassumption].
Qed.

Lemma executar_Prov (evs : list Sessao.Evento) (s s' : Sessao.Sys) :
  Inv s -> Prov s -> Sessao.executar evs s = Some s' -> Prov s'.
Proof.
  revert s. induction evs as [|ev evs IH]; intros s HI HP H; simpl in H.
  - injection H as <-. exact HP.
  - destruct (Sessao.passo ev s) as [s1|] eqn:E; [|discriminate].
    simpl in H.
    exact (IH s1 (passo_Inv _ _ _ HI E) (Prov_passo _ _ _ HI HP E) H).
Qed.

Lemma Prov_inicial (ls : list (string * string)) : Prov (Sessao.inicial ls).
Proof. intros q m Hq. apply elem_of_nil in Hq as []. Qed.

(** X4: the log of a session is append-only. Whatever happens after an
    entry is in the log, it stays at its position and keeps its id, kind,
    text, attachment, provider, time stamp and original text: the
    provider of an entry is the one chosen at its submission even if the
    selection changed before the answer came. A user message and a
    resolved entry never change at all: only a pending entry changes,
    once, when it is resolved. *)
Theorem X4_log_append_only (ls : list (string * string))
    (antes depois : list Sessao.Evento) (s s' : Sessao.Sys)
    (i : nat) (m : ChatMessage) :
  Sessao.executar antes (Sessao.inicial ls) = Some s ->
  Sessao.executar depois s = Some s' ->
  Sessao.log s !! i = Some m ->
  exists m',
    Sessao.log s' !! i = Some m' /\
    (Msg.id m', Msg.tipo m', Msg.conteudo m', Msg.arquivo m', Msg.provider m',
     Msg.timestamp m', Msg.emailOriginal m')
    = (Msg.id m, Msg.tipo m, Msg.conteudo m, Msg.arquivo m, Msg.provider m,
       Msg.timestamp m, Msg.emailOriginal m) /\
    (Sessao.pendente m = false -> m' = m).
Proof.
  intros H1 H2 Hi.
  apply (executar_Mantem depois s s'); try assumption.
  - eapply executar_Inv; [apply Inv_inicial | exact H1].
  - eapply executar_Prov; [apply Inv_inicial | apply Prov_inicial | exact H1].
Qed.

Lemma X4_log_append_only_witness :
  exists m',
    Chat.mensagens (Chat.handleSucesso resultado_095 id1 openai
                      (Chat.onProviderChange gemini estado1)) !! 1%nat = Some m' /\
    Msg.provider m' = Some openai.
Proof.
  destruct (X4_log_append_only [] [ev_texto1]
              [Sessao.ProviderChange gemini; Sessao.Next id1 resultado_095]
              (Sessao.emitir
                 (Chat.onEnviarTexto pedido_123 openai relogio1 Chat.inicial)
                 (Sessao.inicial []))
              (Sessao.concluir
                 (Chat.handleSucesso resultado_095 id1 openai
                    (Chat.onProviderChange gemini estado1)) []
                 (Sessao.com_chat (Chat.onProviderChange gemini estado1)
                    (Sessao.emitir
                       (Chat.onEnviarTexto pedido_123 openai relogio1 Chat.inicial)
                       (Sessao.inicial []))))
              1%nat carregando1 eq_refl eq_refl eq_refl)
    as (m' & Hm & Hf & _).
  exists m'. split; [exact Hm|]. injection Hf as _ _ _ _ Hp _ _. exact Hp.
Defined.

(* ------------------------------------------------------------------ *)
(** *** The selected provider                                          *)
(* ------------------------------------------------------------------ *)

Lemma passo_selecao (ev : Sessao.Evento) (s s' : Sessao.Sys) :
  Sessao.passo ev s = Some s' ->
  Chat.providerSelecionado (Sessao.chat s')
  = selecao [ev] (Chat.providerSelecionado (Sessao.chat s)) /\
  Sessao.providersEmVoo s'
  = Sessao.providersEmVoo s && (conclusoes_providers [ev] =? 0)%nat /\
  (conclusoes_providers [ev] <= if Sessao.providersEmVoo s then 1 else 0)%nat.
Proof.
  destruct ev; simpl; intros H;
    try (destruct (Sessao.retirar _ _) as [[q resto]|]; [|discriminate]; simpl in H);
    try (destruct (Sessao.providersEmVoo s) eqn:Ep; [|discriminate]);
    injection H as <-; simpl; rewrite ?andb_true_r; repeat split; auto;
    try (unfold Chat.ngAfterViewChecked;
         destruct (Chat.shouldScrollToBottom _); reflexivity);
    try (destruct (Sessao.providersEmVoo s); lia);
    unfold conclusoes_providers; simpl; lia.
Qed.

Lemma conclusoes_cons (ev : Sessao.Evento) (evs : list Sessao.Evento) :
  conclusoes_providers (ev :: evs)
  = (conclusoes_providers [ev] + conclusoes_providers evs)%nat.
Proof. unfold conclusoes_providers. destruct ev; reflexivity. Qed.

Lemma executar_selecao (evs : list Sessao.Evento) (s s' : Sessao.Sys) :
  Sessao.executar evs s = Some s' ->
  Chat.providerSelecionado (Sessao.chat s')
  = selecao evs (Chat.providerSelecionado (Sessao.chat s)) /\
  Sessao.providersEmVoo s'
  = Sessao.providersEmVoo s && (conclusoes_providers evs =? 0)%nat /\
  (conclusoes_providers evs <= if Sessao.providersEmVoo s then 1 else 0)%nat.
Proof.
  revert s. induction evs as [|ev evs IH]; intros s H; simpl in H.
  - injection H as <-. simpl. rewrite andb_true_r.
    repeat split. unfold conclusoes_providers. simpl. lia.
  - destruct (Sessao.passo ev s) as [s1|] eqn:E; [|discriminate].
    simpl in H. destruct (passo_selecao _ _ _ E) as (S1 & P1 & C1).
    destruct (IH s1 H) as (S2 & P2 & C2).
    rewrite conclusoes_cons. split; [|split].
    + rewrite S2, S1. reflexivity.
    + rewrite P2, P1.
      destruct (Sessao.providersEmVoo s), (conclusoes_providers [ev]),
        (conclusoes_providers evs); reflexivity.
    + rewrite P1 in C2.
      destruct (Sessao.providersEmVoo s), (conclusoes_providers [ev]) as [|[|n]];
        simpl in *; lia.
Qed.

(** X5: in every session the selected provider is decided by the last
    provider event, an [onProviderChange] or the completion of the
    providers call (its default on success, openai on error): an answer
    of the providers call that comes after the user chose a provider
    replaces the choice. Submissions and completions of classify calls
    never change the selection. The providers call completes at most
    once. *)
Theorem X5_selected_provider (ls : list (string * string))
    (evs : list Sessao.Evento) (s : Sessao.Sys) :
  Sessao.executar evs (Sessao.inicial ls) = Some s ->
  Chat.providerSelecionado (Sessao.chat s) = selecao evs openai /\
  (conclusoes_providers evs <= 1)%nat /\
  Sessao.providersEmVoo s = (conclusoes_providers evs =? 0)%nat.
Proof.
  intros H. destruct (executar_selecao evs _ _ H) as (S1 & P1 & C1).
  split; [exact S1|]. split; [exact C1 | exact P1].
Qed.

Lemma X5_selected_provider_witness :
  Chat.providerSelecionado
    (Chat.carregarProviders_next providers_resp
       (Chat.onProviderChange gemini Chat.inicial)) = openai.
Proof.
  exact (proj1 (X5_selected_provider []
                  [Sessao.ProviderChange gemini; Sessao.ProvidersNext providers_resp]
                  {| Sessao.chat :=
                       Chat.carregarProviders_next providers_resp
                         (Chat.onProviderChange gemini Chat.inicial);
                     Sessao.emVoo := []; Sessao.providersEmVoo := false;
                     Sessao.localStorage := [] |} eq_refl)).
Defined.

(* ================================================================== *)
(** ** White space in UTF-8                                             *)
(* ================================================================== *)

Lemma em_todos_spec (p : positive) (c : N) (f : N -> bool) :
  em_todos p c f = true ->
  forall x, (c <= x < c + Npos p)%N -> f x = true.
Proof.
  revert c. induction p as [q IH|q IH|]; intros c H x Hx; simpl in H.
  - apply andb_prop in H as [H H2]. apply andb_prop in H as [H0 H1].
    destruct (N.eq_dec x c) as [->|Hne]; [exact H0|].
    destruct (N.lt_ge_cases x (N.succ c + Npos q)) as [Hlt|Hge].
    + apply (IH _ H1). lia.
    + apply (IH _ H2). lia.
  - apply andb_prop in H as [H1 H2].
    destruct (N.lt_ge_cases x (c + Npos q)) as [Hlt|Hge].
    + apply (IH _ H1). lia.
    + apply (IH _ H2). lia.
  - assert (x = c) as -> by lia. exact H.
Qed.

(** [confere] holds of every code point of the basic plane, each one
    looked at. *)
Lemma confere_bmp (cp : N) : (cp < 0x10000)%N -> confere cp = true.
Proof.
  intros H. apply (em_todos_spec 0x10000 0 confere); [vm_compute; reflexivity|].
  lia.
Qed.

Lemma branco_In (w : string) : Js.branco w = true -> In w Js.espacos_utf8.
Proof.
  unfold Js.branco, Js.includes. rewrite existsb_exists.
  intros (x & Hx & E). apply String.eqb_eq in E. subst. exact Hx.
Qed.

Lemma cabeca_In (a : ascii) (x : string) :
  In (String a x) Js.espacos_utf8 -> cabeca a = true.
Proof.
  intros H. unfold cabeca. apply existsb_exists.
  exists (String a x). split; [exact H | apply Ascii.eqb_refl].
Qed.

Lemma cabeca_branco (c : ascii) (x : string) :
  cabeca c = false -> Js.branco (String c x) = false.
Proof.
  intros H. destruct (Js.branco (String c x)) eqn:E; [|reflexivity].
  apply branco_In, cabeca_In in E. congruence.
Qed.

Lemma espacos_utf8_curtos (w : string) :
  In w Js.espacos_utf8 -> exists a x, w = String a x /\ (String.length x <= 2)%nat.
Proof.
  intros H.
  assert (forallb (fun w => match w with
                            | String _ x => (String.length x <=? 2)%nat
                            | EmptyString => false
                            end) Js.espacos_utf8 = true) as HF by reflexivity.
  rewrite forallb_forall in HF. specialize (HF w H).
  destruct w as [|a x]; [discriminate|]. apply Nat.leb_le in HF. eauto.
Qed.

Lemma prefix_head (a b : ascii) (x y : string) :
  String.prefix (String a x) (String b y) = true -> a = b.
Proof. simpl. destruct (ascii_dec a b); [auto | discriminate]. Qed.

Lemma append_nil_r (s : string) : (s ++ "")%string = s.
Proof. induction s as [|a s IH]; [reflexivity|]. simpl. rewrite IH. reflexivity. Qed.

Lemma append_eq_self (e x : string) : (e ++ x)%string = e -> x = EmptyString.
Proof.
  induction e as [|a e IH]; [auto|]. simpl. intros [= H]. auto.
Qed.

(* ------------------------------------------------------------------ *)
(** *** Trimmed strings                                                *)
(* ------------------------------------------------------------------ *)

Lemma trimEnd_idem (s : string) : Js.trimEnd (Js.trimEnd s) = Js.trimEnd s.
Proof.
  induction s as [|a r IH]; [reflexivity|]. cbn [Js.trimEnd]. cbv zeta.
  destruct (Js.branco (String a (Js.trimEnd r))) eqn:E; [reflexivity|].
  cbn [Js.trimEnd]. cbv zeta. rewrite IH, E. reflexivity.
Qed.

Lemma trimEnd_cons_inv (s : string) (b : ascii) (x : string) :
  Js.trimEnd s = String b x -> exists y, s = String b y /\ x = Js.trimEnd y.
Proof.
  destruct s as [|a r]; [discriminate|]. cbn [Js.trimEnd]. cbv zeta.
  destruct (Js.branco _); [discriminate|]. intros [= -> <-]. eauto.
Qed.

Lemma trimStart_comeca (s : string) : comeca s = false -> Js.trimStart s = s.
Proof.
  destruct s as [|a [|b [|c r3]]]; cbn [comeca Js.trimStart]; intros H;
    repeat (destruct (Js.branco _); cbn [orb] in H; [discriminate|]);
    reflexivity.
Qed.

Lemma comeca_trimStart (s : string) : comeca (Js.trimStart s) = false.
Proof.
  assert (forall n s, (String.length s <= n)%nat -> comeca (Js.trimStart s) = false)
    as H; [|exact (H _ s (Nat.le_refl _))].
  clear s. induction n as [|n IH]; intros s Hn.
  - destruct s; [reflexivity | simpl in Hn; lia].
  - destruct s as [|a r1]; [reflexivity|]. cbn [Js.trimStart]. simpl in Hn.
    destruct (Js.branco (String a "")) eqn:E1; [apply IH; lia|].
    destruct r1 as [|b r2]; [cbn [comeca]; rewrite E1; reflexivity|].
    simpl in Hn.
    destruct (Js.branco (String a (String b ""))) eqn:E2; [apply IH; lia|].
    destruct r2 as [|c r3]; [cbn [comeca]; rewrite E1, E2; reflexivity|].
    simpl in Hn.
    destruct (Js.branco (String a (String b (String c "")))) eqn:E3; [apply IH; lia|].
    cbn [comeca]. rewrite E1, E2, E3. reflexivity.
Qed.

Lemma comeca_trimEnd (t : string) : comeca t = false -> comeca (Js.trimEnd t) = false.
Proof.
  intros H. destruct (comeca (Js.trimEnd t)) eqn:E; [|reflexivity].
  rewrite <- H. clear H.
  destruct (Js.trimEnd t) as [|a x1] eqn:E1; [discriminate|].
  apply trimEnd_cons_inv in E1 as (y1 & -> & ->).
  cbn [comeca] in *. destruct (Js.branco (String a "")); [reflexivity|].
  destruct (Js.trimEnd y1) as [|b x2] eqn:E2; [discriminate|].
  apply trimEnd_cons_inv in E2 as (y2 & -> & ->).
  destruct (Js.branco (String a (String b ""))); [reflexivity|].
  destruct (Js.trimEnd y2) as [|c x3] eqn:E3; [discriminate|].
  apply trimEnd_cons_inv in E3 as (y3 & -> & ->). exact (eq_sym E).
Qed.

(** A trimmed text has no white space at its ends. *)
Lemma trim_ends (s : string) :
  Js.trimStart (Js.trim s) = Js.trim s /\ Js.trimEnd (Js.trim s) = Js.trim s.
Proof.
  unfold Js.trim. split; [|apply trimEnd_idem].
  apply trimStart_comeca, comeca_trimEnd, comeca_trimStart.
Qed.

(* ------------------------------------------------------------------ *)
(** *** Trimming, character by character                               *)
(* ------------------------------------------------------------------ *)

(** [e] is the bytes of one character. *)
Section Letra.

Variables (e : string) (a : ascii) (t : string).
Hypothesis forma : e = String a t.
Hypothesis cauda : sem_cabeca t = true.
Hypothesis curto : (String.length t <= 3)%nat.
Hypothesis livre :
  forall w, In w Js.espacos_utf8 ->
    String.prefix w e = true \/ String.prefix e w = true -> w = e.

Lemma letra_mais (x : string) :
  x <> EmptyString -> Js.branco (e ++ x) = false.
Proof.
  intros Hx. destruct (Js.branco (e ++ x)) eqn:E; [|reflexivity].
  exfalso. apply Hx. apply (append_eq_self e).
  apply livre; [apply branco_In, E | right; apply prefix_app].
Qed.

Lemma letra_menos (w x : string) :
  x <> EmptyString -> e = (w ++ x)%string -> Js.branco w = false.
Proof.
  intros Hx He. destruct (Js.branco w) eqn:E; [|reflexivity].
  exfalso. apply Hx. apply (append_eq_self w). rewrite <- He. symmetry.
  apply livre; [apply branco_In, E | left; rewrite He; apply prefix_app].
Qed.

Lemma trimStart_letra (rest : string) :
  Js.trimStart (e ++ rest) = if Js.branco e then Js.trimStart rest else (e ++ rest)%string.
Proof.
  pose proof letra_mais as Hmais. pose proof letra_menos as Hmenos.
  rewrite forma in *. clear forma livre cauda.
  assert (forall x, x <> EmptyString ->
            Js.branco (String a t ++ x) = false) as Hmais' by exact Hmais.
  destruct t as [|b [|c [|d [|x y]]]]; [| | | |simpl in curto; lia];
    cbn [append] in Hmais'; cbn [append Js.trimStart].
  - destruct (Js.branco (String a "")) eqn:E1; [reflexivity|].
    destruct rest as [|b r2]; [reflexivity|].
    rewrite (Hmais' (String b "")) by discriminate.
    destruct r2 as [|c r3]; [reflexivity|].
    rewrite (Hmais' (String b (String c ""))) by discriminate. reflexivity.
  - rewrite (Hmenos (String a "") (String b "")) by (discriminate || reflexivity).
    destruct (Js.branco (String a (String b ""))) eqn:E2; [reflexivity|].
    destruct rest as [|c r3]; [reflexivity|].
    rewrite (Hmais' (String c "")) by discriminate. reflexivity.
  - rewrite (Hmenos (String a "") (String b (String c "")))
      by (discriminate || reflexivity).
    rewrite (Hmenos (String a (String b "")) (String c ""))
      by (discriminate || reflexivity).
    destruct (Js.branco (String a (String b (String c "")))); reflexivity.
  - rewrite (Hmenos (String a "") (String b (String c (String d ""))))
      by (discriminate || reflexivity).
    rewrite (Hmenos (String a (String b "")) (String c (String d "")))
      by (discriminate || reflexivity).
    rewrite (Hmenos (String a (String b (String c ""))) (String d ""))
      by (discriminate || reflexivity).
    destruct (Js.branco (String a (String b (String c (String d ""))))) eqn:E;
      [|reflexivity].
    apply branco_In, espacos_utf8_curtos in E as (a' & x & [= _ <-] & Hl).
    simpl in Hl. lia.
Qed.

Lemma trimEnd_cauda (u s : string) :
  sem_cabeca u = true -> Js.trimEnd (u ++ s) = (u ++ Js.trimEnd s)%string.
Proof.
  induction u as [|c u IH]; [reflexivity|]. simpl sem_cabeca.
  intros H. apply andb_prop in H as [Hc Hu]. apply negb_true_iff in Hc.
  cbn [append Js.trimEnd]. cbv zeta. rewrite (IH Hu).
  rewrite (cabeca_branco _ _ Hc). reflexivity.
Qed.

Lemma trimEnd_letra (s : string) :
  Js.trimEnd (e ++ s)
  = match Js.trimEnd s with
    | EmptyString => if Js.branco e then EmptyString else e
    | r => (e ++ r)%string
    end.
Proof.
  pose proof letra_mais as Hmais.
  rewrite forma in *. cbn [append Js.trimEnd]. cbv zeta.
  rewrite (trimEnd_cauda _ _ cauda).
  destruct (Js.trimEnd s) as [|b r] eqn:Es.
  - rewrite append_nil_r. reflexivity.
  - change (String a (t ++ String b r)) with (String a t ++ String b r)%string.
    rewrite Hmais by discriminate. reflexivity.
Qed.

End Letra.

Lemma espaco_bmp (cp : N) : Js.espaco cp = true -> (cp < 0x10000)%N.
Proof.
  unfold Js.espaco. rewrite existsb_exists. intros (x & Hx & E).
  apply N.eqb_eq in E. subst x.
  assert (forallb (fun x => (x <? 0x10000)%N) Js.espacos = true) as HF by reflexivity.
  rewrite forallb_forall in HF. apply N.ltb_lt, HF, Hx.
Qed.

Lemma cabeca_f0 (k : N) : (k < 5)%N -> cabeca (ascii_of_N (0xF0 + k)) = false.
Proof.
  intros H. apply negb_true_iff.
  apply (em_todos_spec 5 0 (fun k => negb (cabeca (ascii_of_N (0xF0 + k)))));
    [reflexivity | lia].
Qed.

Lemma cabeca_80 (m : N) : (m < 0x40)%N -> cabeca (ascii_of_N (0x80 + m)) = false.
Proof.
  intros H. apply negb_true_iff.
  apply (em_todos_spec 0x40 0 (fun m => negb (cabeca (ascii_of_N (0x80 + m)))));
    [reflexivity | lia].
Qed.

Lemma utf8_cons (cp : N) : exists a t, Js.utf8 cp = String a t.
Proof.
  unfold Js.utf8. destruct (cp <? 0x80)%N; [eauto|].
  destruct (cp <? 0x800)%N; [eauto|]. destruct (cp <? 0x10000)%N; eauto.
Qed.

(** The bytes of a character of Unicode are a character as the section
    above wants it. Beyond the basic plane the first byte, 0xF0 or more,
    begins no white-space character. *)
Lemma utf8_letra (cp : N) :
  (cp < 0x110000)%N ->
  Js.branco (Js.utf8 cp) = Js.espaco cp /\
  exists a t,
    Js.utf8 cp = String a t /\ sem_cabeca t = true /\
    (String.length t <= 3)%nat /\
    forall w, In w Js.espacos_utf8 ->
      String.prefix w (Js.utf8 cp) = true \/ String.prefix (Js.utf8 cp) w = true ->
      w = Js.utf8 cp.
Proof.
  intros Hv. destruct (N.lt_ge_cases cp 0x10000) as [Hb|Ha].
  - pose proof (confere_bmp cp Hb) as H. unfold confere in H. cbv zeta in H.
    apply andb_prop in H as [H H3]. apply andb_prop in H as [H1 H2].
    apply Bool.eqb_prop in H1. split; [exact H1|].
    destruct (Js.utf8 cp) as [|a t]; [discriminate|].
    apply andb_prop in H3 as [H3 H4]. apply Nat.leb_le in H4.
    exists a, t. repeat split; auto.
    intros w Hw Hp. rewrite forallb_forall in H2. specialize (H2 w Hw).
    assert (String.prefix w (String a t) || String.prefix (String a t) w = true)
      as Hor by (destruct Hp as [-> | ->]; [reflexivity | apply orb_true_r]).
    rewrite Hor in H2. apply String.eqb_eq, H2.
  - assert (Js.espaco cp = false) as He.
    { destruct (Js.espaco cp) eqn:E; [|reflexivity]. apply espaco_bmp in E. lia. }
    assert (exists b t, Js.utf8 cp = String b t /\ cabeca b = false /\
                        sem_cabeca t = true /\ (String.length t <= 3)%nat)
      as (b & t & Hu & Hb & Ht & Hl).
    { unfold Js.utf8.
      rewrite (proj2 (N.ltb_ge cp 0x80)) by lia.
      rewrite (proj2 (N.ltb_ge cp 0x800)) by lia.
      rewrite (proj2 (N.ltb_ge cp 0x10000)) by lia.
      eexists. eexists. split; [reflexivity|].
      split; [apply cabeca_f0; apply N.Div0.div_lt_upper_bound; lia|].
      split; [|simpl; lia]. simpl.
      rewrite !cabeca_80 by (apply N.mod_lt; discriminate). reflexivity. }
    rewrite Hu, He. split; [apply cabeca_branco, Hb|].
    exists b, t. repeat split; auto.
    intros w Hw Hp. exfalso.
    destruct (espacos_utf8_curtos w Hw) as (a' & x & -> & _).
    assert (a' = b) as ->
      by (destruct Hp as [Hp|Hp]; apply prefix_head in Hp; congruence).
    apply cabeca_In in Hw. congruence.
Qed.

Lemma trimStart_utf8s (l : list N) :
  Forall (fun cp => (cp < 0x110000)%N) l ->
  Js.trimStart (Js.utf8s l) = Js.utf8s (Js.aparar_inicio l).
Proof.
  induction 1 as [|cp r Hv _ IH]; [reflexivity|].
  destruct (utf8_letra cp Hv) as (E & a & t & Hu & Ht & Hl & Hp).
  cbn [Js.utf8s Js.aparar_inicio].
  rewrite (trimStart_letra (Js.utf8 cp) a t Hu Hl Hp), E.
  destruct (Js.espaco cp); [exact IH | reflexivity].
Qed.

Lemma trimEnd_utf8s (l : list N) :
  Forall (fun cp => (cp < 0x110000)%N) l ->
  Js.trimEnd (Js.utf8s l) = Js.utf8s (Js.aparar_fim l).
Proof.
  induction 1 as [|cp r Hv _ IH]; [reflexivity|].
  destruct (utf8_letra cp Hv) as (E & a & t & Hu & Ht & Hl & Hp).
  cbn [Js.utf8s Js.aparar_fim].
  rewrite (trimEnd_letra (Js.utf8 cp) a t Hu Ht Hp), IH, E.
  destruct (Js.aparar_fim r) as [|x r'].
  - simpl. destruct (Js.espaco cp); [reflexivity|]. simpl.
    rewrite append_nil_r. reflexivity.
  - cbn [Js.utf8s]. destruct (utf8_cons x) as (a' & t' & ->). reflexivity.
Qed.

Lemma aparar_inicio_Forall (P : N -> Prop) (l : list N) :
  Forall P l -> Forall P (Js.aparar_inicio l).
Proof.
  induction 1 as [|cp r Hv Hr IH]; [constructor|].
  simpl. destruct (Js.espaco cp); [exact IH | constructor; assumption].
Qed.

Lemma unicode_Forall (l : list N) :
  Js.unicode l = true -> Forall (fun cp => (cp < 0x110000)%N) l.
Proof.
  unfold Js.unicode. rewrite forallb_forall. intros H.
  apply Forall_forall. intros x Hx. apply N.ltb_lt, H, list_elem_of_In, Hx.
Qed.

(** Trimming the UTF-8 bytes of a string is trimming its characters:
    what [trim] leaves is the characters without the white space at
    their start and at their end. *)
Lemma trim_utf8s (l : list N) :
  Js.unicode l = true -> Js.trim (Js.utf8s l) = Js.utf8s (Js.aparar l).
Proof.
  intros H. apply unicode_Forall in H. unfold Js.trim, Js.aparar.
  rewrite trimStart_utf8s by exact H.
  apply trimEnd_utf8s, aparar_inicio_Forall, H.
Qed.

(** Characters that are all white space trim to nothing. *)
Lemma aparar_brancos (l : list N) :
  forallb Js.espaco l = true -> Js.aparar l = [].
Proof.
  unfold Js.aparar. induction l as [|cp r IH]; [reflexivity|].
  simpl. intros H. apply andb_prop in H as [-> H]. exact (IH H).
Qed.

(* ================================================================== *)
(** ** More on the chat input                                           *)
(* ================================================================== *)

Lemma length_pos_not_empty (s : string) :
  (0 <? String.length s)%nat = true -> s <> EmptyString.
Proof. destruct s; [discriminate | discriminate]. Qed.

(** What a text emitted by [enviar] is. *)
Lemma enviar_texto (i : ChatInput.Inputs) (st : ChatInput.State) c p :
  snd (ChatInput.enviar i st) = Some (ChatInput.enviarTexto c p) ->
  c = Js.trim (ChatInput.conteudoEmail st) /\
  c <> EmptyString /\ Js.trimStart c = c /\ Js.trimEnd c = c /\
  ChatInput.arquivoSelecionado st = None /\
  ChatInput.in_carregando i = false /\
  p = ChatInput.in_providerSelecionado i.
Proof.
  unfold ChatInput.enviar, ChatInput.podeEnviar.
  destruct (ChatInput.in_carregando i); [discriminate|]. simpl.
  destruct (ChatInput.arquivoSelecionado st) as [a|].
  - rewrite orb_true_r. simpl. discriminate.
  - rewrite orb_false_r.
    destruct (0 <? String.length (Js.trim (ChatInput.conteudoEmail st)))%nat eqn:E;
      simpl; [|discriminate].
    intros [= <- <-]. destruct (trim_ends (ChatInput.conteudoEmail st)).
    repeat split; auto. apply length_pos_not_empty, E.
Qed.

(** X6: [enviar] emits nothing while the [carregando] input is true, and
    nothing when no file is staged and the text is blank. A text it emits
    is the staged text trimmed: it is not empty and has no white space at
    its ends, no file is staged then, and the provider sent is the
    selected one. White space is that of JavaScript: of a staged text
    with the characters [l], what is left after trimming is the
    characters without the white-space characters at their start and
    end, and when all of them are white space nothing is emitted. *)
Theorem X6_enviar_text_is_trimmed (i : ChatInput.Inputs) (st : ChatInput.State) :
  (ChatInput.in_carregando i = true -> ChatInput.enviar i st = (st, None)) /\
  (ChatInput.arquivoSelecionado st = None ->
   Js.trim (ChatInput.conteudoEmail st) = EmptyString ->
   ChatInput.enviar i st = (st, None)) /\
  (forall c p,
     snd (ChatInput.enviar i st) = Some (ChatInput.enviarTexto c p) ->
     c = Js.trim (ChatInput.conteudoEmail st) /\
     c <> EmptyString /\ Js.trimStart c = c /\ Js.trimEnd c = c /\
     ChatInput.arquivoSelecionado st = None /\
     ChatInput.in_carregando i = false /\
     p = ChatInput.in_providerSelecionado i) /\
  (forall l : list N,
     Js.unicode l = true ->
     ChatInput.conteudoEmail st = Js.utf8s l ->
     Js.trim (ChatInput.conteudoEmail st) = Js.utf8s (Js.aparar l) /\
     (forallb Js.espaco l = true ->
      ChatInput.arquivoSelecionado st = None ->
      ChatInput.enviar i st = (st, None))).
Proof.
  assert (ChatInput.arquivoSelecionado st = None ->
          Js.trim (ChatInput.conteudoEmail st) = EmptyString ->
          ChatInput.enviar i st = (st, None)) as Hvazio.
  { unfold ChatInput.enviar, ChatInput.podeEnviar.
    intros -> ->. simpl. rewrite andb_false_r. reflexivity. }
  split; [|split; [exact Hvazio|split; [apply enviar_texto|]]].
  - unfold ChatInput.enviar, ChatInput.podeEnviar. intros ->. reflexivity.
  - intros l Hl Hc. rewrite Hc, (trim_utf8s l Hl). split; [reflexivity|].
    intros Hb Ha. apply Hvazio; [exact Ha|].
    rewrite Hc, (trim_utf8s l Hl), (aparar_brancos l Hb). reflexivity.
Qed.

(** A staged text of a no-break space, a space and an em space is
    blank: nothing is emitted. *)
Lemma X6_enviar_text_is_trimmed_witness :
  ChatInput.enviar inputs_livre
    (ChatInput.set_conteudoEmail (Js.utf8s [0xA0; 0x20; 0x2003]%N) ChatInput.inicial)
  = (ChatInput.set_conteudoEmail (Js.utf8s [0xA0; 0x20; 0x2003]%N) ChatInput.inicial,
     None).
Proof.
  apply (proj2 (proj2 (proj2 (X6_enviar_text_is_trimmed inputs_livre
           (ChatInput.set_conteudoEmail (Js.utf8s [0xA0; 0x20; 0x2003]%N)
              ChatInput.inicial))))
           [0xA0; 0x20; 0x2003]%N).
  - reflexivity.
  - reflexivity.
  - reflexivity.
  - reflexivity.
Defined.

(** A staged text that ends in a no-break space and an em space is
    emitted without them. *)
Example enviar_apara_unicode :
  snd (ChatInput.enviar inputs_livre
         (ChatInput.set_conteudoEmail
            (" Olá mundo" ++ Js.utf8s [0xA0; 0x2003]%N) ChatInput.inicial))
  = Some (ChatInput.enviarTexto "Olá mundo" openai).
Proof. reflexivity. Qed.

Lemma enviar_arquivo (i : ChatInput.Inputs) (st : ChatInput.State) a p :
  snd (ChatInput.enviar i st) = Some (ChatInput.enviarArquivo a p) ->
  ChatInput.arquivoSelecionado st = Some a /\
  fst (ChatInput.enviar i st) = ChatInput.set_arquivoSelecionado None st.
Proof.
  unfold ChatInput.enviar. destruct (negb _); [discriminate|].
  destruct (ChatInput.arquivoSelecionado st) as [x|]; simpl; [|discriminate].
  intros [= <- <-]. auto.
Qed.

Lemma enviar_arquivo_valido (i : ChatInput.Inputs) (st : ChatInput.State) :
  arquivo_valido st -> arquivo_valido (fst (ChatInput.enviar i st)).
Proof.
  intros H. unfold ChatInput.enviar. destruct (negb _); [exact H|].
  destruct (ChatInput.arquivoSelecionado st) eqn:E; simpl.
  - intros a. discriminate.
  - intros a Ha. simpl in Ha. rewrite E in Ha. discriminate.
Qed.

Lemma enviar_emissao_valida (i : ChatInput.Inputs) (st : ChatInput.State) e :
  arquivo_valido st -> snd (ChatInput.enviar i st) = Some e -> emissao_valida e.
Proof.
  intros H He. destruct e as [c p|a p|p]; simpl.
  - destruct (enviar_texto _ _ _ _ He) as (_ & H1 & H2 & H3 & _). auto.
  - destruct (enviar_arquivo _ _ _ _ He) as (Ha & _). exact (H a Ha).
  - exact I.
Qed.

Lemma agir_valido (a : Acao) (st : ChatInput.State) :
  arquivo_valido st ->
  arquivo_valido (fst (agir a st)) /\
  (forall e, snd (agir a st) = Some e -> emissao_valida e).
Proof.
  intros H. destruct a as [v|fs| | | |p|b d|k sh i|i]; simpl;
    try (split; [exact H | discriminate]).
  - split; [|discriminate]. destruct fs as [|f rest]; [exact H|].
    rewrite onArquivoSelecionado_validate.
    destruct (Spec.validate f) eqn:E; [|exact H|exact H].
    intros a [= <-]. exact E.
  - split; [|discriminate]. intros a. discriminate.
  - split; [exact H|]. intros e [= <-]. exact I.
  - split; [|discriminate]. unfold onDocumentClick.
    destruct (negb b); [exact H|]. destruct (_ && _); exact H.
  - unfold onKeydown. destruct (_ && _).
    + split; [apply enviar_arquivo_valido, H | intros e; apply enviar_emissao_valida, H].
    + split; [exact H | discriminate].
  - split; [apply enviar_arquivo_valido, H | intros e; apply enviar_emissao_valida, H].
Qed.

Lemma agir_todas_valido (l : list Acao) (st : ChatInput.State) :
  arquivo_valido st ->
  arquivo_valido (fst (agir_todas l st)) /\
  Forall emissao_valida (snd (agir_todas l st)).
Proof.
  revert st. induction l as [|a l IH]; intros st H; simpl; [auto|].
  destruct (agir_valido a st H) as [H1 H2].
  destruct (agir a st) as [st1 em]. simpl in H1, H2.
  destruct (IH st1 H1) as [H3 H4].
  destruct (agir_todas l st1) as [st2 ems]. simpl in *.
  split; [exact H3|]. destruct em as [e|]; [|exact H4].
  apply Forall_cons. split; [apply H2; reflexivity | exact H4].
Qed.

(** X7: whatever is done to the chat input, by writes of the text and by
    its methods in any order, the file it holds staged has passed the
    validation, and everything it emits is fit to be sent: a text that is
    not empty and has no white space at its ends, or a file with an
    allowed extension and at most 5242880 bytes. *)
Theorem X7_emissions_are_valid (l : list Acao) :
  (forall a,
     ChatInput.arquivoSelecionado (fst (agir_todas l ChatInput.inicial)) = Some a ->
     Spec.validate a = Spec.Accepted /\ (Arq.size a <= 5242880)%N) /\
  Forall emissao_valida (snd (agir_todas l ChatInput.inicial)).
Proof.
  destruct (agir_todas_valido l ChatInput.inicial) as [H1 H2];
    [intros a; discriminate|].
  split; [|exact H2]. intros a Ha. specialize (H1 a Ha). split; [exact H1|].
  unfold Spec.validate in H1. destruct (negb _); [discriminate|].
  destruct (Spec.max_bytes <? Arq.size a)%N eqn:E; [discriminate|].
  apply N.ltb_ge in E. exact E.
Qed.

(** X8: what is sent is no longer staged, so that sending twice does not
    send twice. After [enviar] emitted a text the input is empty and a
    second [enviar] emits nothing, whatever its inputs are; after it
    emitted a file no file is staged; when it emitted nothing the state
    is as it was. *)
Theorem X8_no_double_send (i i' : ChatInput.Inputs) (st : ChatInput.State) :
  (forall c p,
     snd (ChatInput.enviar i st) = Some (ChatInput.enviarTexto c p) ->
     ChatInput.conteudoEmail (fst (ChatInput.enviar i st)) = EmptyString /\
     ChatInput.arquivoSelecionado (fst (ChatInput.enviar i st)) = None /\
     ChatInput.enviar i' (fst (ChatInput.enviar i st))
       = (fst (ChatInput.enviar i st), None)) /\
  (forall a p,
     snd (ChatInput.enviar i st) = Some (ChatInput.enviarArquivo a p) ->
     ChatInput.arquivoSelecionado (fst (ChatInput.enviar i st)) = None /\
     ChatInput.conteudoEmail (fst (ChatInput.enviar i st))
       = ChatInput.conteudoEmail st /\
     forall b q, snd (ChatInput.enviar i' (fst (ChatInput.enviar i st)))
                 <> Some (ChatInput.enviarArquivo b q)) /\
  (snd (ChatInput.enviar i st) = None -> fst (ChatInput.enviar i st) = st).
Proof.
  split; [|split].
  - intros c p H. destruct (enviar_texto _ _ _ _ H) as (_ & _ & _ & _ & Ha & _).
    assert (fst (ChatInput.enviar i st)
            = ChatInput.set_conteudoEmail EmptyString st) as ->.
    { revert H. unfold ChatInput.enviar.
      destruct (negb (ChatInput.podeEnviar i st)); [discriminate|].
      rewrite Ha. reflexivity. }
    split; [reflexivity|]. split; [exact Ha|].
    unfold ChatInput.enviar, ChatInput.podeEnviar. simpl. rewrite Ha.
    rewrite andb_false_r. reflexivity.
  - intros a p H. destruct (enviar_arquivo _ _ _ _ H) as (Ha & ->).
    split; [reflexivity|]. split; [reflexivity|].
    intros b q Hb. apply enviar_arquivo in Hb as [Hb _]. discriminate Hb.
  - unfold ChatInput.enviar. destruct (negb _); [reflexivity|].
    destruct (ChatInput.arquivoSelecionado st); discriminate.
Qed.

Lemma X7_emissions_are_valid_witness :
  Spec.validate quatro_pdf = Spec.Accepted /\ (Arq.size quatro_pdf <= 5242880)%N.
Proof.
  exact (proj1 (X7_emissions_are_valid [AEscrever "rascunho"; AArquivo [quatro_pdf]])
           quatro_pdf eq_refl).
Defined.

Lemma X8_no_double_send_witness :
  ChatInput.enviar
    {| ChatInput.in_providers := None; ChatInput.in_providerSelecionado := gemini;
       ChatInput.in_carregando := false |}
    (ChatInput.set_conteudoEmail EmptyString
       (ChatInput.set_conteudoEmail " Bom dia " ChatInput.inicial))
  = (ChatInput.set_conteudoEmail EmptyString
       (ChatInput.set_conteudoEmail " Bom dia " ChatInput.inicial), None).
Proof.
  apply (proj1 (X8_no_double_send
                  {| ChatInput.in_providers := None;
                     ChatInput.in_providerSelecionado := openai;
                     ChatInput.in_carregando := false |}
                  {| ChatInput.in_providers := None;
                     ChatInput.in_providerSelecionado := gemini;
                     ChatInput.in_carregando := false |}
                  (ChatInput.set_conteudoEmail " Bom dia " ChatInput.inicial))
           "Bom dia"%string openai eq_refl).
Defined.

(* ------------------------------------------------------------------ *)
(** *** The case of the file name                                      *)
(* ------------------------------------------------------------------ *)

Lemma lower_ascii_dot (a : ascii) :
  Ascii.eqb (Js.lower_ascii a) "." = Ascii.eqb a ".".
Proof. destruct a as [[] [] [] [] [] [] [] []]; reflexivity. Qed.

Lemma lower_ascii_idem (a : ascii) :
  Js.lower_ascii (Js.lower_ascii a) = Js.lower_ascii a.
Proof. destruct a as [[] [] [] [] [] [] [] []]; reflexivity. Qed.

Lemma toLowerCase_idem (s : string) :
  Js.toLowerCase (Js.toLowerCase s) = Js.toLowerCase s.
Proof.
  induction s as [|a r IH]; [reflexivity|].
  simpl. rewrite lower_ascii_idem, IH. reflexivity.
Qed.

Lemma split_toLowerCase (s : string) :
  Js.split "." (Js.toLowerCase s) = Js.toLowerCase <$> Js.split "." s.
Proof.
  induction s as [|a r IH]; [reflexivity|].
  change (Js.toLowerCase (String a r))
    with (String (Js.lower_ascii a) (Js.toLowerCase r)).
  cbn [Js.split]. rewrite lower_ascii_dot, IH.
  destruct (Ascii.eqb a "."); [reflexivity|].
  destruct (Js.split "." r); reflexivity.
Qed.

Lemma extensao_toLowerCase (n : string) (z : N) :
  ChatInput.extensao {| Arq.name := Js.toLowerCase n; Arq.size := z |}
  = ChatInput.extensao {| Arq.name := n; Arq.size := z |}.
Proof.
  unfold ChatInput.extensao, Js.pop. simpl.
  rewrite split_toLowerCase, fmap_last.
  destruct (last (Js.split "." n)); simpl; [|reflexivity].
  rewrite toLowerCase_idem. reflexivity.
Qed.

Lemma mesma_letra_lower (a b : ascii) :
  mesma_letra a b = true -> Js.lower_ascii a = Js.lower_ascii b.
Proof.
  unfold mesma_letra, Js.lower_ascii. cbv zeta.
  pose proof (ascii_nat_embedding a) as Ea.
  pose proof (ascii_nat_embedding b) as Eb.
  intros H. apply orb_prop in H as [H|H]; [apply orb_prop in H as [H|H]|].
  - apply Nat.eqb_eq in H. assert (a = b) as -> by congruence. reflexivity.
  - apply andb_prop in H as [H H3]. apply andb_prop in H as [H1 H2].
    rewrite H1, H2. cbn [andb].
    apply Nat.leb_le in H1. apply Nat.eqb_eq in H3. rewrite H3.
    rewrite (proj2 (Nat.leb_gt (nat_of_ascii a + 32) 90)) by lia.
    rewrite andb_false_r. rewrite <- H3. exact Eb.
  - apply andb_prop in H as [H H3]. apply andb_prop in H as [H1 H2].
    rewrite H1, H2. cbn [andb].
    apply Nat.leb_le in H1. apply Nat.eqb_eq in H3. rewrite H3.
    rewrite (proj2 (Nat.leb_gt (nat_of_ascii b + 32) 90)) by lia.
    rewrite andb_false_r. rewrite <- H3. symmetry. exact Ea.
Qed.

Lemma mesmo_nome_lower (s t : string) :
  mesmo_nome s t = true -> Js.toLowerCase s = Js.toLowerCase t.
Proof.
  revert t. induction s as [|a s IH]; intros [|b t]; simpl; try discriminate.
  - reflexivity.
  - intros H. apply andb_prop in H as [H1 H2].
    rewrite (mesma_letra_lower _ _ H1), (IH _ H2). reflexivity.
Qed.

Lemma mesmo_nome_extensao (f f' : File) :
  mesmo_nome (Arq.name f) (Arq.name f') = true ->
  ChatInput.extensao f = ChatInput.extensao f'.
Proof.
  intros H. apply mesmo_nome_lower in H.
  destruct f as [n z], f' as [n' z']. simpl in H.
  rewrite <- (extensao_toLowerCase n z), <- (extensao_toLowerCase n' z'), H.
  reflexivity.
Qed.

(** X9: the validation of a file does not depend on the case of the
    ASCII letters of its name: two files of the same size whose names
    differ in the case of such letters at most are both accepted or both
    rejected, with the same message. *)
Theorem X9_validation_ignores_case (f f' : File) (rest rest' : list File)
    (st : ChatInput.State) :
  mesmo_nome (Arq.name f) (Arq.name f') = true ->
  Arq.size f = Arq.size f' ->
  ChatInput.erro (ChatInput.onArquivoSelecionado (f :: rest) st)
  = ChatInput.erro (ChatInput.onArquivoSelecionado (f' :: rest') st) /\
  (ChatInput.onArquivoSelecionado (f :: rest) st = aceito f st <->
   ChatInput.onArquivoSelecionado (f' :: rest') st = aceito f' st).
Proof.
  intros Hn Hs. unfold ChatInput.onArquivoSelecionado. cbv zeta.
  rewrite (mesmo_nome_extensao f f' Hn), Hs.
  destruct (match ChatInput.extensao f' with Some _ => _ | None => _ end).
  - split; [reflexivity|]. unfold aceito. simpl. split; discriminate.
  - destruct (5 * 1024 * 1024 <? Arq.size f')%N.
    + split; [reflexivity|]. unfold aceito. simpl. split; discriminate.
    + split; [reflexivity|]. split; reflexivity.
Qed.

(** The 100-byte [Pedido.EML] is accepted, as [pedido.eml] is. *)
Lemma X9_validation_ignores_case_witness :
  ChatInput.onArquivoSelecionado
    [{| Arq.name := "Pedido.EML"; Arq.size := 100 |}] ChatInput.inicial
  = aceito {| Arq.name := "Pedido.EML"; Arq.size := 100 |} ChatInput.inicial.
Proof.
  apply (proj2 (proj2 (X9_validation_ignores_case
                         {| Arq.name := "Pedido.EML"; Arq.size := 100 |}
                         cem_eml [] [] ChatInput.inicial eq_refl eq_refl))).
  reflexivity.
Defined.

(* ================================================================== *)
(** ** The upload component                                             *)
(* ================================================================== *)

(** X10: the upload component validates more strictly than the chat
    input: a file it accepts has the extension txt or pdf, and the chat
    input accepts it too. The converse fails: the chat input accepts a
    100-byte .eml that the upload component rejects for its format. *)
Theorem X10_upload_validation_stricter (f : File) (rest rest' : list File)
    (ust : Upload.State) (cst : ChatInput.State) :
  (Upload.erro (Upload.onArquivoSelecionado (f :: rest) ust) = None ->
   Upload.arquivoSelecionado (Upload.onArquivoSelecionado (f :: rest) ust)
     = Some f /\
   Upload.conteudoEmail (Upload.onArquivoSelecionado (f :: rest) ust)
     = EmptyString /\
   (Upload.extensao f = Some "txt"%string \/ Upload.extensao f = Some "pdf"%string) /\
   (Arq.size f <= 5242880)%N /\
   ChatInput.onArquivoSelecionado (f :: rest') cst = aceito f cst) /\
  ChatInput.onArquivoSelecionado (cem_eml :: rest') cst = aceito cem_eml cst /\
  Upload.onArquivoSelecionado (cem_eml :: rest) ust
    = Upload.set_erro (Some Upload.msg_formato) ust.
Proof.
  split; [|split; reflexivity].
  unfold Upload.onArquivoSelecionado, ChatInput.onArquivoSelecionado.
  change (ChatInput.extensao f) with (Upload.extensao f).
  destruct (Upload.extensao f) as [e|]; [|discriminate].
  destruct (String.eqb e "txt") eqn:Et; simpl.
  - apply String.eqb_eq in Et as ->. simpl.
    change (5 * 1024 * 1024)%N with 5242880%N.
    destruct (5242880 <? Arq.size f)%N eqn:Es; [discriminate|].
    apply N.ltb_ge in Es. intros _. repeat split; auto.
  - destruct (String.eqb e "pdf") eqn:Ep; simpl; [|discriminate].
    apply String.eqb_eq in Ep as ->. simpl.
    change (5 * 1024 * 1024)%N with 5242880%N.
    destruct (5242880 <? Arq.size f)%N eqn:Es; [discriminate|].
    apply N.ltb_ge in Es. intros _. repeat split; auto.
Qed.

Lemma X10_upload_validation_stricter_witness :
  ChatInput.onArquivoSelecionado [quatro_pdf] ChatInput.inicial
  = aceito quatro_pdf ChatInput.inicial.
Proof.
  apply (proj1 (X10_upload_validation_stricter quatro_pdf [] []
                  Upload.inicial ChatInput.inicial)).
  reflexivity.
Defined.

Lemma upload_passo_carregando (ev : Upload.Evento) (s s' : Upload.Sys) :
  (Upload.carregando (Upload.st s) = true ->
   Upload.resultado (Upload.st s) = None /\ Upload.emVoo s <> []) ->
  Upload.passo ev s = Some s' ->
  Upload.carregando (Upload.st s') = true ->
  Upload.resultado (Upload.st s') = None /\ Upload.emVoo s' <> [].
Proof.
  intros HI H.
  destruct ev as [v|fs| | |p|p| | |k res|k e]; simpl in H;
    try (injection H as <-; simpl; exact HI);
    try (destruct (Upload.providersEmVoo s); [|discriminate];
         injection H as <-; simpl; exact HI);
    try (destruct (Upload.emVoo s !! k); [|discriminate];
         injection H as <-; simpl; discriminate).
  - injection H as <-. simpl.
    destruct fs as [|f rest]; [exact HI|]. simpl.
    destruct (match Upload.extensao f with Some _ => _ | None => _ end);
      [exact HI|].
    destruct (5 * 1024 * 1024 <? Arq.size f)%N; exact HI.
  - injection H as <-. simpl. intros Hc. split; [reflexivity|].
    exact (proj2 (HI Hc)).
  - unfold Upload.enviar in H. simpl in H.
    destruct (Upload.arquivoSelecionado (Upload.st s)); simpl in H;
      injection H as <-; simpl; intros _; (split; [reflexivity|]);
      destruct (Upload.emVoo s); discriminate.
Qed.

(** X11: in the upload component, whatever the order of its methods and
    of the completions of its calls, no outcome is held while the
    component is loading, and while it is loading a call is in flight. *)
Theorem X11_upload_loading_shows_no_result (evs : list Upload.Evento)
    (s : Upload.Sys) :
  Upload.executar evs Upload.sys_inicial = Some s ->
  Upload.carregando (Upload.st s) = true ->
  Upload.resultado (Upload.st s) = None /\ Upload.emVoo s <> [].
Proof.
  assert (forall evs s0 s1,
            (Upload.carregando (Upload.st s0) = true ->
             Upload.resultado (Upload.st s0) = None /\ Upload.emVoo s0 <> []) ->
            Upload.executar evs s0 = Some s1 ->
            Upload.carregando (Upload.st s1) = true ->
            Upload.resultado (Upload.st s1) = None /\ Upload.emVoo s1 <> []) as Hrun.
  { clear. induction evs as [|ev evs IH]; intros s0 s1 HI H; simpl in H.
    - injection H as <-. exact HI.
    - destruct (Upload.passo ev s0) as [s2|] eqn:E; [|discriminate].
      simpl in H. apply (IH s2 s1); [|exact H].
      eapply upload_passo_carregando; eassumption. }
  apply Hrun. discriminate.
Qed.

Lemma X11_upload_loading_shows_no_result_witness :
  Upload.resultado (fst (Upload.enviar (Upload.handleSucesso resultado_095
                                          (fst (Upload.enviar Upload.inicial)))))
  = None.
Proof.
  exact (proj1 (X11_upload_loading_shows_no_result
                  [Upload.Enviar; Upload.Next 0 resultado_095; Upload.Enviar]
                  {| Upload.st :=
                       fst (Upload.enviar
                              (Upload.handleSucesso resultado_095
                                 (fst (Upload.enviar Upload.inicial))));
                     Upload.emVoo := [PorTexto EmptyString openai];
                     Upload.providersEmVoo := true |}
                  eq_refl eq_refl)).
Defined.

(* ================================================================== *)
(** ** The messages of the chat                                         *)
(* ================================================================== *)

(** X12: in every session the text of the email of a user message and of
    a pending entry is empty, so that [copiar] writes nothing for them;
    the text of a resolved entry is its reply followed by the signature,
    and is empty only when the reply is. The entry of a failed call has a
    text to copy: the error text followed by the signature. *)
Theorem X12_email_text_of_entries (ls : list (string * string))
    (evs : list Sessao.Evento) (s : Sessao.Sys) (i : nat) (m : ChatMessage) :
  Sessao.executar evs (Sessao.inicial ls) = Some s ->
  Sessao.log s !! i = Some m ->
  (Sessao.resolvida m = false ->
   Mensagem.gerarTextoEmail m = EmptyString /\ Mensagem.copiar m = None) /\
  (Sessao.resolvida m = true ->
   exists r, Msg.resultado m = Some r /\
     (resposta_sugerida r <> EmptyString ->
      Mensagem.copiar m
      = Some (resposta_sugerida r ++ Mensagem.assinatura)%string) /\
     (resposta_sugerida r = EmptyString -> Mensagem.copiar m = None)) /\
  (forall e, Msg.resultado m = Some (Chat.resultado_erro e) ->
     Mensagem.copiar m
     = Some ("❌ Erro: " ++ Chat.mensagemErro e ++ Mensagem.assinatura)%string).
Proof.
  intros H Hi.
  destruct (executar_Inv_Forma evs _ _ (Inv_inicial ls) (Forma_inicial ls) H)
    as (_ & (_ & _ & Hf & _)).
  destruct (Hf i m Hi) as (_ & Hshape).
  assert (Sessao.resolvida m = false -> Msg.resultado m = None) as Hn.
  { unfold Sessao.resolvida. destruct (Nat.even i).
    - destruct Hshape as (_ & Hr & _). auto.
    - destruct Hshape as (_ & _ & _ & _ & [[_ Hr]|[Hc _]]); [auto|].
      rewrite Hc. discriminate. }
  assert (Sessao.resolvida m = true -> exists r, Msg.resultado m = Some r) as Hs.
  { unfold Sessao.resolvida. destruct (Nat.even i).
    - destruct Hshape as (_ & _ & _ & Hc & _). rewrite Hc. discriminate.
    - destruct Hshape as (_ & _ & _ & _ & [[Hc _]|[_ Hr]]); [|auto].
      rewrite Hc. discriminate. }
  unfold Mensagem.copiar, Mensagem.gerarTextoEmail.
  split; [|split].
  - intros Hr. rewrite (Hn Hr). split; reflexivity.
  - intros Hr. destruct (Hs Hr) as (r & Er). exists r. rewrite Er. simpl.
    split; [exact eq_refl|]. split.
    + intros Hne. destruct (resposta_sugerida r) as [|a t]; [congruence|].
      reflexivity.
    + intros ->. reflexivity.
  - intros e ->. reflexivity.
Qed.

Lemma X12_email_text_of_entries_witness :
  Mensagem.gerarTextoEmail carregando1 = EmptyString /\
  Mensagem.copiar carregando1 = None.
Proof.
  apply (proj1 (X12_email_text_of_entries [] [ev_texto1]
                  (Sessao.emitir
                     (Chat.onEnviarTexto pedido_123 openai relogio1 Chat.inicial)
                     (Sessao.inicial []))
                  1%nat carregando1 eq_refl eq_refl)).
  reflexivity.
Defined.

(* ================================================================== *)
(** ** The token cache                                                  *)
(* ================================================================== *)

Lemma proxy_passo_escrita (ts : list Z) (ev : Proxy.Evento)
    (s s' : Proxy.Sys) r :
  Proxy.Escrita ts (Proxy.cache s) ->
  (forall n, In n (Proxy.aguardam s) -> In n ts) ->
  Proxy.passo ev s = Some (s', r) ->
  Proxy.Escrita (ts ++ Proxy.tempos [ev]) (Proxy.cache s') /\
  (forall n, In n (Proxy.aguardam s') -> In n (ts ++ Proxy.tempos [ev])).
Proof.
  intros HE HA H.
  assert (forall l, Proxy.Escrita ts (Proxy.cache s) ->
                    Proxy.Escrita (ts ++ l) (Proxy.cache s)) as Hmono.
  { intros l [E|(t & Ht & E)]; [left; exact E|].
    right. exists t. split; [apply in_or_app; auto | exact E]. }
  destruct ev as [now c|k a]; simpl in H.
  - destruct (Proxy.iniciar now c (Proxy.cache s)) as [tk| |n] eqn:Ei;
      injection H as <- <-; simpl.
    + split; [apply Hmono, HE|]. intros n Hn. apply in_or_app. auto.
    + split; [apply Hmono, HE|]. intros n Hn. apply in_or_app. auto.
    + assert (n = now) as ->.
      { unfold Proxy.iniciar in Ei.
        destruct (Proxy.token (Proxy.cache s)) as [tk|];
          [destruct (_ && _); [discriminate|]|];
          destruct c as [|[e|]]; try discriminate;
          destruct (Js.truthy e); congruence. }
      split; [apply Hmono, HE|]. intros n Hn.
      apply in_app_or in Hn as [Hn|Hn]; apply in_or_app; [auto|].
      right. exact Hn.
  - destruct (Proxy.aguardam s !! k) as [n|] eqn:Ek; [|discriminate].
    assert (In n ts) as Hn.
    { apply HA, list_elem_of_In, (list_elem_of_lookup_2 _ k), Ek. }
    destruct a as [|h]; simpl in H; injection H as <- <-; simpl;
      rewrite app_nil_r.
    + split; [exact HE|]. intros m Hm. apply HA.
      apply list_elem_of_In in Hm. apply list_elem_of_In.
      eapply list_elem_of_delete_inv, Hm.
    + split; [right; exists n; auto|]. intros m Hm. apply HA.
      apply list_elem_of_In in Hm. apply list_elem_of_In.
      eapply list_elem_of_delete_inv, Hm.
Qed.

Lemma proxy_tempos_cons (ev : Proxy.Evento) (evs : list Proxy.Evento) :
  Proxy.tempos (ev :: evs) = Proxy.tempos [ev] ++ Proxy.tempos evs.
Proof. destruct ev; reflexivity. Qed.

Lemma proxy_executar_escrita (evs : list Proxy.Evento) (ts : list Z)
    (s s' : Proxy.Sys) :
  Proxy.Escrita ts (Proxy.cache s) ->
  (forall n, In n (Proxy.aguardam s) -> In n ts) ->
  Proxy.executar evs s = Some s' ->
  Proxy.Escrita (ts ++ Proxy.tempos evs) (Proxy.cache s').
Proof.
  revert ts s. induction evs as [|ev evs IH]; intros ts s HE HA H; simpl in H.
  - injection H as <-. simpl. rewrite app_nil_r. exact HE.
  - destruct (Proxy.passo ev s) as [[s1 r]|] eqn:E; [|discriminate].
    destruct (proxy_passo_escrita ts ev s s1 r HE HA E) as [HE1 HA1].
    rewrite proxy_tempos_cons, app_assoc. exact (IH _ s1 HE1 HA1 H).
Qed.

(** X13: the token cache of the proxies never serves a stale token.
    Whatever the order in which invocations start and the authentication
    answers, when a call is served from the cache, at a time not before
    the times read by the earlier calls, the token is not empty and was
    cached by an invocation that began less than 55 minutes (3300000 ms)
    earlier. Conversely a cached token that is not empty is served until
    55 minutes after the invocation that fetched it began, without a look
    at the credentials; an absent or empty token is never served. *)
Theorem X13_token_cache_freshness :
  (forall (evs : list Proxy.Evento) (s : Proxy.Sys) (now : Z)
          (c : Proxy.Credenciais) (tk : string),
     Proxy.executar evs Proxy.sys_inicial = Some s ->
     Forall (fun t => t <= now) (Proxy.tempos evs) ->
     Proxy.iniciar now c (Proxy.cache s) = Proxy.Acerto tk ->
     tk <> EmptyString /\
     exists t, In t (Proxy.tempos evs) /\ t <= now < t + 3300000 /\
               Proxy.cache s = {| Proxy.token := Some tk;
                                  Proxy.expiry := t + 3600000 |}) /\
  (forall (t now : Z) (c : Proxy.Credenciais) (tk : string),
     tk <> EmptyString ->
     (Proxy.iniciar now c {| Proxy.token := Some tk; Proxy.expiry := t + 3600000 |}
      = Proxy.Acerto tk <-> now < t + 3300000)) /\
  (forall (now x : Z) (c : Proxy.Credenciais) (tk : string),
     Proxy.iniciar now c {| Proxy.token := None; Proxy.expiry := x |}
       <> Proxy.Acerto tk /\
     Proxy.iniciar now c {| Proxy.token := Some EmptyString; Proxy.expiry := x |}
       <> Proxy.Acerto tk).
Proof.
  split; [|split].
  - intros evs s now c tk He Hle Hi.
    pose proof (proxy_executar_escrita evs [] Proxy.sys_inicial s) as HE.
    simpl in HE. specialize (HE (or_introl eq_refl) (fun n F => F) He).
    unfold Proxy.iniciar in Hi.
    destruct HE as [E|(t & Ht & E)].
    + rewrite E in Hi. simpl in Hi. destruct c as [|[e|]]; try discriminate.
      destruct (Js.truthy e); discriminate.
    + destruct (Proxy.cache s) as [[tk'|] ex] eqn:Ec; simpl in *.
      * destruct (Js.truthy tk') eqn:Et; simpl in Hi.
        -- destruct (now + 300000 <? ex) eqn:El.
           ++ injection Hi as ->. split; [destruct tk; [discriminate|discriminate]|].
              exists t. rewrite Forall_forall in Hle.
              apply Z.ltb_lt in El. split; [exact Ht|].
              split; [specialize (Hle t (proj2 (list_elem_of_In _ _) Ht)); lia
                     | rewrite E; reflexivity].
           ++ destruct c as [|[e|]]; try discriminate.
              destruct (Js.truthy e); discriminate.
        -- destruct c as [|[e|]]; try discriminate.
           destruct (Js.truthy e); discriminate.
      * destruct c as [|[e|]]; try discriminate.
        destruct (Js.truthy e); discriminate.
  - intros t now c tk Hne. unfold Proxy.iniciar. simpl.
    destruct tk as [|a tk]; [congruence|]. simpl.
    destruct (now + 300000 <? t + 3600000) eqn:El.
    + apply Z.ltb_lt in El. split; [lia | reflexivity].
    + apply Z.ltb_ge in El. split; [|lia].
      destruct c as [|[e|]]; try discriminate.
      destruct (Js.truthy e); discriminate.
  - intros now x c tk. unfold Proxy.iniciar. simpl.
    split; destruct c as [|[e|]]; try discriminate;
      destruct (Js.truthy e); discriminate.
Qed.

Lemma X13_token_cache_freshness_witness :
  "abc"%string <> EmptyString /\
  exists t, In t [1000] /\ t <= 2000 < t + 3300000 /\
            {| Proxy.token := Some "abc"%string; Proxy.expiry := 3601000 |}
            = {| Proxy.token := Some "abc"%string; Proxy.expiry := t + 3600000 |}.
Proof.
  apply (proj1 X13_token_cache_freshness
           [Proxy.Chama 1000 (Proxy.Chave (Some "sa@projeto.iam"%string));
            Proxy.Responde 0 (Proxy.AuthHeaders (Some "Bearer abc"%string))]
           {| Proxy.cache := {| Proxy.token := Some "abc"%string;
                                Proxy.expiry := 3601000 |};
              Proxy.aguardam := [] |}
           2000 Proxy.JsonInvalido "abc"%string).
  - reflexivity.
  - apply List.Forall_cons; [lia | apply List.Forall_nil].
  - reflexivity.
Defined.

(* ================================================================== *)
(** ** The subject of the preview                                       *)
(* ================================================================== *)

Lemma primeiro_assunto_re casar ps original s :
  primeiro_assunto casar ps original = Some s ->
  String.prefix "Re: " s = true.
Proof.
  induction ps as [|p r IH]; simpl; [discriminate|].
  destruct (casar p original) as [g|]; [|exact IH].
  destruct (Js.truthy g); [|exact IH].
  intros [= <-]. apply (prefix_app "Re: ").
Qed.

(** X14: the subject shown by the preview always begins with "Re: ".
    A subject extracted by the classifier, when it is not empty, is used
    whatever the original email holds; without it and without an original
    text (as for an entry that answers a file) the subject is one of the
    two fixed subjects, by category. This holds for any behaviour of the
    regular-expression matching. *)
Theorem X14_preview_subject (casar : Padrao -> string -> option string)
    (res : ClassificacaoResultado) (emailOriginal : option string) :
  String.prefix "Re: " (assuntoEmail casar res emailOriginal) = true /\
  (forall a, assunto res = Some a -> a <> EmptyString ->
     assuntoEmail casar res emailOriginal = ("Re: " ++ a)%string) /\
  (ou_null (assunto res) = None -> ou_null emailOriginal = None ->
   assuntoEmail casar res emailOriginal
   = match categoria res with
     | Produtivo => "Re: Solicitação Recebida - Em Atendimento"%string
     | Improdutivo => "Re: Mensagem Recebida - Agradecemos o Contato"%string
     end).
Proof.
  assert (String.prefix "Re: " (gerarAssuntoPadrao res) = true) as Hp.
  { unfold gerarAssuntoPadrao. destruct (categoria res); reflexivity. }
  assert (forall a, String.prefix "Re: " ("Re: " ++ a) = true) as Hre
    by (intros a; apply (prefix_app "Re: ")).
  unfold assuntoEmail. split; [|split].
  - destruct (assunto res) as [a|]; [destruct (Js.truthy a); [apply Hre|]|];
      (destruct emailOriginal as [o|]; [|exact Hp]);
      (destruct (Js.truthy o); [|exact Hp]);
      (destruct (primeiro_assunto casar padroes o) eqn:E; [|exact Hp]);
      exact (primeiro_assunto_re _ _ _ _ E).
  - intros a -> Hne. destruct a; [congruence | reflexivity].
  - unfold ou_null. intros Ha Ho.
    destruct (assunto res) as [a|];
      [destruct (Js.truthy a); [discriminate|]|];
      (destruct emailOriginal as [o|];
       [destruct (Js.truthy o); [discriminate|]|]); reflexivity.
Qed.

Lemma X14_preview_subject_witness :
  assuntoEmail (fun _ _ => None) resultado_assunto (Some pedido_123)
  = "Re: Pedido #123"%string.
Proof.
  apply (proj1 (proj2 (X14_preview_subject (fun _ _ => None)
                         resultado_assunto (Some pedido_123)))
           "Pedido #123"%string eq_refl).
  discriminate.
Defined.

(* ================================================================== *)
(** ** What reaches the log                                             *)
(* ================================================================== *)

Lemma onEnviarTexto_log (c : string) (p : AIProvider) (r : Relogio)
    (st : Chat.State) :
  exists u a,
    Chat.mensagens (fst (Chat.onEnviarTexto c p r st))
      = Chat.mensagens st ++ [u; a] /\
    (Msg.conteudo u, Msg.arquivo u) = (Some c, None) /\
    (Msg.conteudo a, Msg.arquivo a) = (None, None).
Proof. eexists. eexists. repeat split. Qed.

Lemma onEnviarArquivo_log (arq : File) (p : AIProvider) (r : Relogio)
    (st : Chat.State) :
  exists u a,
    Chat.mensagens (fst (Chat.onEnviarArquivo arq p r st))
      = Chat.mensagens st ++ [u; a] /\
    (Msg.conteudo u, Msg.arquivo u)
      = (None, Some {| nome := Arq.name arq; tamanho := Arq.size arq |}) /\
    (Msg.conteudo a, Msg.arquivo a) = (None, None).
Proof. eexists. eexists. repeat split. Qed.

Lemma boa_sem_conteudo (m : ChatMessage) :
  (Msg.conteudo m, Msg.arquivo m) = (None, None) -> entrada_boa m.
Proof. intros [= H1 H2]. split; intros x Hx; congruence. Qed.

(** What the chat input emits after actions on it is fit to be sent. *)
Lemma emitida_valida (e : ChatInput.Emissao) (l : list Acao) :
  In e (snd (agir_todas l ChatInput.inicial)) -> emissao_valida e.
Proof.
  intros H.
  destruct (agir_todas_valido l ChatInput.inicial) as [_ HF];
    [intros a; discriminate|].
  rewrite Forall_forall in HF. apply HF, list_elem_of_In, H.
Qed.

(** The steps of the session that are not submissions keep the texts and
    the attachments of the log. *)
Lemma passo_boas (ev : Sessao.Evento) (s s' : Sessao.Sys) :
  submissao ev = false -> Forall entrada_boa (Sessao.log s) ->
  Sessao.passo ev s = Some s' -> Forall entrada_boa (Sessao.log s').
Proof.
  intros Es HF H.
  destruct (passo_casos _ _ _ H)
    as [(Es' & _)|[(_ & q & resto & f & Hr & Hc & _)|(_ & _ & Hu)]].
  - congruence.
  - pose proof (concluida_campos _ _ _ _ _ Hc) as Hcampos.
    destruct Hc as (-> & _). apply Forall_fmap.
    eapply Forall_impl; [exact HF|]. intros m Hm. simpl.
    destruct (String.eqb (Msg.id m) (alvo q)); [|exact Hm].
    destruct (Hcampos m) as (E & _). injection E as _ _ Ec Ea _ _.
    destruct Hm as [H1 H2]. split; intros x Hx.
    + apply H1. congruence.
    + apply H2. congruence.
  - destruct Hu as (-> & _). exact HF.
Qed.

(** A submission adds its payload to the log. *)
Lemma passo_boas_input (ev : Sessao.Evento) (s s' : Sessao.Sys) :
  do_input ev -> Forall entrada_boa (Sessao.log s) ->
  Sessao.passo ev s = Some s' -> Forall entrada_boa (Sessao.log s').
Proof.
  intros Hd HF H.
  destruct (submissao ev) eqn:Es; [|eapply passo_boas; eassumption].
  destruct ev as [c p r|arq p r| | | | | |]; try discriminate Es;
    destruct Hd as (l & Hl); apply emitida_valida in Hl; simpl in Hl;
    injection H as <-; unfold Sessao.log, Sessao.emitir; cbn [Sessao.chat].
  - destruct (onEnviarTexto_log c p r (Sessao.chat s)) as (u & a & -> & Hu & Ha).
    apply Forall_app. split; [exact HF|].
    apply Forall_cons. split.
    + injection Hu as Hc Hf. split; intros x Hx; [|congruence].
      rewrite Hc in Hx. injection Hx as <-. exact Hl.
    + apply Forall_cons. split; [apply boa_sem_conteudo, Ha | apply Forall_nil_2].
  - destruct (onEnviarArquivo_log arq p r (Sessao.chat s)) as (u & a & -> & Hu & Ha).
    apply Forall_app. split; [exact HF|].
    apply Forall_cons. split.
    + injection Hu as Hc Hf. split; intros x Hx; [congruence|].
      rewrite Hf in Hx. injection Hx as <-. exists arq. auto.
    + apply Forall_cons. split; [apply boa_sem_conteudo, Ha | apply Forall_nil_2].
Qed.

Lemma executar_boas (evs : list Sessao.Evento) (s s' : Sessao.Sys) :
  Forall do_input evs -> Forall entrada_boa (Sessao.log s) ->
  Sessao.executar evs s = Some s' -> Forall entrada_boa (Sessao.log s').
Proof.
  revert s. induction evs as [|ev evs IH]; intros s Hd HF H; simpl in H.
  - injection H as <-. exact HF.
  - apply Forall_cons in Hd as [Hd1 Hd2].
    destruct (Sessao.passo ev s) as [s1|] eqn:E; [|discriminate].
    simpl in H. apply (IH s1 Hd2); [|exact H].
    eapply passo_boas_input; eassumption.
Qed.

(** X15: when the submissions of a session are payloads that the chat
    input emits, then, whatever the order of the events, every text in
    the log is not empty and has no white space at its ends, and every
    attachment in the log is that of a file that passed the validation:
    its extension is allowed and its size is at most 5242880 bytes. *)
Theorem X15_log_holds_valid_submissions (ls : list (string * string))
    (evs : list Sessao.Evento) (s : Sessao.Sys) (i : nat) (m : ChatMessage) :
  Forall do_input evs ->
  Sessao.executar evs (Sessao.inicial ls) = Some s ->
  Sessao.log s !! i = Some m ->
  (forall c, Msg.conteudo m = Some c ->
     c <> EmptyString /\ Js.trimStart c = c /\ Js.trimEnd c = c) /\
  (forall a, Msg.arquivo m = Some a ->
     (tamanho a <= 5242880)%N /\
     exists f, Spec.validate f = Spec.Accepted /\
               nome a = Arq.name f /\ tamanho a = Arq.size f).
Proof.
  intros Hd H Hi.
  assert (Forall entrada_boa (Sessao.log s)) as HF.
  { apply (executar_boas evs (Sessao.inicial ls)); [exact Hd| |exact H].
    apply Forall_nil_2. }
  rewrite Forall_forall in HF.
  destruct (HF m (list_elem_of_lookup_2 _ _ _ Hi)) as [H1 H2].
  split; [exact H1|]. intros a Ha.
  destruct (H2 a Ha) as (f & Hv & Hn & Hs). split; [|eauto].
  rewrite Hs. unfold Spec.validate in Hv. destruct (negb _); [discriminate|].
  destruct (Spec.max_bytes <? Arq.size f)%N eqn:E; [discriminate|].
  apply N.ltb_ge in E. exact E.
Qed.

(** The chat input emits [pedido.eml] once the file was selected and
    sent; submitted, its attachment is in the log. *)
Lemma X15_log_holds_valid_submissions_witness :
  (tamanho {| nome := "pedido.eml"; tamanho := 100 |} <= 5242880)%N /\
  exists f, Spec.validate f = Spec.Accepted /\
            "pedido.eml"%string = Arq.name f /\ 100%N = Arq.size f.
Proof.
  refine (proj2 (X15_log_holds_valid_submissions []
                   [Sessao.EnviarArquivo cem_eml openai relogio1]
                   (Sessao.emitir
                      (Chat.onEnviarArquivo cem_eml openai relogio1 Chat.inicial)
                      (Sessao.inicial []))
                   0%nat
                   {| Msg.id := "msg-1-1700000000000"; Msg.tipo := user;
                      Msg.conteudo := None;
                      Msg.arquivo := Some {| nome := "pedido.eml"; tamanho := 100 |};
                      Msg.resultado := None; Msg.provider := None;
                      Msg.timestamp := 1700000000000; Msg.carregando := None;
                      Msg.emailOriginal := None |}
                   _ eq_refl eq_refl)
            {| nome := "pedido.eml"; tamanho := 100 |} eq_refl).
  apply List.Forall_cons; [|apply List.Forall_nil].
  exists [AArquivo [cem_eml]; AEnviar inputs_livre]. left. reflexivity.
Defined.
